(** * MLIR context core: a shallow embedding and its checked properties

    The development follows the sources
      mlir/include/mlir/Support/TypeID.h
      mlir/include/mlir/IR/DialectRegistry.h
      mlir/include/mlir/IR/Dialect.h
      mlir/include/mlir/IR/MLIRContext.h
      mlir/lib/IR/MLIRContext.cpp
      mlir/include/mlir/IR/Operation.h
      llvm/include/llvm/Support/LogicalResult.h
    Part I holds the definitions (one module per source component), Part II
    the lemmas and theorems about them, Part III the properties of the
    functions that Part II does not reach. *)

From Stdlib Require Import ZArith Lia.
From stdpp Require Import base option gmap strings list fin_maps sorting.

Local Open Scope Z_scope.

(* ===================================================================== *)
(** * Part I.  Definitions                                                *)
(* ===================================================================== *)

(** ** Outcomes of a call

    C++ calls of the modelled code either return, abort the process through
    [llvm::report_fatal_error], trip an [assert] (builds without NDEBUG), or
    run into undefined behaviour (a null dereference in a build with
    NDEBUG). *)
Module Run.

Inductive Outcome (A : Type) : Type :=
| Ok (a : A)
| FatalError (msg : string)
| AssertionFailure (msg : string)
| Undefined.
Arguments Ok {A} a.
Arguments FatalError {A} msg.
Arguments AssertionFailure {A} msg.
Arguments Undefined {A}.

(** Stateful, fallible code over a state [S]. *)
Definition M (S A : Type) : Type := S -> Outcome (A * S).

Definition ret {S A} (a : A) : M S A := fun s => Ok (a, s).

Definition bind {S A B} (m : M S A) (k : A -> M S B) : M S B :=
  fun s =>
    match m s with
    | Ok (a, s') => k a s'
    | FatalError msg => FatalError msg
    | AssertionFailure msg => AssertionFailure msg
    | Undefined => Undefined
    end.

Definition get {S} : M S S := fun s => Ok (s, s).
Definition gets {S A} (f : S -> A) : M S A := fun s => Ok (f s, s).
Definition modify {S} (f : S -> S) : M S unit := fun s => Ok (tt, f s).
Definition report_fatal_error {S A} (msg : string) : M S A :=
  fun _ => FatalError msg.
Definition undefined_behaviour {S A} : M S A := fun _ => Undefined.

(** [assert(cond)]: checked unless the build defines NDEBUG. *)
Definition assert {S} (ndebug : bool) (cond : bool) (msg : string) : M S unit :=
  fun s => if ndebug then Ok (tt, s)
           else if cond then Ok (tt, s) else AssertionFailure msg.

Definition returns {A} (o : Outcome A) : bool :=
  match o with Ok _ => true | _ => false end.

Definition aborts {A} (o : Outcome A) : bool :=
  match o with FatalError _ => true | _ => false end.

End Run.
Export Run.

Notation "x <- m ;; k" := (bind m (fun x => k))
  (at level 100, m at next level, right associativity).
Notation "m ;;; k" := (bind m (fun _ => k))
  (at level 100, right associativity).

(* --------------------------------------------------------------------- *)
(** ** mlir/Support/TypeID.h *)
(* --------------------------------------------------------------------- *)
Module TypeID.

(** How [TypeIDResolver<T>] resolves for a C++ type: through the explicit
    specialisation of the macro pair; through a [static TypeID
    resolveTypeID()] that the class declares itself with the inline macro;
    through such a method that the class does not declare but inherits from
    the base class of the given name and translation unit (the detection
    [decltype(T::resolveTypeID())] of [InlineTypeIDResolver] finds inherited
    members as well); or through the primary template, by name. *)
Inductive Resolution : Type :=
| ExplicitTypeID        (* MLIR_DECLARE_EXPLICIT_TYPE_ID + MLIR_DEFINE_EXPLICIT_TYPE_ID *)
| InternalInlineTypeID  (* MLIR_DEFINE_EXPLICIT_INTERNAL_INLINE_TYPE_ID *)
| InheritedInlineTypeID (baseName : string) (baseUnit : option nat)
| FallbackTypeID.       (* the primary template TypeIDResolver<T> *)

(** A C++ type [T] as [TypeID::get<T>()] meets it: its qualified name, the
    translation unit it is local to when it lives in an anonymous namespace,
    and the resolver the program selected for it. *)
Record CppType : Type := {
  qualifiedName : string;
  translationUnit : option nat;
  resolution : Resolution
}.

(** An object whose address serves as an identifier.  Distinct objects have
    distinct addresses, so an address is modelled by the object it points to:
    the static [SelfOwningTypeID id] that belongs to a type, or the [n]-th
    [TypeID::Storage] handed out by a [TypeIDAllocator]. *)
Inductive Storage : Type :=
| SelfOwning (T : CppType)
| Allocated (n : nat).

(** [class TypeID { const Storage *storage; }] *)
Record t : Type := { storage : Storage }.

#[global] Instance Resolution_eq_dec : EqDecision Resolution.
Proof. solve_decision. Defined.
#[global] Instance CppType_eq_dec : EqDecision CppType.
Proof. solve_decision. Defined.
#[global] Instance Storage_eq_dec : EqDecision Storage.
Proof. solve_decision. Defined.
#[global] Instance t_eq_dec : EqDecision t.
Proof. solve_decision. Defined.

(** [bool operator==(const TypeID &other) const { return storage == other.storage; }] *)
Definition eqb (lhs other : t) : bool :=
  bool_decide (storage lhs = storage other).
(** [operator!=]: the negation of [operator==]. *)
Definition neqb (lhs other : t) : bool := negb (eqb lhs other).

(** [SelfOwningTypeID::getTypeID()]: [TypeID::getFromOpaquePointer(this)]. *)
Definition SelfOwningTypeID_getTypeID (T : CppType) : t :=
  {| storage := SelfOwning T |}.

(** [TypeIDAllocator]: a bump allocator of [TypeID::Storage] objects;
    the state is the number of objects handed out so far. *)
Definition TypeIDAllocator_allocate (ids : nat) : t * nat :=
  ({| storage := Allocated ids |}, S ids).

(** The process-wide state behind the name-based fallback: the registry
    of [registerImplicitTypeID] and, per instantiation of the primary
    template, its function-local [static TypeID id]. *)
Record State : Type := {
  typeNameToID : gmap string t;
  typeIDAllocator : nat;
  fallbackStatic : list (CppType * t)
}.

Definition initial : State :=
  {| typeNameToID := ∅; typeIDAllocator := 0%nat; fallbackStatic := [] |}.

(** Modelled from the spec: [llvm::getTypeName<T>()] (llvm/Support/TypeName.h
    is not among the sources) yields "the type's demangled name"; a type of
    an anonymous namespace prints with the compiler's marker for that
    scope. *)
Definition getTypeName (T : CppType) : string :=
  match translationUnit T with
  | None => qualifiedName T
  | Some _ => String.append "(anonymous namespace)::" (qualifiedName T)
  end.

Fixpoint contains (needle hay : string) : bool :=
  String.prefix needle hay ||
  match hay with
  | EmptyString => false
  | String _ rest => contains needle rest
  end.

(** Modelled from the spec: [FallbackTypeIDResolver::registerImplicitTypeID]
    is only declared in the header (its body is in TypeID.cpp).  Section 4.1:
    "the registry resolves a TypeID by looking up (and if absent,
    registering) the type's demangled name in a global string-keyed table
    ... This method must refuse (assert) to operate on types defined in a
    translation-unit-local (anonymous) scope"; the header: "it may not be
    used for types defined in anonymous namespaces (which is asserted when
    it can be detected)".  The refusal is an assertion: a build with NDEBUG
    does not make the check and registers the name as any other. *)
Definition registerImplicitTypeID (ndebug : bool) (name : string) : M State t :=
  assert ndebug (negb (contains "anonymous namespace" name))
    "TypeID::get<> used on a type of an anonymous namespace" ;;;
  fun s =>
    match typeNameToID s !! name with
    | Some id => Ok (id, s)
    | None =>
        let '(id, ids) := TypeIDAllocator_allocate (typeIDAllocator s) in
        Ok (id, {| typeNameToID := <[name := id]> (typeNameToID s);
                   typeIDAllocator := ids;
                   fallbackStatic := fallbackStatic s |})
    end.

Definition lookupStatic (T : CppType) (l : list (CppType * t)) : option t :=
  snd <$> List.find (fun e => bool_decide (fst e = T)) l.

(** [TypeIDResolver<T>::resolveTypeID()] of the primary template:
    [static TypeID id = registerImplicitTypeID(llvm::getTypeName<T>()); return id;]
    The initialiser of the function-local static runs on the first call. *)
Definition Fallback_resolveTypeID (ndebug : bool) (T : CppType) : M State t :=
  fun s =>
    match lookupStatic T (fallbackStatic s) with
    | Some id => Ok (id, s)
    | None =>
        (id <- registerImplicitTypeID ndebug (getTypeName T) ;;
         modify (fun s' => {| typeNameToID := typeNameToID s';
                              typeIDAllocator := typeIDAllocator s';
                              fallbackStatic := (T, id) :: fallbackStatic s' |}) ;;;
         ret id) s
    end.

(** The class of the given name that declares [resolveTypeID] with the
    inline macro. *)
Definition declaringClass (baseName : string) (baseUnit : option nat) : CppType :=
  {| qualifiedName := baseName; translationUnit := baseUnit;
     resolution := InternalInlineTypeID |}.

(** [TypeID::get<T>()]: [return detail::TypeIDResolver<T>::resolveTypeID();]
    The explicit specialisation returns its static [id]; the specialisation
    for a class with a [resolveTypeID] calls [T::resolveTypeID()], which
    returns the function-local static [id] of the class that declares the
    method: [T] itself, or the base class [T] inherits it from.  [ndebug]
    tells whether the build defines NDEBUG. *)
Definition get (ndebug : bool) (T : CppType) : M State t :=
  match resolution T with
  | ExplicitTypeID => ret (SelfOwningTypeID_getTypeID T)
  | InternalInlineTypeID => ret (SelfOwningTypeID_getTypeID T)
  | InheritedInlineTypeID baseName baseUnit =>
      ret (SelfOwningTypeID_getTypeID (declaringClass baseName baseUnit))
  | FallbackTypeID => Fallback_resolveTypeID ndebug T
  end.

(** States a program can be in: reached from [initial] by calls of [get]. *)
Inductive reachable (ndebug : bool) : State -> Prop :=
| reachable_initial : reachable ndebug initial
| reachable_get s T id s' :
    reachable ndebug s -> get ndebug T s = Ok (id, s') -> reachable ndebug s'.

(** [s'] is [s] after some further calls of [get]. *)
Inductive later (ndebug : bool) (s : State) : State -> Prop :=
| later_refl : later ndebug s s
| later_get s1 T id s2 :
    later ndebug s s1 -> get ndebug T s1 = Ok (id, s2) -> later ndebug s s2.

End TypeID.

(* --------------------------------------------------------------------- *)
(** ** mlir/IR/Dialect.h *)
(* --------------------------------------------------------------------- *)
Module Dialect.

(** The fields of [class Dialect] that the context reads, set once by the
    constructor [Dialect(StringRef name, MLIRContext *context, TypeID id)];
    [this] is the address of the object. *)
Record t : Type := {
  this : nat;
  name : string;
  dialectID : TypeID.t
}.

#[global] Instance eq_dec : EqDecision t.
Proof. solve_decision. Defined.

(** [StringRef getNamespace() const { return name; }] *)
Definition getNamespace (d : t) : string := name d.
(** [TypeID getTypeID() const { return dialectID; }] *)
Definition getTypeID (d : t) : TypeID.t := dialectID d.

End Dialect.

(* --------------------------------------------------------------------- *)
(** ** mlir/IR/DialectRegistry.h *)
(* --------------------------------------------------------------------- *)
Module DialectRegistry.

(** [using DialectAllocatorFunction = std::function<Dialect *(MLIRContext * )>].
    A value of this type is code; the registry stores a handle on it and the
    environment of the context (below) gives the handle its body. *)
Definition DialectAllocatorFunction : Type := nat.

(** [class DialectExtensionBase]: the required dialects and a handle on the
    [apply] override. *)
Record DialectExtensionBase : Type := {
  dialectNames : list string;
  applyFn : nat
}.

#[global] Instance DialectExtensionBase_eq_dec : EqDecision DialectExtensionBase.
Proof. solve_decision. Defined.

Definition getRequiredDialects (e : DialectExtensionBase) : list string :=
  dialectNames e.
(** [clone()]: "Return a copy of this extension." *)
Definition clone (e : DialectExtensionBase) : DialectExtensionBase := e.

(** [MapTy registry;  llvm::MapVector<TypeID, std::unique_ptr<DialectExtensionBase>> extensions;]
    The [std::map] is a finite map on the namespace; the [MapVector] is a
    vector in insertion order whose keys are unique. *)
Record t : Type := {
  registry : gmap string (TypeID.t * DialectAllocatorFunction);
  extensions : list (TypeID.t * DialectExtensionBase)
}.

(** [explicit DialectRegistry();] *)
Definition empty : t := {| registry := ∅; extensions := [] |}.

(** [MapVector::contains] and [MapVector::try_emplace]. *)
Definition MapVector_contains {V} (k : TypeID.t) (v : list (TypeID.t * V)) : bool :=
  bool_decide (k ∈ v.*1).
Definition MapVector_try_emplace {V} (k : TypeID.t) (x : V)
    (v : list (TypeID.t * V)) : list (TypeID.t * V) * bool :=
  if MapVector_contains k v then (v, false) else (v ++ [(k, x)], true).

(** Modelled from the spec: [DialectRegistry::insert(TypeID, StringRef,
    const DialectAllocatorFunction &)] is only declared in the header (its
    body is in Dialect.cpp).  Section 4.3: it "records (TypeID, namespace,
    allocatorFn)"; "Registering two different TypeIDs under the same
    namespace is a usage error (detected at load time in the Context, not at
    registry-insert time)"; merging "must not duplicate entries".  An entry
    is recorded when the namespace is new ([std::map::insert]); a namespace
    already present keeps its entry. *)
Definition insert (typeID : TypeID.t) (name : string)
    (ctor : DialectAllocatorFunction) (r : t) : t :=
  match registry r !! name with
  | Some _ => r
  | None => {| registry := <[name := (typeID, ctor)]> (registry r);
               extensions := extensions r |}
  end.

(** Modelled from the spec: [getDialectAllocator] is only declared in the
    header, which documents it: "Return an allocation function for
    constructing the dialect identified by its namespace, or nullptr if the
    namespace is not in this registry."  Section 4.3 says the same. *)
Definition getDialectAllocator (name : string) (r : t)
    : option DialectAllocatorFunction :=
  snd <$> registry r !! name.

(** [bool addExtension(TypeID extensionID, std::unique_ptr<DialectExtensionBase> extension)] *)
Definition addExtension (extensionID : TypeID.t) (extension : DialectExtensionBase)
    (r : t) : t * bool :=
  let '(v, inserted) := MapVector_try_emplace extensionID extension (extensions r) in
  ({| registry := registry r; extensions := v |}, inserted).

(** [void appendTo(DialectRegistry &destination) const]: the first loop
    inserts every entry of [registry] into the destination, the second
    merges the extensions with [try_emplace(extension.first,
    extension.second->clone())].  The result is the destination after the
    call. *)
Definition appendTo (self destination : t) : t :=
  let d1 :=
    map_fold (fun name (e : TypeID.t * DialectAllocatorFunction) d =>
                insert (fst e) name (snd e) d)
             destination (registry self) in
  foldl (fun d (extension : TypeID.t * DialectExtensionBase) =>
           {| registry := registry d;
              extensions := fst (MapVector_try_emplace (fst extension)
                                   (clone (snd extension)) (extensions d)) |})
        d1 (extensions self).

(** Modelled from the spec: [isSubsetOf] is only declared in the header
    ("Returns true if the current registry is a subset of 'rhs', i.e. if
    'rhs' contains all of the components of this registry"; body in
    Dialect.cpp).  Section 4.3: "true iff every namespace entry and
    extension of this is present in rhs". *)
Definition isSubsetOf (self rhs : t) : bool :=
  bool_decide (map_Forall (fun name _ => is_Some (registry rhs !! name))
                          (registry self))
  && forallb (fun extension : TypeID.t * DialectExtensionBase =>
                MapVector_contains (fst extension) (extensions rhs))
             (extensions self).

End DialectRegistry.

(* --------------------------------------------------------------------- *)
(** ** Builtin types and attributes cached by the context *)
(* --------------------------------------------------------------------- *)
Module Builtin.

(** [IntegerType::SignednessSemantics] *)
Inductive SignednessSemantics : Type := Signless | Signed | Unsigned.

(** The builtin type classes without parameters that the context caches. *)
Inductive SingletonType : Type :=
| Float4E2M1FNType | Float6E2M3FNType | Float6E3M2FNType | Float8E5M2Type
| Float8E4M3Type | Float8E4M3FNType | Float8E5M2FNUZType | Float8E4M3FNUZType
| Float8E4M3B11FNUZType | Float8E3M4Type | Float8E8M0FNUType | BFloat16Type
| Float16Type | FloatTF32Type | Float32Type | Float64Type | Float80Type
| Float128Type | IndexType | NoneType.

(** The key under which the type uniquer holds a type: the class and its
    parameters ([IntegerType]: width and signedness). *)
Inductive TypeKey : Type :=
| Singleton (T : SingletonType)
| IntegerTypeKey (width : Z) (signedness : SignednessSemantics).

(** [class Type { ImplType *impl; }]: a handle on a uniqued storage, [None]
    for the null handle [Type()]. *)
Definition Type_ : Type := option nat.

(** Keys of the attribute uniquer for the attributes the context caches. *)
Inductive AttrKey : Type :=
| UnknownLocKey
| IntegerAttrKey (type : Type_) (value : bool)
| UnitAttrKey
| DictionaryAttrKey
| StringAttrKey (value : string).

Definition Attribute : Type := option nat.

#[global] Instance SignednessSemantics_eq_dec : EqDecision SignednessSemantics.
Proof. solve_decision. Defined.
#[global] Instance SingletonType_eq_dec : EqDecision SingletonType.
Proof. solve_decision. Defined.
#[global] Instance TypeKey_eq_dec : EqDecision TypeKey.
Proof. solve_decision. Defined.
#[global] Instance AttrKey_eq_dec : EqDecision AttrKey.
Proof. solve_decision. Defined.

(** The "Cached Type Instances" fields of [MLIRContextImpl]. *)
Inductive TypeField : Type :=
| f4E2M1FNTy | f6E2M3FNTy | f6E3M2FNTy | f8E5M2Ty | f8E4M3Ty | f8E4M3FNTy
| f8E5M2FNUZTy | f8E4M3FNUZTy | f8E4M3B11FNUZTy | f8E3M4Ty | f8E8M0FNUTy
| bf16Ty | f16Ty | tf32Ty | f32Ty | f64Ty | f80Ty | f128Ty
| indexTy
| int1Ty | int8Ty | int16Ty | int32Ty | int64Ty | int128Ty
| noneType.

(** The "Cached Attribute Instances" fields of [MLIRContextImpl]. *)
Inductive AttrField : Type :=
| falseAttr | trueAttr | unitAttr | unknownLocAttr | emptyDictionaryAttr
| emptyStringAttr.

#[global] Instance TypeField_eq_dec : EqDecision TypeField.
Proof. solve_decision. Defined.
#[global] Instance AttrField_eq_dec : EqDecision AttrField.
Proof. solve_decision. Defined.

(** Modelled from the spec: [StorageUniquer] (mlir/Support/StorageUniquer.h
    is not among the sources).  Section 4.2: "given a key value and a
    constructor callback, get<StorageT>(initFn, keyArgs...) returns the
    single canonical StorageT* for that key, constructing it via the
    callback only on first observation of the key"; "the uniquer exposes a
    mode switch (single-threaded / multi-threaded)".  The storages are kept
    in the order of their construction; a storage is named by its position
    in that order. *)
Record StorageUniquer (K : Type) : Type := {
  threadingMode : bool;
  storages : list (K * nat)
}.
Arguments threadingMode {K} _.
Arguments storages {K} _.

Definition StorageUniquer_empty {K} : StorageUniquer K :=
  {| threadingMode := true; storages := [] |}.

Definition StorageUniquer_lookup {K} `{EqDecision K} (key : K)
    (u : StorageUniquer K) : option nat :=
  snd <$> List.find (fun e => bool_decide (fst e = key)) (storages u).

Definition StorageUniquer_get {K} `{EqDecision K} (key : K)
    (u : StorageUniquer K) : nat * StorageUniquer K :=
  match StorageUniquer_lookup key u with
  | Some s => (s, u)
  | None =>
      let s := length (storages u) in
      (s, {| threadingMode := threadingMode u;
             storages := storages u ++ [(key, s)] |})
  end.

Definition StorageUniquer_disableMultithreading {K} (flag : bool)
    (u : StorageUniquer K) : StorageUniquer K :=
  {| threadingMode := negb flag; storages := storages u |}.

(** The storage classes the constructor registers with the affine uniquer. *)
Inductive AffineStorage : Type :=
| AffineBinaryOpExprStorage | AffineConstantExprStorage | AffineDimExprStorage
| AffineMapStorage | IntegerSetStorage.

End Builtin.

(* --------------------------------------------------------------------- *)
(** ** mlir/IR/MLIRContext.h and mlir/lib/IR/MLIRContext.cpp *)
(* --------------------------------------------------------------------- *)
Module MLIRContext.
Import Builtin.

(** [enum class Threading { DISABLED, ENABLED }] *)
Inductive Threading : Type := DISABLED | ENABLED.

(** [struct MLIRContextOptions]: the command-line options. *)
Record MLIRContextOptions : Type := {
  disableThreading : bool;            (* --mlir-disable-threading *)
  clPrintOpOnDiagnostic : bool;       (* --mlir-print-op-on-diagnostic *)
  clPrintStackTraceOnDiagnostic : bool (* --mlir-print-stacktrace-on-diagnostic *)
}.

(** [MLIRContextImpl], grouped as its own section comments group it.
    Fields that none of the modelled member functions reads or writes
    (action handler, diagnostic engine, operation and kind tables) are left
    out. *)

(** "Options" *)
Record Options : Type := {
  allowUnregisteredDialects : bool;
  printOpOnDiagnostic : bool;
  printStackTraceOnDiagnostic : bool
}.

(** Threading flag, the debug counter and the thread pool pointers;
    a pointer is the address of the pool, [None] is [nullptr]. *)
Record Threads : Type := {
  threadingIsEnabled : bool;
  multiThreadedExecutionContext : Z;      (* #ifndef NDEBUG *)
  threadPool : option nat;                (* llvm::ThreadPoolInterface * *)
  ownedThreadPool : option nat            (* std::unique_ptr<llvm::ThreadPoolInterface> *)
}.

(** [DenseMap<StringRef, std::unique_ptr<Dialect>> loadedDialects;
     DialectRegistry dialectsRegistry;
     DenseMap<StringRef, SmallVector<StringAttrStorage *>> dialectReferencingStrAttrs;]
    A [unique_ptr<Dialect>] is [None] when null and otherwise holds the
    dialect object it owns. *)
Record Dialects : Type := {
  loadedDialects : gmap string (option Dialect.t);
  dialectsRegistry : DialectRegistry.t;
  dialectReferencingStrAttrs : gmap string (list nat)
}.

(** The uniquers and the cached instances.  The cached fields of the C++
    struct are read through their field name. *)
Record Uniquing : Type := {
  affineUniquer : StorageUniquer unit;
  affineStorageTypes : list AffineStorage;
  typeUniquer : StorageUniquer TypeKey;
  cachedTypes : TypeField -> Type_;
  attributeUniquer : StorageUniquer AttrKey;
  cachedAttrs : AttrField -> Attribute
}.

(** Objects outside [MLIRContextImpl] that its member functions reach:
    the [referencedDialect] field of string attribute storages, the thread
    pool objects that are alive, and the next address [new] hands out. *)
Record Heap : Type := {
  referencedDialect : gmap nat (option Dialect.t);
  threadPools : gset nat;
  nextObject : nat
}.

Record Context : Type := {
  options : Options;
  threads : Threads;
  dialects : Dialects;
  uniquing : Uniquing;
  heap : Heap
}.

Definition set_options (f : Options -> Options) (c : Context) : Context :=
  {| options := f (options c); threads := threads c; dialects := dialects c;
     uniquing := uniquing c; heap := heap c |}.
Definition set_threads (f : Threads -> Threads) (c : Context) : Context :=
  {| options := options c; threads := f (threads c); dialects := dialects c;
     uniquing := uniquing c; heap := heap c |}.
Definition set_dialects (f : Dialects -> Dialects) (c : Context) : Context :=
  {| options := options c; threads := threads c; dialects := f (dialects c);
     uniquing := uniquing c; heap := heap c |}.
Definition set_uniquing (f : Uniquing -> Uniquing) (c : Context) : Context :=
  {| options := options c; threads := threads c; dialects := dialects c;
     uniquing := f (uniquing c); heap := heap c |}.
Definition set_heap (f : Heap -> Heap) (c : Context) : Context :=
  {| options := options c; threads := threads c; dialects := dialects c;
     uniquing := uniquing c; heap := f (heap c) |}.

Definition set_loadedDialects
    (f : gmap string (option Dialect.t) -> gmap string (option Dialect.t))
    : Context -> Context :=
  set_dialects (fun d =>
    {| loadedDialects := f (loadedDialects d);
       dialectsRegistry := dialectsRegistry d;
       dialectReferencingStrAttrs := dialectReferencingStrAttrs d |}).
Definition set_dialectsRegistry (f : DialectRegistry.t -> DialectRegistry.t)
    : Context -> Context :=
  set_dialects (fun d =>
    {| loadedDialects := loadedDialects d;
       dialectsRegistry := f (dialectsRegistry d);
       dialectReferencingStrAttrs := dialectReferencingStrAttrs d |}).
Definition set_dialectReferencingStrAttrs
    (f : gmap string (list nat) -> gmap string (list nat)) : Context -> Context :=
  set_dialects (fun d =>
    {| loadedDialects := loadedDialects d;
       dialectsRegistry := dialectsRegistry d;
       dialectReferencingStrAttrs := f (dialectReferencingStrAttrs d) |}).
Definition set_referencedDialect
    (f : gmap nat (option Dialect.t) -> gmap nat (option Dialect.t))
    : Context -> Context :=
  set_heap (fun h =>
    {| referencedDialect := f (referencedDialect h);
       threadPools := threadPools h; nextObject := nextObject h |}).

(** The environment of a context: build macros, the command-line options
    object ([llvm::ManagedStatic], absent until constructed) and the bodies
    of the code the registry holds handles on.  [applyExtensions] (both
    overloads; bodies in Dialect.cpp, not among the sources) is taken as
    given code. *)
Record Env : Type := {
  NDEBUG : bool;
  LLVM_ENABLE_THREADS : bool;
  clOptions : option MLIRContextOptions;
  allocator : DialectRegistry.DialectAllocatorFunction -> M Context (option Dialect.t);
  applyExtensionsToDialect : DialectRegistry.t -> option Dialect.t -> M Context unit;
  applyExtensionsToContext : DialectRegistry.t -> M Context unit
}.

(** A concrete dialect class [T]: [T::getDialectNamespace()],
    [TypeID::get<T>()] (one value for all calls, see the TypeID properties)
    and its constructor [T(MLIRContext * )], which runs on the storage at
    the given address, may call back into the context, and initialises the
    [Dialect] base with a name and an identifier. *)
Record DialectClass : Type := {
  getDialectNamespace : string;
  classTypeID : TypeID.t;
  constructor : nat -> M Context (string * TypeID.t)
}.

(** [Dialect *getLoadedDialect(StringRef name)] *)
Definition getLoadedDialect (name : string) (c : Context) : option Dialect.t :=
  match loadedDialects (dialects c) !! name with
  | Some p => p
  | None => None
  end.

(** [bool isDialectLoading(StringRef dialectNamespace)] *)
Definition isDialectLoading (dialectNamespace : string) (c : Context) : bool :=
  match loadedDialects (dialects c) !! dialectNamespace with
  | Some None => true
  | _ => false
  end.

(** The loop over [stringAttrsIt->second] in [getOrLoadDialect]:
    [storage->referencedDialect = dialect]. *)
Definition refreshReferencedDialect (dialect : option Dialect.t)
    (storages : list nat) : Context -> Context :=
  set_referencedDialect (fun m =>
    foldl (fun m storage => <[storage := dialect]> m) m storages).

(** [Dialect *getOrLoadDialect(StringRef dialectNamespace, TypeID dialectID,
                              function_ref<std::unique_ptr<Dialect>()> ctor)] *)
Definition getOrLoadDialect (env : Env) (dialectNamespace : string)
    (dialectID : TypeID.t) (ctor : M Context (option Dialect.t))
    : M Context (option Dialect.t) :=
  fun c =>
    match loadedDialects (dialects c) !! dialectNamespace with
    | None =>
        (* try_emplace inserted (dialectNamespace, nullptr) *)
        (modify (set_loadedDialects (fun m => <[dialectNamespace := None]> m)) ;;;
         mtec <- gets (fun c => multiThreadedExecutionContext (threads c)) ;;
         (if negb (NDEBUG env) && negb (mtec =? 0)
          then report_fatal_error
                 ("Loading a dialect (" +:+ dialectNamespace +:+
                  ") while in a multi-threaded execution context (maybe the PassManager): this can indicate a missing `dependentDialects` in a pass for example.")
          else ret tt) ;;;
         (* impl.loadedDialects[dialectNamespace] = ctor(); *)
         dialect <- ctor ;;
         modify (set_loadedDialects (fun m => <[dialectNamespace := dialect]> m)) ;;;
         assert (NDEBUG env) (bool_decide (is_Some dialect)) "dialect ctor failed" ;;;
         stringAttrsIt <-
           gets (fun c => dialectReferencingStrAttrs (dialects c) !! dialectNamespace) ;;
         match stringAttrsIt with
         | Some storages =>
             modify (refreshReferencedDialect dialect storages) ;;;
             modify (set_dialectReferencingStrAttrs (delete dialectNamespace))
         | None => ret tt
         end ;;;
         registry <- gets (fun c => dialectsRegistry (dialects c)) ;;
         applyExtensionsToDialect env registry dialect ;;;
         ret dialect) c
    | Some None =>
        if negb (NDEBUG env) then
          FatalError
            ("Loading (and getting) a dialect (" +:+ dialectNamespace +:+
             ") while the same dialect is still loading: use loadDialect instead of getOrLoadDialect.")
        else Undefined (* dialect->getTypeID() through a null pointer *)
    | Some (Some dialect) =>
        if TypeID.neqb (Dialect.getTypeID dialect) dialectID then
          FatalError ("a dialect with namespace '" +:+ dialectNamespace +:+
                      "' has already been registered")
        else Ok (Some dialect, c)
    end.

(** The lambda of [getOrLoadDialect<T>()]:
    [[this]() { std::unique_ptr<T> dialect(new T(this)); return dialect; }] *)
Definition newDialect (T : DialectClass) : M Context (option Dialect.t) :=
  a <- gets (fun c => nextObject (heap c)) ;;
  modify (set_heap (fun h =>
    {| referencedDialect := referencedDialect h;
       threadPools := threadPools h; nextObject := S a |})) ;;;
  fields <- constructor T a ;;
  ret (Some {| Dialect.this := a; Dialect.name := fst fields;
               Dialect.dialectID := snd fields |}).

(** [template <typename T> T *getOrLoadDialect()] *)
Definition getOrLoadDialectT (env : Env) (T : DialectClass)
    : M Context (option Dialect.t) :=
  getOrLoadDialect env (getDialectNamespace T) (classTypeID T) (newDialect T).

(** [template <typename Dialect> void loadDialect()] *)
Definition loadDialect (env : Env) (T : DialectClass) : M Context unit :=
  fun c =>
    if negb (isDialectLoading (getDialectNamespace T) c)
    then (getOrLoadDialectT env T ;;; ret tt) c
    else Ok (tt, c).

(** [Dialect *getOrLoadDialect(StringRef name)] *)
Definition getOrLoadDialectByName (env : Env) (name : string)
    : M Context (option Dialect.t) :=
  fun c =>
    match getLoadedDialect name c with
    | Some dialect => Ok (Some dialect, c)
    | None =>
        match DialectRegistry.getDialectAllocator name
                (dialectsRegistry (dialects c)) with
        | Some alloc => allocator env alloc c
        | None => Ok (None, c)
        end
    end.

(** [void appendDialectRegistry(const DialectRegistry &registry)] *)
Definition appendDialectRegistry (env : Env) (registry : DialectRegistry.t)
    : M Context unit :=
  fun c =>
    if DialectRegistry.isSubsetOf registry (dialectsRegistry (dialects c))
    then Ok (tt, c)
    else
      (assert (NDEBUG env)
              (multiThreadedExecutionContext (threads c) =? 0)
              "appending to the MLIRContext dialect registry while in a multi-threaded execution context" ;;;
       modify (set_dialectsRegistry (DialectRegistry.appendTo registry)) ;;;
       applyExtensionsToContext env registry) c.

(** [const DialectRegistry &getDialectRegistry()] *)
Definition getDialectRegistry (c : Context) : DialectRegistry.t :=
  dialectsRegistry (dialects c).


(** [llvm::array_pod_sort] (llvm/ADT/STLExtras.h) is not among the sources
    and the spec does not describe it: it hands an array of more than one
    element to the C library's [qsort].  [qsort] reads its comparator as C
    prescribes: a result less than, equal to or greater than zero says that
    the first argument is less than, equal to or greater than the second.
    It is modelled as a merge sort that, when merging, takes the left
    element if [compare left right <= 0] and the right one otherwise. *)
Definition qsort_le {A} (compare : A -> A -> Z) (lhs rhs : A) : Prop :=
  compare lhs rhs <= 0.
#[global] Instance qsort_le_dec {A} (compare : A -> A -> Z) lhs rhs :
  Decision (qsort_le compare lhs rhs).
Proof. unfold qsort_le. apply _. Defined.

Definition array_pod_sort {A} (compare : A -> A -> Z) (l : list A) : list A :=
  match l with
  | [] | [_] => l
  | _ => merge_sort (qsort_le compare) l
  end.

(** The comparator [getLoadedDialects] passes:
    [[](Dialect *const *lhs, Dialect *const *rhs) -> int {
        return ( *lhs)->getNamespace() < ( *rhs)->getNamespace(); }]
    The [bool] converts to the [int] 1 or 0. *)
Definition compareLoadedDialects (lhs rhs : Dialect.t) : Z :=
  if String.ltb (Dialect.getNamespace lhs) (Dialect.getNamespace rhs)
  then 1 else 0.

(** [std::vector<Dialect *> getLoadedDialects()].  The iteration order of the
    [DenseMap] is the order of [map_to_list].  With two or more entries the
    comparator dereferences every pointer, a null one included. *)
Definition getLoadedDialects (c : Context) : Outcome (list (option Dialect.t)) :=
  let result := (map_to_list (loadedDialects (dialects c))).*2 in
  match result with
  | [] | [_] => Ok result
  | _ =>
      match mapM id result with
      | Some ds => Ok (Some <$> array_pod_sort compareLoadedDialects ds)
      | None => Undefined
      end
  end.

(** [static bool isThreadingGloballyDisabled()] *)
Definition isThreadingGloballyDisabled (env : Env) : bool :=
  if LLVM_ENABLE_THREADS env then
    match clOptions env with
    | Some o => disableThreading o
    | None => false
    end
  else true.

(** [bool isMultithreadingEnabled()];
    [llvm::llvm_is_multithreaded()] is [LLVM_ENABLE_THREADS != 0]. *)
Definition isMultithreadingEnabled (env : Env) (c : Context) : bool :=
  threadingIsEnabled (threads c) && LLVM_ENABLE_THREADS env.

(** [std::make_unique<llvm::DefaultThreadPool>()]: a new pool object. *)
Definition make_unique_DefaultThreadPool : M Context nat :=
  fun c =>
    let a := nextObject (heap c) in
    Ok (a, set_heap (fun h =>
             {| referencedDialect := referencedDialect h;
                threadPools := {[a]} ∪ threadPools h;
                nextObject := S a |}) c).

(** Assignment to, and [reset()] of, [ownedThreadPool]: the pool owned so
    far, if any, is destroyed. *)
Definition assign_ownedThreadPool (p : option nat) : M Context unit :=
  modify (fun c =>
    let c' := match ownedThreadPool (threads c) with
              | Some old =>
                  set_heap (fun h =>
                    {| referencedDialect := referencedDialect h;
                       threadPools := threadPools h ∖ {[old]};
                       nextObject := nextObject h |}) c
              | None => c
              end in
    set_threads (fun t =>
      {| threadingIsEnabled := threadingIsEnabled t;
         multiThreadedExecutionContext := multiThreadedExecutionContext t;
         threadPool := threadPool t;
         ownedThreadPool := p |}) c').

Definition assign_threadPool (p : option nat) : M Context unit :=
  modify (set_threads (fun t =>
    {| threadingIsEnabled := threadingIsEnabled t;
       multiThreadedExecutionContext := multiThreadedExecutionContext t;
       threadPool := p;
       ownedThreadPool := ownedThreadPool t |})).

Definition assign_threadingIsEnabled (b : bool) : M Context unit :=
  modify (set_threads (fun t =>
    {| threadingIsEnabled := b;
       multiThreadedExecutionContext := multiThreadedExecutionContext t;
       threadPool := threadPool t;
       ownedThreadPool := ownedThreadPool t |})).

(** "Update the threading mode for each of the uniquers." *)
Definition uniquers_disableMultithreading (disable : bool) : M Context unit :=
  modify (set_uniquing (fun u =>
    {| affineUniquer := StorageUniquer_disableMultithreading disable (affineUniquer u);
       affineStorageTypes := affineStorageTypes u;
       typeUniquer := StorageUniquer_disableMultithreading disable (typeUniquer u);
       cachedTypes := cachedTypes u;
       attributeUniquer :=
         StorageUniquer_disableMultithreading disable (attributeUniquer u);
       cachedAttrs := cachedAttrs u |})).

(** [void disableMultithreading(bool disable = true)] *)
Definition disableMultithreading (env : Env) (disable : bool) : M Context unit :=
  fun c =>
    if isThreadingGloballyDisabled env then Ok (tt, c)
    else
      (assert (NDEBUG env) (multiThreadedExecutionContext (threads c) =? 0)
         "changing MLIRContext `disable-threading` configuration while in a multi-threaded execution context" ;;;
       assign_threadingIsEnabled (negb disable) ;;;
       uniquers_disableMultithreading disable ;;;
       owned <- gets (fun c => ownedThreadPool (threads c)) ;;
       pool <- gets (fun c => threadPool (threads c)) ;;
       if disable then
         match owned with
         | Some _ =>
             assert (NDEBUG env) (bool_decide (is_Some pool)) "impl->threadPool" ;;;
             assign_threadPool None ;;;
             assign_ownedThreadPool None
         | None => ret tt
         end
       else
         match pool with
         | None =>
             assert (NDEBUG env) (bool_decide (owned = None))
                    "!impl->ownedThreadPool" ;;;
             p <- make_unique_DefaultThreadPool ;;
             assign_ownedThreadPool (Some p) ;;;
             assign_threadPool (Some p)
         | Some _ => ret tt
         end) c.

(** [void enableMultithreading(bool enable = true) { disableMultithreading(!enable); }] *)
Definition enableMultithreading (env : Env) (enable : bool) : M Context unit :=
  disableMultithreading env (negb enable).

(** [void setThreadPool(llvm::ThreadPoolInterface &pool)] *)
Definition setThreadPool (env : Env) (pool : nat) : M Context unit :=
  fun c =>
    (assert (NDEBUG env) (negb (isMultithreadingEnabled env c))
        "expected multi-threading to be disabled when setting a ThreadPool" ;;;
     assign_threadPool (Some pool) ;;;
     assign_ownedThreadPool None ;;;
     enableMultithreading env true) c.

(** The value an [int] takes for the result [x] of a step:
    [std::atomic<int>] wraps around in two's complement. *)
Definition wrap_int (x : Z) : Z := (x + 2 ^ 31) mod 2 ^ 32 - 2 ^ 31.

(** [void enterMultiThreadedExecution()] and [exitMultiThreadedExecution()]:
    [++impl->multiThreadedExecutionContext] and
    [--impl->multiThreadedExecutionContext] on the
    [std::atomic<int> multiThreadedExecutionContext{0}], which exists in
    builds without NDEBUG only. *)
Definition add_multiThreadedExecutionContext (env : Env) (d : Z) : M Context unit :=
  if NDEBUG env then ret tt
  else modify (set_threads (fun t =>
    {| threadingIsEnabled := threadingIsEnabled t;
       multiThreadedExecutionContext :=
         wrap_int (multiThreadedExecutionContext t + d);
       threadPool := threadPool t;
       ownedThreadPool := ownedThreadPool t |})).
Definition enterMultiThreadedExecution (env : Env) : M Context unit :=
  add_multiThreadedExecutionContext env 1.
Definition exitMultiThreadedExecution (env : Env) : M Context unit :=
  add_multiThreadedExecutionContext env (-1).

(** [~MLIRContext() = default]: the implementation object goes, and with it
    the pool [ownedThreadPool] owns.  The result is the heap left behind. *)
Definition destroy (c : Context) : Heap :=
  match ownedThreadPool (threads c) with
  | Some p => {| referencedDialect := referencedDialect (heap c);
                 threadPools := threadPools (heap c) ∖ {[p]};
                 nextObject := nextObject (heap c) |}
  | None => heap c
  end.


(** *** The constructor and the cached instances *)

(** Modelled from the spec: [TypeUniquer::get<T>(ctx, args...)] and
    [AttributeUniquer::get<T>(ctx, args...)] (mlir/IR/TypeSupport.h and
    AttributeSupport.h are not among the sources) ask the context's uniquer
    for the canonical storage of the key, section 4.2. *)
Definition TypeUniquer_get (key : TypeKey) : M Context Type_ :=
  fun c =>
    let '(s, u) := StorageUniquer_get key (typeUniquer (uniquing c)) in
    Ok (Some s, set_uniquing (fun q =>
      {| affineUniquer := affineUniquer q;
         affineStorageTypes := affineStorageTypes q;
         typeUniquer := u;
         cachedTypes := cachedTypes q;
         attributeUniquer := attributeUniquer q;
         cachedAttrs := cachedAttrs q |}) c).

Definition AttributeUniquer_get (key : AttrKey) : M Context Attribute :=
  fun c =>
    let '(s, u) := StorageUniquer_get key (attributeUniquer (uniquing c)) in
    Ok (Some s, set_uniquing (fun q =>
      {| affineUniquer := affineUniquer q;
         affineStorageTypes := affineStorageTypes q;
         typeUniquer := typeUniquer q;
         cachedTypes := cachedTypes q;
         attributeUniquer := u;
         cachedAttrs := cachedAttrs q |}) c).

(** Modelled from the spec: the unchecked attribute getters the constructor
    calls (BuiltinAttributes.cpp is not among the sources) obtain their
    attribute from the attribute uniquer; the boolean attributes are integer
    attributes of the type they are given. *)
Definition IntegerAttr_getBoolAttrUnchecked (type : Type_) (value : bool)
    : M Context Attribute :=
  AttributeUniquer_get (IntegerAttrKey type value).
Definition DictionaryAttr_getEmptyUnchecked : M Context Attribute :=
  AttributeUniquer_get DictionaryAttrKey.
Definition StringAttr_getEmptyStringAttrUnchecked : M Context Attribute :=
  AttributeUniquer_get (StringAttrKey "").

(** [impl-><field> = ...] for a cached type or attribute. *)
Definition assign_cachedType (field : TypeField) (v : Type_) : M Context unit :=
  modify (set_uniquing (fun q =>
    {| affineUniquer := affineUniquer q;
       affineStorageTypes := affineStorageTypes q;
       typeUniquer := typeUniquer q;
       cachedTypes := fun f => if decide (f = field) then v else cachedTypes q f;
       attributeUniquer := attributeUniquer q;
       cachedAttrs := cachedAttrs q |})).
Definition assign_cachedAttr (field : AttrField) (v : Attribute) : M Context unit :=
  modify (set_uniquing (fun q =>
    {| affineUniquer := affineUniquer q;
       affineStorageTypes := affineStorageTypes q;
       typeUniquer := typeUniquer q;
       cachedTypes := cachedTypes q;
       attributeUniquer := attributeUniquer q;
       cachedAttrs := fun f => if decide (f = field) then v else cachedAttrs q f |})).

(** What the constructor asks the type uniquer for, per cached type field:
    [impl->f32Ty = TypeUniquer::get<Float32Type>(this)],
    [impl->int8Ty = TypeUniquer::get<IntegerType>(this, 8, IntegerType::Signless)], ... *)
Definition typeFieldKey (field : TypeField) : TypeKey :=
  match field with
  | f4E2M1FNTy => Singleton Float4E2M1FNType
  | f6E2M3FNTy => Singleton Float6E2M3FNType
  | f6E3M2FNTy => Singleton Float6E3M2FNType
  | f8E5M2Ty => Singleton Float8E5M2Type
  | f8E4M3Ty => Singleton Float8E4M3Type
  | f8E4M3FNTy => Singleton Float8E4M3FNType
  | f8E5M2FNUZTy => Singleton Float8E5M2FNUZType
  | f8E4M3FNUZTy => Singleton Float8E4M3FNUZType
  | f8E4M3B11FNUZTy => Singleton Float8E4M3B11FNUZType
  | f8E3M4Ty => Singleton Float8E3M4Type
  | f8E8M0FNUTy => Singleton Float8E8M0FNUType
  | bf16Ty => Singleton BFloat16Type
  | f16Ty => Singleton Float16Type
  | tf32Ty => Singleton FloatTF32Type
  | f32Ty => Singleton Float32Type
  | f64Ty => Singleton Float64Type
  | f80Ty => Singleton Float80Type
  | f128Ty => Singleton Float128Type
  | indexTy => Singleton IndexType
  | int1Ty => IntegerTypeKey 1 Signless
  | int8Ty => IntegerTypeKey 8 Signless
  | int16Ty => IntegerTypeKey 16 Signless
  | int32Ty => IntegerTypeKey 32 Signless
  | int64Ty => IntegerTypeKey 64 Signless
  | int128Ty => IntegerTypeKey 128 Signless
  | noneType => Singleton NoneType
  end.

(** The right-hand side of the constructor's assignment to a cached
    attribute field. *)
Definition attrFieldInit (field : AttrField) : M Context Attribute :=
  match field with
  | unknownLocAttr => AttributeUniquer_get UnknownLocKey
  | falseAttr =>
      int1 <- gets (fun c => cachedTypes (uniquing c) int1Ty) ;;
      IntegerAttr_getBoolAttrUnchecked int1 false
  | trueAttr =>
      int1 <- gets (fun c => cachedTypes (uniquing c) int1Ty) ;;
      IntegerAttr_getBoolAttrUnchecked int1 true
  | unitAttr => AttributeUniquer_get UnitAttrKey
  | emptyDictionaryAttr => DictionaryAttr_getEmptyUnchecked
  | emptyStringAttr => StringAttr_getEmptyStringAttrUnchecked
  end.

Inductive CachedField : Type :=
| TypeCache (field : TypeField)
| AttrCache (field : AttrField).

#[global] Instance CachedField_eq_dec : EqDecision CachedField.
Proof. solve_decision. Defined.

(** One assignment of the constructor to a cached field. *)
Definition initCachedField (f : CachedField) : M Context unit :=
  match f with
  | TypeCache field =>
      t <- TypeUniquer_get (typeFieldKey field) ;; assign_cachedType field t
  | AttrCache field =>
      a <- attrFieldInit field ;; assign_cachedAttr field a
  end.

(** The assignments of the constructor, in the order of its statements
    (MLIRContext.cpp, "Types." then "Attributes."). *)
Definition constructorCacheOrder : list CachedField :=
  [ TypeCache f4E2M1FNTy; TypeCache f6E2M3FNTy; TypeCache f6E3M2FNTy;
    TypeCache f8E5M2Ty; TypeCache f8E4M3Ty; TypeCache f8E4M3FNTy;
    TypeCache f8E5M2FNUZTy; TypeCache f8E4M3FNUZTy; TypeCache f8E4M3B11FNUZTy;
    TypeCache f8E3M4Ty; TypeCache f8E8M0FNUTy; TypeCache bf16Ty;
    TypeCache f16Ty; TypeCache tf32Ty; TypeCache f32Ty; TypeCache f64Ty;
    TypeCache f80Ty; TypeCache f128Ty;
    TypeCache indexTy;
    TypeCache int1Ty; TypeCache int8Ty; TypeCache int16Ty; TypeCache int32Ty;
    TypeCache int64Ty; TypeCache int128Ty;
    TypeCache noneType;
    AttrCache unknownLocAttr;
    AttrCache falseAttr; AttrCache trueAttr;
    AttrCache unitAttr;
    AttrCache emptyDictionaryAttr;
    AttrCache emptyStringAttr ].

Fixpoint initCaches (l : list CachedField) : M Context unit :=
  match l with
  | [] => ret tt
  | f :: l' => initCachedField f ;;; initCaches l'
  end.

(** [MLIRContextImpl(bool threadingIsEnabled)], built in the heap [h]. *)
Definition MLIRContextImpl_new (threadingIsEnabled : bool) (h : Heap) : Context :=
  let pool := nextObject h in
  {| options := {| allowUnregisteredDialects := false;
                   printOpOnDiagnostic := true;
                   printStackTraceOnDiagnostic := false |};
     threads := {| threadingIsEnabled := threadingIsEnabled;
                   multiThreadedExecutionContext := 0;
                   threadPool := if threadingIsEnabled then Some pool else None;
                   ownedThreadPool := if threadingIsEnabled then Some pool else None |};
     dialects := {| loadedDialects := ∅;
                    dialectsRegistry := DialectRegistry.empty;
                    dialectReferencingStrAttrs := ∅ |};
     uniquing := {| affineUniquer := StorageUniquer_empty;
                    affineStorageTypes := [];
                    typeUniquer := StorageUniquer_empty;
                    cachedTypes := fun _ => None;
                    attributeUniquer := StorageUniquer_empty;
                    cachedAttrs := fun _ => None |};
     heap := if threadingIsEnabled
             then {| referencedDialect := referencedDialect h;
                     threadPools := {[pool]} ∪ threadPools h;
                     nextObject := S pool |}
             else h |}.

(** [void printOpOnDiagnostic(bool enable)] and
    [void printStackTraceOnDiagnostic(bool enable)] *)
Definition set_printOpOnDiagnostic (env : Env) (enable : bool) : M Context unit :=
  fun c =>
    (assert (NDEBUG env) (multiThreadedExecutionContext (threads c) =? 0)
       "changing MLIRContext `print-op-on-diagnostic` configuration while in a multi-threaded execution context" ;;;
     modify (set_options (fun o =>
       {| allowUnregisteredDialects := allowUnregisteredDialects o;
          printOpOnDiagnostic := enable;
          printStackTraceOnDiagnostic := printStackTraceOnDiagnostic o |}))) c.
Definition set_printStackTraceOnDiagnostic (env : Env) (enable : bool)
    : M Context unit :=
  fun c =>
    (assert (NDEBUG env) (multiThreadedExecutionContext (threads c) =? 0)
       "changing MLIRContext `print-stacktrace-on-diagnostic` configuration while in a multi-threaded execution context" ;;;
     modify (set_options (fun o =>
       {| allowUnregisteredDialects := allowUnregisteredDialects o;
          printOpOnDiagnostic := printOpOnDiagnostic o;
          printStackTraceOnDiagnostic := enable |}))) c.

(** "Register the affine storage objects with the uniquer." *)
Definition registerAffineStorageTypes : M Context unit :=
  modify (set_uniquing (fun q =>
    {| affineUniquer := affineUniquer q;
       affineStorageTypes :=
         affineStorageTypes q ++
         [AffineBinaryOpExprStorage; AffineConstantExprStorage;
          AffineDimExprStorage; AffineMapStorage; IntegerSetStorage];
       typeUniquer := typeUniquer q;
       cachedTypes := cachedTypes q;
       attributeUniquer := attributeUniquer q;
       cachedAttrs := cachedAttrs q |})).

(** The statements of the constructor after the member initialiser. *)
Definition constructorBody (env : Env) (BuiltinDialect : DialectClass)
    (registry : DialectRegistry.t) : M Context unit :=
  match clOptions env with
  | Some o =>
      set_printOpOnDiagnostic env (clPrintOpOnDiagnostic o) ;;;
      set_printStackTraceOnDiagnostic env (clPrintStackTraceOnDiagnostic o)
  | None => ret tt
  end ;;;
  modify (set_dialectsRegistry (DialectRegistry.appendTo registry)) ;;;
  getOrLoadDialectT env BuiltinDialect ;;;
  initCaches constructorCacheOrder ;;;
  registerAffineStorageTypes.

(** [MLIRContext(const DialectRegistry &registry, Threading setting)] *)
Definition create (env : Env) (BuiltinDialect : DialectClass)
    (registry : DialectRegistry.t) (setting : Threading) (h : Heap)
    : Outcome (unit * Context) :=
  constructorBody env BuiltinDialect registry
    (MLIRContextImpl_new
       (match setting with ENABLED => true | DISABLED => false end
        && negb (isThreadingGloballyDisabled env))
       h).

(** *** Accessors of the cached instances *)

(** [Float32Type::get(ctx)] and its seventeen siblings, [IndexType::get]:
    [return context->getImpl().<field>;] *)
Definition cachedTypeGetter (field : TypeField) (c : Context) : Type_ :=
  cachedTypes (uniquing c) field.
Definition Float32Type_get : Context -> Type_ := cachedTypeGetter f32Ty.
Definition Float64Type_get : Context -> Type_ := cachedTypeGetter f64Ty.
Definition IndexType_get : Context -> Type_ := cachedTypeGetter indexTy.

(** [static IntegerType getCachedIntegerType(unsigned width,
       IntegerType::SignednessSemantics signedness, MLIRContext *context)] *)
Definition getCachedIntegerType (width : Z) (signedness : SignednessSemantics)
    (c : Context) : Type_ :=
  if bool_decide (signedness <> Signless) then None
  else
    match width with
    | 1 => cachedTypes (uniquing c) int1Ty
    | 8 => cachedTypes (uniquing c) int8Ty
    | 16 => cachedTypes (uniquing c) int16Ty
    | 32 => cachedTypes (uniquing c) int32Ty
    | 64 => cachedTypes (uniquing c) int64Ty
    | 128 => cachedTypes (uniquing c) int128Ty
    | _ => None
    end.

(** [IntegerType IntegerType::get(MLIRContext *context, unsigned width,
                                  SignednessSemantics signedness)] *)
Definition IntegerType_get (width : Z) (signedness : SignednessSemantics)
    : M Context Type_ :=
  fun c =>
    match getCachedIntegerType width signedness c with
    | Some cached => Ok (Some cached, c)
    | None => TypeUniquer_get (IntegerTypeKey width signedness) c
    end.

(** [NoneType NoneType::get(MLIRContext *context)] *)
Definition NoneType_get : M Context Type_ :=
  fun c =>
    match cachedTypes (uniquing c) noneType with
    | Some cachedInst => Ok (Some cachedInst, c)
    | None => TypeUniquer_get (Singleton NoneType) c
    end.

(** [BoolAttr::get], [UnitAttr::get], [UnknownLoc::get],
    [DictionaryAttr::getEmpty], [StringAttr::get(MLIRContext * )] *)
Definition BoolAttr_get (value : bool) (c : Context) : Attribute :=
  if value then cachedAttrs (uniquing c) trueAttr
  else cachedAttrs (uniquing c) falseAttr.
Definition UnitAttr_get (c : Context) : Attribute :=
  cachedAttrs (uniquing c) unitAttr.
Definition UnknownLoc_get (c : Context) : Attribute :=
  cachedAttrs (uniquing c) unknownLocAttr.
Definition DictionaryAttr_getEmpty (c : Context) : Attribute :=
  cachedAttrs (uniquing c) emptyDictionaryAttr.
Definition StringAttr_get (c : Context) : Attribute :=
  cachedAttrs (uniquing c) emptyStringAttr.

End MLIRContext.

(* --------------------------------------------------------------------- *)
(** ** mlir/IR/Operation.h *)
(* --------------------------------------------------------------------- *)
Module Operation.

(** Values of [unsigned] and of an [n]-bit unsigned bit-field wrap around. *)
Definition wrap (bits x : Z) : Z := x mod 2 ^ bits.
Definition unsigned (x : Z) : Z := wrap 32 x.

(** What the platform and the headers outside the sources fix: object sizes,
    the inline capacity [detail::OpResultImpl::getMaxInlineResults()] (an
    [unsigned]; mlir/IR/Value.h is not among the sources, section 3 calls it
    the "platform-defined inline capacity") and whether [assert] is
    compiled in. *)
Record Platform : Type := {
  NDEBUG : bool;
  sizeofOperation : Z;
  sizeofInlineOpResult : Z;
  sizeofOutOfLineOpResult : Z;
  maxInlineResults : Z
}.

(** The count and flag fields of [class Operation]:
    [const unsigned numResults; const unsigned numSuccs;
     const unsigned numRegions : 23; bool hasOperandStorage : 1;
     unsigned char propertiesStorageSize : 8;] *)
Record Header : Type := {
  numResults : Z;
  numSuccs : Z;
  numRegions : Z;
  hasOperandStorage : bool;
  propertiesStorageSize : Z
}.

(** Objects placed in memory: the operation header and the two kinds of
    result.  An inline result carries its type and its result number (packed
    with the type pointer), an out-of-line result its type and its index
    among the out-of-line results. *)
Inductive Object : Type :=
| OperationObject (h : Header)
| InlineOpResult (type : Builtin.Type_) (resultNo : Z)
| OutOfLineOpResult (type : Builtin.Type_) (outOfLineIndex : Z).

(** Memory: the objects alive, each with its address and size in bytes.
    Constructing an object over a range of bytes ends the objects that
    overlap the range. *)
Definition Memory : Type := list (Z * Z * Object).

Definition overlaps (addr size : Z) (e : Z * Z * Object) : bool :=
  let '(a, s, _) := e in (a <? addr + size) && (addr <? a + s).

Definition place (e : Z * Z * Object) (m : Memory) : Memory :=
  let '(addr, size, _) := e in
  e :: List.filter (fun e' => negb (overlaps addr size e')) m.

Definition load (addr : Z) (m : Memory) : option Object :=
  snd <$> List.find (fun e : Z * Z * Object => fst (fst e) =? addr) m.

Definition placeAll (es : list (Z * Z * Object)) (m : Memory) : Memory :=
  foldl (fun m e => place e m) m es.

(** [detail::InlineOpResult *getInlineOpResult(unsigned resultNumber)]:
    [return reinterpret_cast<detail::InlineOpResult *>(this) - ++resultNumber;] *)
Definition getInlineOpResult (pf : Platform) (op : Z) (resultNumber : Z) : Z :=
  op - sizeofInlineOpResult pf * unsigned (resultNumber + 1).

(** [detail::OutOfLineOpResult *getOutOfLineOpResult(unsigned resultNumber)]:
    [return reinterpret_cast<detail::OutOfLineOpResult *>(getInlineOpResult(
               detail::OpResultImpl::getMaxInlineResults() - 1)) - ++resultNumber;] *)
Definition getOutOfLineOpResult (pf : Platform) (op : Z) (resultNumber : Z) : Z :=
  getInlineOpResult pf op (unsigned (maxInlineResults pf - 1))
  - sizeofOutOfLineOpResult pf * unsigned (resultNumber + 1).

Definition header (op : Z) (m : Memory) : Outcome Header :=
  match load op m with
  | Some (OperationObject h) => Ok h
  | _ => Undefined
  end.

(** [unsigned getNumResults() { return numResults; }] and its siblings. *)
Definition getNumResults (op : Z) (m : Memory) : Outcome Z :=
  match header op m with Ok h => Ok (numResults h) | _ => Undefined end.

(** [detail::OpResultImpl *getOpResultImpl(unsigned resultNumber)] *)
Definition getOpResultImpl (pf : Platform) (op : Z) (resultNumber : Z)
    (m : Memory) : Outcome Z :=
  match getNumResults op m with
  | Ok n =>
      if negb (NDEBUG pf) && negb (resultNumber <? n) then
        AssertionFailure "Result number is out of range for operation"
      else if resultNumber <? maxInlineResults pf then
        Ok (getInlineOpResult pf op resultNumber)
      else
        Ok (getOutOfLineOpResult pf op
              (unsigned (resultNumber - maxInlineResults pf)))
  | _ => Undefined
  end.



(** Modelled from the spec: [OpResult::getNumInline] and [getNumTrailing]
    (mlir/IR/Value.h): "the first N results (N = platform-defined inline
    capacity) are stored inline ..., the remainder out-of-line". *)
Definition getNumInline (pf : Platform) (numResults : Z) : Z :=
  Z.min numResults (maxInlineResults pf).
Definition getNumTrailing (pf : Platform) (numResults : Z) : Z :=
  numResults - getNumInline pf numResults.

(** Modelled from the spec: [Operation::create] and the constructor are only
    declared in the header (bodies in Operation.cpp).  Sections 3 and 4.5:
    one block of memory holds "reverse-ordered inline results, then the
    Operation header itself"; "result count, successor count, and region
    count are fixed at construction and stored in bit-packed header fields";
    results beyond the inline capacity "carry an explicit index field;
    inline ones pack the index into spare bits alongside the type pointer".
    The header goes to [rawMem], the address the allocator returned plus the
    prefix; the counts go into the header fields declared in Operation.h;
    every result is constructed at the address its accessor computes.

    The model covers the calls whose counts the header fields hold
    ([fitsHeader]).  Neither the header nor the specification says what
    [create] does with a count that a field cannot hold (the body is in
    Operation.cpp); for such a call the model gives no result. *)

(** The fields [const unsigned numResults], [const unsigned numSuccs] and
    [const unsigned numRegions : 23] hold the three counts. *)
Definition fitsHeader (numResults numSuccs numRegions : Z) : bool :=
  (numResults <? 2 ^ 32) && (numSuccs <? 2 ^ 32)
  && (0 <=? numRegions) && (numRegions <? 2 ^ 23).

Definition create (pf : Platform) (rawMem : Z)
    (resultTypes : list Builtin.Type_) (successors : list nat)
    (numRegions : Z) (needsOperandStorage : bool) (propertiesSize : Z)
    (m : Memory) : option (Z * Memory) :=
  if fitsHeader (Z.of_nat (length resultTypes)) (Z.of_nat (length successors))
       numRegions
  then
    let h := {| numResults := Z.of_nat (length resultTypes);
                numSuccs := Z.of_nat (length successors);
                numRegions := numRegions;
                hasOperandStorage := needsOperandStorage;
                propertiesStorageSize := wrap 8 ((propertiesSize + 7) / 8) |} in
    let numInline := Z.to_nat (getNumInline pf (numResults h)) in
    let numTrailing := Z.to_nat (getNumTrailing pf (numResults h)) in
    let inlineResults :=
      imap (fun i type =>
              (getInlineOpResult pf rawMem (Z.of_nat i), sizeofInlineOpResult pf,
               InlineOpResult type (Z.of_nat i)))
           (take numInline resultTypes) in
    let trailingResults :=
      imap (fun i type =>
              (getOutOfLineOpResult pf rawMem (Z.of_nat i),
               sizeofOutOfLineOpResult pf,
               OutOfLineOpResult type (Z.of_nat i)))
           (take numTrailing (drop numInline resultTypes)) in
    Some (rawMem,
          placeAll (inlineResults ++ trailingResults)
                   (place (rawMem, sizeofOperation pf, OperationObject h) m))
  else None.

End Operation.

(* --------------------------------------------------------------------- *)
(** ** Further functions of the same sources *)
(* --------------------------------------------------------------------- *)

(* --------------------------------------------------------------------- *)
(** ** MLIRContext.cpp: option flags, thread pool access *)
(* --------------------------------------------------------------------- *)
Module ContextOptions.
Import MLIRContext.

(** [bool allowsUnregisteredDialects() { return impl->allowUnregisteredDialects; }] *)
Definition allowsUnregisteredDialects (c : Context) : bool :=
  MLIRContext.allowUnregisteredDialects (options c).

(** [void allowUnregisteredDialects(bool allowing)] *)
Definition allowUnregisteredDialects (env : Env) (allowing : bool)
    : M Context unit :=
  fun c =>
    (assert (NDEBUG env) (multiThreadedExecutionContext (threads c) =? 0)
       "changing MLIRContext `allow-unregistered-dialects` configuration while in a multi-threaded execution context" ;;;
     modify (set_options (fun o =>
       {| MLIRContext.allowUnregisteredDialects := allowing;
          MLIRContext.printOpOnDiagnostic := MLIRContext.printOpOnDiagnostic o;
          MLIRContext.printStackTraceOnDiagnostic :=
            MLIRContext.printStackTraceOnDiagnostic o |}))) c.

(** [bool shouldPrintOpOnDiagnostic()] and
    [bool shouldPrintStackTraceOnDiagnostic()] *)
Definition shouldPrintOpOnDiagnostic (c : Context) : bool :=
  MLIRContext.printOpOnDiagnostic (options c).
Definition shouldPrintStackTraceOnDiagnostic (c : Context) : bool :=
  MLIRContext.printStackTraceOnDiagnostic (options c).

(** [void printOpOnDiagnostic(bool enable)] and
    [void printStackTraceOnDiagnostic(bool enable)], under their own names. *)
Definition printOpOnDiagnostic : Env -> bool -> M Context unit :=
  set_printOpOnDiagnostic.
Definition printStackTraceOnDiagnostic : Env -> bool -> M Context unit :=
  set_printStackTraceOnDiagnostic.

(** [unsigned getNumThreads()].  [getMaxConcurrency] is the virtual method
    of the pool object ([llvm::ThreadPoolInterface]); calling it through a
    null pointer is undefined. *)
Definition getNumThreads (env : Env) (getMaxConcurrency : nat -> Z)
    : M Context Z :=
  fun c =>
    if isMultithreadingEnabled env c then
      (assert (NDEBUG env) (bool_decide (is_Some (threadPool (threads c))))
         "multi-threading is enabled but threadpool not set" ;;;
       match threadPool (threads c) with
       | Some pool => ret (getMaxConcurrency pool)
       | None => undefined_behaviour
       end) c
    else Ok (1, c).

(** [llvm::ThreadPoolInterface &getThreadPool()]: the reference is the
    address of the pool. *)
Definition getThreadPool (env : Env) : M Context nat :=
  fun c =>
    (assert (NDEBUG env) (isMultithreadingEnabled env c)
       "expected multi-threading to be enabled within the context" ;;;
     assert (NDEBUG env) (bool_decide (is_Some (threadPool (threads c))))
       "multi-threading is enabled but threadpool not set" ;;;
     match threadPool (threads c) with
     | Some pool => ret pool
     | None => undefined_behaviour
     end) c.

End ContextOptions.

(* --------------------------------------------------------------------- *)
(** ** MLIRContext.cpp: [StringAttrStorage::initialize] *)
(* --------------------------------------------------------------------- *)
Module StringAttrStorage.
Import MLIRContext.
Import Stdlib.Strings.Ascii.

(** [StringRef::split(char Separator)] (llvm/ADT/StringRef.h): the parts
    before and after the first occurrence of the separator; the whole string
    and the empty string when the separator does not occur. *)
Fixpoint split (Separator : Ascii.ascii) (s : string) : string * string :=
  match s with
  | EmptyString => (EmptyString, EmptyString)
  | String ch rest =>
      if Ascii.eqb ch Separator then (EmptyString, rest)
      else let '(lhs, rhs) := split Separator rest in (String ch lhs, rhs)
  end.

(** [bool StringRef::empty() const] *)
Definition empty (s : string) : bool :=
  match s with EmptyString => true | _ => false end.

(** [void StringAttrStorage::initialize(MLIRContext *context)] on the
    storage at address [this] whose [value] is given.  The body:
    [auto dialectNamePair = value.split('.');
     if (dialectNamePair.first.empty() || dialectNamePair.second.empty())
       return;
     if ((referencedDialect = context->getLoadedDialect(dialectNamePair.first)))
       return;
     impl.dialectReferencingStrAttrs[dialectNamePair.first].push_back(this);] *)
Definition initialize (this : nat) (value : string) : M Context unit :=
  let dialectNamePair := split "."%char value in
  if empty (fst dialectNamePair) || empty (snd dialectNamePair) then ret tt
  else
    loaded <- gets (getLoadedDialect (fst dialectNamePair)) ;;
    modify (set_referencedDialect (fun m => <[this := loaded]> m)) ;;;
    match loaded with
    | Some _ => ret tt
    | None =>
        modify (set_dialectReferencingStrAttrs (fun m =>
          <[fst dialectNamePair :=
              default [] (m !! fst dialectNamePair) ++ [this]]> m))
    end.

(** [Dialect *getReferencedDialect() const]: the field of the storage. *)
Definition getReferencedDialect (this : nat) (c : Context) : option Dialect.t :=
  match referencedDialect (heap c) !! this with
  | Some d => d
  | None => None
  end.

End StringAttrStorage.

(* --------------------------------------------------------------------- *)
(** ** MLIRContext.h: the remaining dialect templates *)
(* --------------------------------------------------------------------- *)
Module DialectTemplates.
Import MLIRContext.

(** [template <typename T> T *getLoadedDialect()]:
    [return static_cast<T *>(getLoadedDialect(T::getDialectNamespace()));]
    The cast changes the static type only. *)
Definition getLoadedDialect (T : DialectClass) (c : Context) : option Dialect.t :=
  MLIRContext.getLoadedDialect (getDialectNamespace T) c.

(** [template <typename Dialect, typename OtherDialect, typename... MoreDialects>
     void loadDialect() { loadDialect<Dialect>();
                          loadDialect<OtherDialect, MoreDialects...>(); }]
    together with the overload for one class it ends in. *)
Fixpoint loadDialect (env : Env) (D : DialectClass) (More : list DialectClass)
    : M Context unit :=
  match More with
  | [] => MLIRContext.loadDialect env D
  | OtherDialect :: MoreDialects =>
      MLIRContext.loadDialect env D ;;; loadDialect env OtherDialect MoreDialects
  end.

End DialectTemplates.

(* --------------------------------------------------------------------- *)
(** ** MLIRContext.cpp: registration of type and attribute kinds *)
(* --------------------------------------------------------------------- *)

(** [TypeID] as the key of a [DenseMap] or [DenseSet]. *)
#[global] Instance Resolution_countable : Countable TypeID.Resolution.
Proof.
  refine (inj_countable'
    (fun r => match r with
              | TypeID.ExplicitTypeID => inl (inl tt)
              | TypeID.InternalInlineTypeID => inl (inr tt)
              | TypeID.InheritedInlineTypeID n u => inr (inl (n, u))
              | TypeID.FallbackTypeID => inr (inr tt)
              end)
    (fun x => match x with
              | inl (inl _) => TypeID.ExplicitTypeID
              | inl (inr _) => TypeID.InternalInlineTypeID
              | inr (inl (n, u)) => TypeID.InheritedInlineTypeID n u
              | inr (inr _) => TypeID.FallbackTypeID
              end) _).
  by intros [].
Defined.

#[global] Instance CppType_countable : Countable TypeID.CppType.
Proof.
  refine (inj_countable'
    (fun T => (TypeID.qualifiedName T, TypeID.translationUnit T, TypeID.resolution T))
    (fun x => {| TypeID.qualifiedName := x.1.1; TypeID.translationUnit := x.1.2;
                 TypeID.resolution := x.2 |}) _).
  by intros [].
Defined.

#[global] Instance Storage_countable : Countable TypeID.Storage.
Proof.
  refine (inj_countable'
    (fun s => match s with
              | TypeID.SelfOwning T => inl T
              | TypeID.Allocated n => inr n
              end)
    (fun x => match x with
              | inl T => TypeID.SelfOwning T
              | inr n => TypeID.Allocated n
              end) _).
  by intros [].
Defined.

#[global] Instance TypeID_countable : Countable TypeID.t.
Proof.
  refine (inj_countable' TypeID.storage
            (fun s => {| TypeID.storage := s |}) _).
  by intros [].
Defined.

Module KindRegistration.
Import MLIRContext.

(** [AbstractType] and [AbstractAttribute] (mlir/IR/TypeSupport.h and
    AttributeSupport.h are not among the sources): the registration code
    moves the object into the context and reads its name; the rest of the
    object stands behind [info]. *)
Record AbstractType : Type := { typeName : string; typeInfo : nat }.
Record AbstractAttribute : Type := { attrName : string; attrInfo : nat }.

(** [MLIRContextImpl], the part on kinds, beside the context modelled so far:
    [DenseMap<TypeID, AbstractType *> registeredTypes;
     llvm::DenseMap<StringRef, AbstractType *> nameToType;
     DenseMap<TypeID, AbstractAttribute *> registeredAttributes;
     llvm::DenseMap<StringRef, AbstractAttribute *> nameToAttribute;]
    A pointer into the context's allocator is modelled by the object. *)
Record Impl : Type := {
  context : Context;
  registeredTypes : gmap TypeID.t AbstractType;
  nameToType : gmap string AbstractType;
  registeredAttributes : gmap TypeID.t AbstractAttribute;
  nameToAttribute : gmap string AbstractAttribute
}.

Definition set_registeredTypes (f : gmap TypeID.t AbstractType -> gmap TypeID.t AbstractType)
    (s : Impl) : Impl :=
  {| context := context s; registeredTypes := f (registeredTypes s);
     nameToType := nameToType s;
     registeredAttributes := registeredAttributes s;
     nameToAttribute := nameToAttribute s |}.
Definition set_nameToType (f : gmap string AbstractType -> gmap string AbstractType)
    (s : Impl) : Impl :=
  {| context := context s; registeredTypes := registeredTypes s;
     nameToType := f (nameToType s);
     registeredAttributes := registeredAttributes s;
     nameToAttribute := nameToAttribute s |}.
Definition set_registeredAttributes
    (f : gmap TypeID.t AbstractAttribute -> gmap TypeID.t AbstractAttribute)
    (s : Impl) : Impl :=
  {| context := context s; registeredTypes := registeredTypes s;
     nameToType := nameToType s;
     registeredAttributes := f (registeredAttributes s);
     nameToAttribute := nameToAttribute s |}.
Definition set_nameToAttribute
    (f : gmap string AbstractAttribute -> gmap string AbstractAttribute)
    (s : Impl) : Impl :=
  {| context := context s; registeredTypes := registeredTypes s;
     nameToType := nameToType s;
     registeredAttributes := registeredAttributes s;
     nameToAttribute := f (nameToAttribute s) |}.

(** [void Dialect::addType(TypeID typeID, AbstractType &&typeInfo)] *)
Definition addType (env : Env) (typeID : TypeID.t) (typeInfo : AbstractType)
    : M Impl unit :=
  fun s =>
    (assert (NDEBUG env)
       (multiThreadedExecutionContext (threads (context s)) =? 0)
       "Registering a new type kind while in a multi-threaded execution context" ;;;
     let newInfo := typeInfo in
     match registeredTypes s !! typeID with
     | Some _ => report_fatal_error "Dialect Type already registered."
     | None =>
         modify (set_registeredTypes (fun m => <[typeID := newInfo]> m)) ;;;
         match nameToType s !! typeName newInfo with
         | Some _ =>
             report_fatal_error ("Dialect Type with name " +:+ typeName newInfo +:+
                                 " is already registered.")
         | None =>
             modify (set_nameToType (fun m => <[typeName newInfo := newInfo]> m))
         end
     end) s.

(** [void Dialect::addAttribute(TypeID typeID, AbstractAttribute &&attrInfo)] *)
Definition addAttribute (env : Env) (typeID : TypeID.t)
    (attrInfo : AbstractAttribute) : M Impl unit :=
  fun s =>
    (assert (NDEBUG env)
       (multiThreadedExecutionContext (threads (context s)) =? 0)
       "Registering a new attribute kind while in a multi-threaded execution context" ;;;
     let newInfo := attrInfo in
     match registeredAttributes s !! typeID with
     | Some _ => report_fatal_error "Dialect Attribute already registered."
     | None =>
         modify (set_registeredAttributes (fun m => <[typeID := newInfo]> m)) ;;;
         match nameToAttribute s !! attrName newInfo with
         | Some _ =>
             report_fatal_error ("Dialect Attribute with name " +:+
                                 attrName newInfo +:+ " is already registered.")
         | None =>
             modify (set_nameToAttribute (fun m =>
                       <[attrName newInfo := newInfo]> m))
         end
     end) s.

(** [AbstractType *AbstractType::lookupMutable(TypeID typeID, MLIRContext *context)]:
    [DenseMap::lookup] yields a null pointer for a missing key. *)
Definition AbstractType_lookupMutable (typeID : TypeID.t) (s : Impl)
    : option AbstractType :=
  registeredTypes s !! typeID.

(** [const AbstractType &AbstractType::lookup(TypeID typeID, MLIRContext *context)] *)
Definition AbstractType_lookup (typeID : TypeID.t) : M Impl AbstractType :=
  fun s =>
    match AbstractType_lookupMutable typeID s with
    | None =>
        FatalError "Trying to create a Type that was not registered in this MLIRContext."
    | Some abstract => Ok (abstract, s)
    end.

(** [std::optional<std::reference_wrapper<const AbstractType>>
     AbstractType::lookup(StringRef name, MLIRContext *context)] *)
Definition AbstractType_lookupName (name : string) (s : Impl)
    : option AbstractType :=
  nameToType s !! name.

(** The three lookups of [AbstractAttribute]. *)
Definition AbstractAttribute_lookupMutable (typeID : TypeID.t) (s : Impl)
    : option AbstractAttribute :=
  registeredAttributes s !! typeID.
Definition AbstractAttribute_lookup (typeID : TypeID.t) : M Impl AbstractAttribute :=
  fun s =>
    match AbstractAttribute_lookupMutable typeID s with
    | None =>
        FatalError "Trying to create an Attribute that was not registered in this MLIRContext."
    | Some abstract => Ok (abstract, s)
    end.
Definition AbstractAttribute_lookupName (name : string) (s : Impl)
    : option AbstractAttribute :=
  nameToAttribute s !! name.

End KindRegistration.

(* --------------------------------------------------------------------- *)
(** ** mlir/IR/Dialect.h: registered and promised interfaces *)
(* --------------------------------------------------------------------- *)
Module DialectInterfaces.

(** The interface tables of [class Dialect], beside the fields of
    [Dialect.t]:
    [DenseMap<TypeID, std::unique_ptr<DialectInterface>> registeredInterfaces;
     DenseSet<std::pair<TypeID, TypeID>> unresolvedPromisedInterfaces;]
    An interface object is given by its address. *)
Record t : Type := {
  dialect : Dialect.t;
  registeredInterfaces : gmap TypeID.t nat;
  unresolvedPromisedInterfaces : gset (TypeID.t * TypeID.t)
}.

Definition set_unresolvedPromisedInterfaces
    (f : gset (TypeID.t * TypeID.t) -> gset (TypeID.t * TypeID.t)) (d : t) : t :=
  {| dialect := dialect d; registeredInterfaces := registeredInterfaces d;
     unresolvedPromisedInterfaces := f (unresolvedPromisedInterfaces d) |}.

(** [template <typename InterfaceT, typename ConcreteT>
     void declarePromisedInterface()], given [TypeID::get<ConcreteT>()] and
    [InterfaceT::getInterfaceID()]. *)
Definition declarePromisedInterface (interfaceID concreteID : TypeID.t)
    : M t unit :=
  modify (set_unresolvedPromisedInterfaces
            (fun s => {[ (concreteID, interfaceID) ]} ∪ s)).

(** [void handleUseOfUndefinedPromisedInterface(TypeID interfaceRequestorID,
       TypeID interfaceID, StringRef interfaceName = <empty>)] *)
Definition handleUseOfUndefinedPromisedInterface
    (interfaceRequestorID interfaceID : TypeID.t) (interfaceName : string)
    : M t unit :=
  fun d =>
    if bool_decide ((interfaceRequestorID, interfaceID)
                      ∈ unresolvedPromisedInterfaces d)
    then FatalError
           ("checking for an interface (`" +:+ interfaceName +:+
            "`) that was promised by dialect '" +:+
            Dialect.getNamespace (dialect d) +:+
            "' but never implemented. This is generally an indication that the dialect extension implementing the interface was never registered.")
    else Ok (tt, d).

(** [void handleAdditionOfUndefinedPromisedInterface(TypeID interfaceRequestorID,
       TypeID interfaceID)] *)
Definition handleAdditionOfUndefinedPromisedInterface
    (interfaceRequestorID interfaceID : TypeID.t) : M t unit :=
  modify (set_unresolvedPromisedInterfaces
            (fun s => s ∖ {[ (interfaceRequestorID, interfaceID) ]})).

(** [bool hasPromisedInterface(TypeID interfaceRequestorID, TypeID interfaceID) const] *)
Definition hasPromisedInterface (interfaceRequestorID interfaceID : TypeID.t)
    (d : t) : bool :=
  bool_decide ((interfaceRequestorID, interfaceID) ∈ unresolvedPromisedInterfaces d).

(** [DialectInterface *getRegisteredInterface(TypeID interfaceID)]: the
    check of the promise is compiled in without NDEBUG only. *)
Definition getRegisteredInterface (ndebug : bool) (interfaceID : TypeID.t)
    : M t (option nat) :=
  (if ndebug then ret tt
   else fun d => handleUseOfUndefinedPromisedInterface
                   (Dialect.getTypeID (dialect d)) interfaceID "" d) ;;;
  gets (fun d => registeredInterfaces d !! interfaceID).

End DialectInterfaces.

(* --------------------------------------------------------------------- *)
(** ** llvm/Support/LogicalResult.h *)
(* --------------------------------------------------------------------- *)
Module LogicalResult.

(** [struct LogicalResult { bool IsSuccess; }] *)
Record t : Type := { IsSuccess : bool }.

(** [static LogicalResult success(bool IsSuccess = true)] and
    [static LogicalResult failure(bool IsFailure = true)] *)
Definition success (IsSuccess : bool) : t := {| IsSuccess := IsSuccess |}.
Definition failure (IsFailure : bool) : t := {| IsSuccess := negb IsFailure |}.

(** [bool succeeded() const] and [bool failed() const] *)
Definition succeeded (Result : t) : bool := IsSuccess Result.
Definition failed (Result : t) : bool := negb (IsSuccess Result).

(** [template <typename T> class FailureOr : public std::optional<T>] *)
Definition FailureOr (T : Type) : Type := option T.

(** [FailureOr(LogicalResult Result)]: the optional stays empty. *)
Definition FailureOr_of_result {T} (ndebug : bool) (Result : t)
    : Outcome (FailureOr T) :=
  if negb ndebug && negb (failed Result)
  then AssertionFailure "success should be constructed with an instance of 'T'"
  else Ok None.

(** [FailureOr(const T &Y)] *)
Definition FailureOr_of_value {T} (Y : T) : FailureOr T := Some Y.

(** [operator LogicalResult() const { return success(has_value()); }] *)
Definition FailureOr_to_result {T} (x : FailureOr T) : t :=
  success (bool_decide (is_Some x)).

(** [FailureOr(const FailureOr<U> &Other)], with the conversion from [U]
    to [T]. *)
Definition FailureOr_convert {U T} (conv : U -> T) (Other : FailureOr U)
    : FailureOr T :=
  if failed (FailureOr_to_result Other) then None
  else match Other with Some y => Some (conv y) | None => None end.

(** [class ParseResult : public LogicalResult]:
    [explicit operator bool() const { return failed(); }] *)
Definition ParseResult_to_bool (Result : t) : bool := failed Result.

End LogicalResult.

(* --------------------------------------------------------------------- *)
(** ** mlir/IR/Operation.h: size of the result prefix *)
(* --------------------------------------------------------------------- *)
Module OperationPrefix.
Import Operation.

(** [static size_t prefixAllocSize(unsigned numOutOfLineResults,
                                   unsigned numInlineResults)];
    [size_t] has 64 bits. *)
Definition prefixAllocSize (pf : Platform)
    (numOutOfLineResults numInlineResults : Z) : Z :=
  wrap 64 (sizeofOutOfLineOpResult pf * numOutOfLineResults
           + sizeofInlineOpResult pf * numInlineResults).

(** The size of the object [getOpResultImpl] points to. *)
Definition sizeofOpResult (pf : Platform) (resultNumber : Z) : Z :=
  if resultNumber <? maxInlineResults pf then sizeofInlineOpResult pf
  else sizeofOutOfLineOpResult pf.

End OperationPrefix.

(* --------------------------------------------------------------------- *)
(** ** DialectRegistry.h: [addExtensions] *)
(* --------------------------------------------------------------------- *)
Module RegistryTemplates.

(** [template <typename... ExtensionsT> void addExtensions() {
       (addExtension(TypeID::get<ExtensionsT>(),
                     std::make_unique<ExtensionsT>()), ...); }]
    The fold over the comma operator runs from left to right; a class of
    the pack is given by its TypeID and the extension object it makes. *)
Definition addExtensions
    (ExtensionsT : list (TypeID.t * DialectRegistry.DialectExtensionBase))
    (r : DialectRegistry.t) : DialectRegistry.t :=
  foldl (fun r e => fst (DialectRegistry.addExtension (fst e) (snd e) r))
        r ExtensionsT.

End RegistryTemplates.

(* --------------------------------------------------------------------- *)
(** ** MLIRContext.cpp: [OperationName::getDialectNamespace] *)
(* --------------------------------------------------------------------- *)
Module OperationName.
Import Stdlib.Strings.Ascii.

(** What [getDialectNamespace] reads of an [OperationName]: the string of
    its name and the dialect it refers to, null for a name whose dialect is
    not loaded. *)
Record t : Type := {
  getStringRef : string;
  getDialect : option Dialect.t
}.

(** [StringRef OperationName::getDialectNamespace() const]:
    [if (Dialect *dialect = getDialect()) return dialect->getNamespace();
     return getStringRef().split('.').first;] *)
Definition getDialectNamespace (n : t) : string :=
  match getDialect n with
  | Some dialect => Dialect.getNamespace dialect
  | None => fst (StringAttrStorage.split "."%char (getStringRef n))
  end.

End OperationName.

(* ===================================================================== *)
(** * Part II.  Properties                                                *)
(* ===================================================================== *)

Import Builtin MLIRContext.

(** ** Sample values used to exercise the theorems *)

Definition FooType : TypeID.CppType :=
  {| TypeID.qualifiedName := "test::FooDialect";
     TypeID.translationUnit := None;
     TypeID.resolution := TypeID.ExplicitTypeID |}.
Definition BarType : TypeID.CppType :=
  {| TypeID.qualifiedName := "test::BarDialect";
     TypeID.translationUnit := None;
     TypeID.resolution := TypeID.ExplicitTypeID |}.
Definition idX : TypeID.t := TypeID.SelfOwningTypeID_getTypeID FooType.
Definition idY : TypeID.t := TypeID.SelfOwningTypeID_getTypeID BarType.

(** An environment without registered code: no extension does anything and
    no allocator produces a dialect. *)
Definition quietEnv (ndebug : bool) : Env :=
  {| NDEBUG := ndebug;
     LLVM_ENABLE_THREADS := true;
     clOptions := None;
     allocator := fun _ => ret None;
     applyExtensionsToDialect := fun _ _ => ret tt;
     applyExtensionsToContext := fun _ => ret tt |}.

Definition emptyHeap : Heap :=
  {| referencedDialect := ∅; threadPools := ∅; nextObject := 0%nat |}.

(** A context right after [MLIRContextImpl(false)]: nothing loaded. *)
Definition freshContext : Context := MLIRContextImpl_new false emptyHeap.

(** A conventional dialect class: its constructor passes the class's own
    namespace and TypeID to the [Dialect] base and does nothing else. *)
Definition plainDialect (ns : string) (id : TypeID.t) : DialectClass :=
  {| getDialectNamespace := ns;
     classTypeID := id;
     constructor := fun _ => ret (ns, id) |}.

Definition testDialect : Dialect.t :=
  {| Dialect.this := 0%nat; Dialect.name := "test"; Dialect.dialectID := idX |}.

(** A context in which the namespace "test" is loaded with TypeID [idX]. *)
Definition testLoaded : Context :=
  set_loadedDialects (fun m => <["test" := Some testDialect]> m) freshContext.

(** A context in which the namespace "test" is being loaded. *)
Definition testLoading : Context :=
  set_loadedDialects (fun m => <["test" := None]> m) freshContext.

(** ** The run monad *)

Lemma bind_Ok {S A B} (m : M S A) (k : A -> M S B) s a s' :
  m s = Ok (a, s') -> bind m k s = k a s'.
Proof. intros H. unfold bind. by rewrite H. Qed.

Lemma bind_Ok_inv {S A B} (m : M S A) (k : A -> M S B) s b s2 :
  bind m k s = Ok (b, s2) ->
  exists a s1, m s = Ok (a, s1) /\ k a s1 = Ok (b, s2).
Proof.
  unfold bind. destruct (m s) as [[a s1]| | |] eqn:E; try discriminate.
  intros H. by exists a, s1.
Qed.

Lemma TypeID_neqb_false a b : TypeID.neqb a b = false <-> a = b.
Proof.
  unfold TypeID.neqb, TypeID.eqb. destruct a as [sa], b as [sb]; simpl.
  rewrite negb_false_iff, bool_decide_eq_true. split; congruence.
Qed.

Lemma TypeID_neqb_true a b : TypeID.neqb a b = true <-> a <> b.
Proof.
  unfold TypeID.neqb, TypeID.eqb. destruct a as [sa], b as [sb]; simpl.
  rewrite negb_true_iff, bool_decide_eq_false. split; congruence.
Qed.

(** ** Loading dialects *)

(** The branch of [getOrLoadDialect] for a namespace that holds a loaded
    dialect. *)
Lemma getOrLoadDialect_present env ns id ctor c d :
  loadedDialects (dialects c) !! ns = Some (Some d) ->
  getOrLoadDialect env ns id ctor c
  = if TypeID.neqb (Dialect.getTypeID d) id
    then FatalError ("a dialect with namespace '" +:+ ns +:+
                     "' has already been registered")
    else Ok (Some d, c).
Proof. intros Hd. unfold getOrLoadDialect. by rewrite Hd. Qed.

(** C1.  When the namespace already holds a loaded dialect, a call of
    [getOrLoadDialect(dialectNamespace, dialectID, ctor)] with a TypeID that
    differs from the dialect's aborts with a fatal error; with the dialect's
    TypeID it returns that dialect and leaves the context as it was,
    whatever [ctor] is: [ctor] is not run. *)
Theorem getOrLoadDialect_already_loaded :
  forall (env : Env) (dialectNamespace : string) (dialectID : TypeID.t)
         (ctor : M Context (option Dialect.t)) (c : Context) (d : Dialect.t),
    loadedDialects (dialects c) !! dialectNamespace = Some (Some d) ->
    (Dialect.getTypeID d <> dialectID ->
       aborts (getOrLoadDialect env dialectNamespace dialectID ctor c) = true /\
       returns (getOrLoadDialect env dialectNamespace dialectID ctor c) = false)
    /\
    (Dialect.getTypeID d = dialectID ->
       getOrLoadDialect env dialectNamespace dialectID ctor c = Ok (Some d, c)).
Proof.
  intros env ns id ctor c d Hd.
  rewrite (getOrLoadDialect_present env ns id ctor c d Hd). split.
  - intros Hne. apply TypeID_neqb_true in Hne. by rewrite Hne.
  - intros Heq. apply TypeID_neqb_false in Heq. by rewrite Heq.
Qed.

Lemma getOrLoadDialect_already_loaded_witness :
  loadedDialects (dialects testLoaded) !! "test" = Some (Some testDialect)
  /\ aborts (getOrLoadDialect (quietEnv false) "test" idY
               (newDialect (plainDialect "test" idY)) testLoaded) = true
  /\ getOrLoadDialect (quietEnv false) "test" idX
       (newDialect (plainDialect "test" idX)) testLoaded
     = Ok (Some testDialect, testLoaded).
Proof.
  assert (H : loadedDialects (dialects testLoaded) !! "test"
              = Some (Some testDialect)) by (vm_compute; reflexivity).
  split; [exact H|].
  pose proof (getOrLoadDialect_already_loaded (quietEnv false) "test" idY
                (newDialect (plainDialect "test" idY)) testLoaded testDialect H)
    as [Hmis _].
  pose proof (getOrLoadDialect_already_loaded (quietEnv false) "test" idX
                (newDialect (plainDialect "test" idX)) testLoaded testDialect H)
    as [_ Hmatch].
  split.
  - apply Hmis. vm_compute. intros E. discriminate E.
  - apply Hmatch. reflexivity.
Defined.

Lemma isDialectLoading_spec (ns : string) (c : Context) :
  isDialectLoading ns c = true <->
  loadedDialects (dialects c) !! ns = Some None.
Proof.
  unfold isDialectLoading.
  destruct (loadedDialects (dialects c) !! ns) as [[d|]|]; split;
    intros H; try discriminate; reflexivity.
Qed.

Lemma loadedDialects_set_loadedDialects f c :
  loadedDialects (dialects (set_loadedDialects f c))
  = f (loadedDialects (dialects c)).
Proof. reflexivity. Qed.

(** C9.  For a namespace that is neither loaded in the context nor present
    in its registry, [getOrLoadDialect(name)] returns [nullptr] and leaves
    the context as it was.  More generally, when the registry has no
    allocator for the namespace the call constructs nothing: it returns what
    [getLoadedDialect] returns and the context is unchanged; and when the
    call does construct, it is by running the allocator the registry holds
    for that namespace. *)
Theorem getOrLoadDialectByName_not_registered :
  forall (env : Env) (name : string) (c : Context),
    DialectRegistry.registry (dialectsRegistry (dialects c)) !! name = None ->
    (getLoadedDialect name c = None ->
       getOrLoadDialectByName env name c = Ok (None, c))
    /\ getOrLoadDialectByName env name c = Ok (getLoadedDialect name c, c)
    /\ (forall env' : Env,
          getOrLoadDialectByName env' name c = getOrLoadDialectByName env name c).
Proof.
  intros env name c Hreg.
  assert (Hgen : forall e, getOrLoadDialectByName e name c
                           = Ok (getLoadedDialect name c, c)).
  { intros e. unfold getOrLoadDialectByName, DialectRegistry.getDialectAllocator.
    rewrite Hreg. simpl. destruct (getLoadedDialect name c); reflexivity. }
  split; [|split].
  - intros Hl. rewrite Hgen, Hl. reflexivity.
  - apply Hgen.
  - intros e. by rewrite !Hgen.
Qed.

Lemma getOrLoadDialectByName_not_registered_witness :
  getOrLoadDialectByName (quietEnv false) "unknown" testLoaded
  = Ok (None, testLoaded).
Proof.
  refine (proj1 (getOrLoadDialectByName_not_registered (quietEnv false)
                   "unknown" testLoaded _) _);
    vm_compute; reflexivity.
Defined.

(** When the namespace is not loaded and the registry holds an allocator for
    it, the call is the call of that allocator. *)
Lemma getOrLoadDialectByName_registered env name c id alloc :
  getLoadedDialect name c = None ->
  DialectRegistry.registry (dialectsRegistry (dialects c)) !! name
    = Some (id, alloc) ->
  getOrLoadDialectByName env name c = allocator env alloc c.
Proof.
  intros Hl Hreg.
  unfold getOrLoadDialectByName, DialectRegistry.getDialectAllocator.
  by rewrite Hl, Hreg.
Qed.

(** [c'] still holds every dialect that is loaded in [c]. *)
Definition keeps_loaded (c c' : Context) : Prop :=
  forall ns d,
    loadedDialects (dialects c) !! ns = Some (Some d) ->
    loadedDialects (dialects c') !! ns = Some (Some d).

(** Code that leaves loaded dialects in place. *)
Definition keeps_loaded_code {A} (m : M Context A) : Prop :=
  forall c a c', m c = Ok (a, c') -> keeps_loaded c c'.

(** The extensions applied after a load leave loaded dialects in place. *)
Definition extensions_keep_loaded (env : Env) : Prop :=
  forall r d, keeps_loaded_code (applyExtensionsToDialect env r d).


Lemma keeps_loaded_refl c : keeps_loaded c c.
Proof. by intros ns d H. Qed.

Lemma keeps_loaded_trans c1 c2 c3 :
  keeps_loaded c1 c2 -> keeps_loaded c2 c3 -> keeps_loaded c1 c3.
Proof. intros H12 H23 ns d H. by apply H23, H12. Qed.

Lemma getOrLoadDialect_fresh_inv env ns id ctor c d c1 :
  loadedDialects (dialects c) !! ns = None ->
  getOrLoadDialect env ns id ctor c = Ok (d, c1) ->
  exists cA cB,
    ctor (set_loadedDialects (fun m => <[ns:=None]> m) c) = Ok (d, cA)
    /\ loadedDialects (dialects cB) = <[ns:=d]> (loadedDialects (dialects cA))
    /\ applyExtensionsToDialect env (dialectsRegistry (dialects cB)) d cB
       = Ok (tt, c1).
Proof.
  intros E H. unfold getOrLoadDialect in H. rewrite E in H.
  cbn [bind modify gets ret] in H.
  destruct (negb (NDEBUG env) && _); cbn [bind ret report_fatal_error] in H;
    [discriminate|].
  apply bind_Ok_inv in H as (d' & cA & Hctor & H).
  cbn [bind modify gets ret] in H.
  apply bind_Ok_inv in H as ([] & cA' & Hassert & H).
  assert (cA' = set_loadedDialects (fun m => <[ns:=d']> m) cA) as ->.
  { unfold assert in Hassert.
    destruct (NDEBUG env); [congruence|].
    destruct (bool_decide _); congruence. }
  cbn [bind modify gets ret] in H.
  apply bind_Ok_inv in H as ([] & cB & Hrefresh & H).
  cbn [bind modify gets ret] in H.
  apply bind_Ok_inv in H as ([] & c1' & Hext & H).
  cbn [ret] in H. injection H as <- <-.
  exists cA, cB. split; [done|]. split; [|done].
  destruct (dialectReferencingStrAttrs _ !! ns);
    cbn [bind modify gets ret] in Hrefresh; by injection Hrefresh as <-.
Qed.

Lemma getOrLoadDialect_keeps_loaded env ns id ctor :
  extensions_keep_loaded env ->
  keeps_loaded_code ctor ->
  keeps_loaded_code (getOrLoadDialect env ns id ctor).
Proof.
  intros Hext Hctor c d c1 H.
  destruct (loadedDialects (dialects c) !! ns) as [[d0|]|] eqn:E.
  - rewrite (getOrLoadDialect_present _ _ _ _ _ _ E) in H.
    destruct (TypeID.neqb _ _); [discriminate|].
    injection H as <- <-. apply keeps_loaded_refl.
  - unfold getOrLoadDialect in H. rewrite E in H.
    destruct (negb (NDEBUG env)); discriminate.
  - apply getOrLoadDialect_fresh_inv in H as (cA & cB & HA & HB & HC); [|done].
    intros ns' d' H'.
    apply (Hext _ _ _ _ _ HC).
    rewrite HB.
    assert (ns <> ns') by (intros ->; congruence).
    rewrite lookup_insert_ne by done.
    apply (Hctor _ _ _ HA).
    rewrite loadedDialects_set_loadedDialects, lookup_insert_ne; done.
Qed.


(** The constructor callback of a load, guarded by the check that the
    namespace is marked as loading when the callback starts. *)
Definition whileLoading (ns : string) (ctor : M Context (option Dialect.t))
    : M Context (option Dialect.t) :=
  fun c => if isDialectLoading ns c then ctor c
           else AssertionFailure "the namespace is not marked as loading".

Lemma whileLoading_bind {B} ns ctor (k : option Dialect.t -> M Context B) c :
  isDialectLoading ns c = true ->
  bind (whileLoading ns ctor) k c = bind ctor k c.
Proof. intros H. unfold bind, whileLoading. by rewrite H. Qed.

(** Code that leaves the placeholder of a namespace in place. *)
Definition keeps_loading {A} (ns : string) (m : M Context A) : Prop :=
  forall c a c', m c = Ok (a, c') ->
    isDialectLoading ns c = true -> isDialectLoading ns c' = true.

(** C3.  (a) The constructor callback of [getOrLoadDialect] always starts in
    a context whose [loadedDialects] holds the null placeholder under the
    namespace: guarding the callback with that check changes no outcome.
    (b) [isDialectLoading] is true exactly when the table holds a null entry
    under the namespace.  (c) [loadDialect<D>()] called while the namespace
    of [D] is loading returns at once with the context untouched: it does
    not call [getOrLoadDialect], whose outcome in that state would be a fatal
    error or undefined behaviour.  (d) The placeholder stays while the
    constructor runs: a load of any dialect that returns inside it leaves
    the placeholder in place, as long as the callbacks of that load do. *)
Theorem loading_placeholder :
  forall (env : Env) (T : DialectClass) (dialectID : TypeID.t)
         (ctor : M Context (option Dialect.t)) (c : Context),
    let ns := getDialectNamespace T in
    getOrLoadDialect env ns dialectID ctor c
      = getOrLoadDialect env ns dialectID (whileLoading ns ctor) c
    /\ (isDialectLoading ns c = true <->
        loadedDialects (dialects c) !! ns = Some None)
    /\ (isDialectLoading ns c = true ->
        loadDialect env T c = Ok (tt, c) /\
        returns (getOrLoadDialectT env T c) = false)
    /\ (forall ns' id' (ctor' : M Context (option Dialect.t)),
          keeps_loading ns ctor' ->
          (forall r d, keeps_loading ns (applyExtensionsToDialect env r d)) ->
          keeps_loading ns (getOrLoadDialect env ns' id' ctor')).
Proof.
  intros env T id ctor c ns. split; [|split; [|split]].
  - unfold getOrLoadDialect.
    destruct (loadedDialects (dialects c) !! ns) as [[d|]|] eqn:E; try reflexivity.
    cbn [bind modify gets ret].
    destruct (negb (NDEBUG env) && _); cbn [bind ret report_fatal_error];
      [reflexivity|].
    symmetry. apply whileLoading_bind, isDialectLoading_spec.
    rewrite loadedDialects_set_loadedDialects. apply lookup_insert_eq.
  - apply isDialectLoading_spec.
  - intros Hl. split.
    + unfold loadDialect. fold ns. rewrite Hl. reflexivity.
    + apply isDialectLoading_spec in Hl.
      unfold getOrLoadDialectT, getOrLoadDialect. fold ns. rewrite Hl.
      destruct (NDEBUG env); reflexivity.
  - intros ns' id' ctor' Hctor Hext c0 d c1 H Hl.
    destruct (loadedDialects (dialects c0) !! ns') as [[d0|]|] eqn:E.
    + rewrite (getOrLoadDialect_present _ _ _ _ _ _ E) in H.
      destruct (TypeID.neqb _ _); [discriminate|]. by injection H as <- <-.
    + unfold getOrLoadDialect in H. rewrite E in H.
      destruct (negb (NDEBUG env)); discriminate.
    + apply getOrLoadDialect_fresh_inv in H as (cA & cB & HA & HB & HC); [|done].
      assert (Hne : ns' <> ns).
      { intros ->. apply isDialectLoading_spec in Hl. congruence. }
      apply (Hext _ _ _ _ _ HC). apply isDialectLoading_spec. rewrite HB.
      rewrite lookup_insert_ne by done. apply isDialectLoading_spec.
      apply (Hctor _ _ _ HA). apply isDialectLoading_spec.
      rewrite loadedDialects_set_loadedDialects, lookup_insert_ne by done.
      by apply isDialectLoading_spec.
Qed.

Lemma loading_placeholder_witness :
  isDialectLoading "test" testLoading = true
  /\ loadDialect (quietEnv false) (plainDialect "test" idX) testLoading
     = Ok (tt, testLoading)
  /\ returns (getOrLoadDialectT (quietEnv false) (plainDialect "test" idX)
                testLoading) = false.
Proof.
  assert (H : isDialectLoading "test" testLoading = true)
    by (vm_compute; reflexivity).
  split; [exact H|].
  exact (proj1 (proj2 (proj2 (loading_placeholder (quietEnv false)
                         (plainDialect "test" idX) idX
                         (newDialect (plainDialect "test" idX)) testLoading)))
               H).
Defined.






(** ** The dialect registry *)

Lemma MapVector_contains_spec {V} (k : TypeID.t) (v : list (TypeID.t * V)) :
  DialectRegistry.MapVector_contains k v = true <-> k ∈ v.*1.
Proof. unfold DialectRegistry.MapVector_contains. apply bool_decide_eq_true. Qed.

Lemma MapVector_try_emplace_keys {V} (k : TypeID.t) (x : V) v k' :
  k' ∈ (DialectRegistry.MapVector_try_emplace k x v).1.*1 <->
  k' = k \/ k' ∈ v.*1.
Proof.
  unfold DialectRegistry.MapVector_try_emplace.
  destruct (DialectRegistry.MapVector_contains k v) eqn:E; simpl.
  - apply MapVector_contains_spec in E. split; [by right|].
    by intros [->|].
  - rewrite fmap_app, elem_of_app. simpl. rewrite list_elem_of_singleton.
    tauto.
Qed.

Lemma insert_registry_keys typeID name ctor r k :
  is_Some (DialectRegistry.registry (DialectRegistry.insert typeID name ctor r) !! k)
  <-> k = name \/ is_Some (DialectRegistry.registry r !! k).
Proof.
  unfold DialectRegistry.insert.
  destruct (DialectRegistry.registry r !! name) as [e|] eqn:E; simpl.
  - split; [by right|]. intros [->|]; [by rewrite E|done].
  - rewrite lookup_insert_is_Some. destruct (decide (name = k)) as [->|Hne].
    + split; [by left|]. intros _. by left.
    + split.
      * intros [Heq|[_ H]]; [by left|by right].
      * intros [Heq|H]; [by left|right; by split].
Qed.

Lemma insert_extensions typeID name ctor r :
  DialectRegistry.extensions (DialectRegistry.insert typeID name ctor r)
  = DialectRegistry.extensions r.
Proof.
  unfold DialectRegistry.insert.
  by destruct (DialectRegistry.registry r !! name).
Qed.

(** The first loop of [appendTo]. *)
Lemma appendTo_dialects_keys (m : gmap string (TypeID.t * DialectRegistry.DialectAllocatorFunction))
    (destination : DialectRegistry.t) :
  let d1 := map_fold (fun name (e : TypeID.t * DialectRegistry.DialectAllocatorFunction) d =>
                        DialectRegistry.insert (fst e) name (snd e) d)
                     destination m in
  (forall k, is_Some (DialectRegistry.registry d1 !! k) <->
             is_Some (m !! k) \/ is_Some (DialectRegistry.registry destination !! k))
  /\ DialectRegistry.extensions d1 = DialectRegistry.extensions destination.
Proof.
  apply (map_fold_weak_ind (fun d1 m =>
    (forall k, is_Some (DialectRegistry.registry d1 !! k) <->
               is_Some (m !! k) \/ is_Some (DialectRegistry.registry destination !! k))
    /\ DialectRegistry.extensions d1 = DialectRegistry.extensions destination)).
  - split; [|done]. intros k. split; [by right|].
    intros [[x Hx]|H]; [by rewrite lookup_empty in Hx|done].
  - intros name e m' r Hnone [IH1 IH2]. split.
    + intros k. rewrite insert_registry_keys, IH1, lookup_insert_is_Some.
      destruct (decide (name = k)) as [->|Hne].
      * split; [intros _; left; by left|intros _; by left].
      * split.
        -- intros [Heq|[H|H]]; [congruence|left; right; by split|by right].
        -- intros [[Heq|[_ H]]|H]; [congruence|right; by left|right; by right].
    + by rewrite insert_extensions.
Qed.

(** The second loop of [appendTo]. *)
Lemma appendTo_extensions_fold (es : list (TypeID.t * DialectRegistry.DialectExtensionBase))
    (d : DialectRegistry.t) :
  let d2 := foldl (fun d (extension : TypeID.t * DialectRegistry.DialectExtensionBase) =>
                     {| DialectRegistry.registry := DialectRegistry.registry d;
                        DialectRegistry.extensions :=
                          fst (DialectRegistry.MapVector_try_emplace (fst extension)
                                 (DialectRegistry.clone (snd extension))
                                 (DialectRegistry.extensions d)) |})
                  d es in
  DialectRegistry.registry d2 = DialectRegistry.registry d
  /\ forall k, k ∈ (DialectRegistry.extensions d2).*1 <->
               k ∈ es.*1 \/ k ∈ (DialectRegistry.extensions d).*1.
Proof.
  revert d. induction es as [|[k0 e0] es IH]; intros d; simpl.
  - split; [done|]. intros k. rewrite elem_of_nil. tauto.
  - destruct (IH {| DialectRegistry.registry := DialectRegistry.registry d;
                    DialectRegistry.extensions :=
                      fst (DialectRegistry.MapVector_try_emplace k0
                             (DialectRegistry.clone e0)
                             (DialectRegistry.extensions d)) |}) as [IH1 IH2].
    split; [by rewrite IH1|].
    intros k. rewrite IH2. simpl. rewrite MapVector_try_emplace_keys, elem_of_cons.
    tauto.
Qed.

Lemma isSubsetOf_spec (self rhs : DialectRegistry.t) :
  DialectRegistry.isSubsetOf self rhs = true <->
  (forall name, is_Some (DialectRegistry.registry self !! name) ->
                is_Some (DialectRegistry.registry rhs !! name))
  /\ (forall k, k ∈ (DialectRegistry.extensions self).*1 ->
                k ∈ (DialectRegistry.extensions rhs).*1).
Proof.
  unfold DialectRegistry.isSubsetOf.
  rewrite andb_true_iff, bool_decide_eq_true, forallb_forall.
  split.
  - intros [H1 H2]. split.
    + intros name [e He]. by apply (H1 name e).
    + intros k Hk. apply list_elem_of_fmap in Hk as ([k' e] & -> & Hin).
      apply MapVector_contains_spec. apply (H2 (k', e)).
      by apply list_elem_of_In.
  - intros [H1 H2]. split.
    + intros name e He. apply H1. by exists e.
    + intros [k e] Hin. apply MapVector_contains_spec. apply H2.
      apply list_elem_of_fmap. exists (k, e). split; [done|].
      by apply list_elem_of_In.
Qed.

(** C7.  (a) Every registry is a subset of itself.  (b) After
    [A.appendTo(B)] the registry [A] is a subset of [B].  (c) When the given
    registry is already a subset of the context's registry,
    [appendDialectRegistry] returns at once: the context, its registry
    included, is unchanged, and the code applying extensions is not run,
    whatever that code is. *)
Theorem registry_subset_laws :
  (forall R : DialectRegistry.t, DialectRegistry.isSubsetOf R R = true)
  /\ (forall A B : DialectRegistry.t,
        DialectRegistry.isSubsetOf A (DialectRegistry.appendTo A B) = true)
  /\ (forall (env : Env) (registry : DialectRegistry.t) (c : Context),
        DialectRegistry.isSubsetOf registry (getDialectRegistry c) = true ->
        appendDialectRegistry env registry c = Ok (tt, c)
        /\ forall env' : Env,
             appendDialectRegistry env' registry c = Ok (tt, c)).
Proof.
  split; [|split].
  - intros R. apply isSubsetOf_spec. split; auto.
  - intros A B. apply isSubsetOf_spec. unfold DialectRegistry.appendTo.
    destruct (appendTo_dialects_keys (DialectRegistry.registry A) B) as [H1 H2].
    destruct (appendTo_extensions_fold (DialectRegistry.extensions A)
               (map_fold (fun name (e : TypeID.t * DialectRegistry.DialectAllocatorFunction) d =>
                            DialectRegistry.insert (fst e) name (snd e) d)
                         B (DialectRegistry.registry A))) as [H3 H4].
    cbv zeta in *. split.
    + intros name Hn. rewrite H3. apply H1. by left.
    + intros k Hk. apply H4. by left.
  - intros env registry c Hsub.
    assert (H : forall e, appendDialectRegistry e registry c = Ok (tt, c)).
    { intros e. unfold appendDialectRegistry.
      unfold getDialectRegistry in Hsub. by rewrite Hsub. }
    split; [apply H|exact H].
Qed.

Definition registryA : DialectRegistry.t :=
  DialectRegistry.insert idX "test" 0%nat DialectRegistry.empty.

Definition contextWithRegistryA : Context :=
  set_dialectsRegistry (DialectRegistry.appendTo registryA) freshContext.

Lemma registry_subset_laws_witness :
  DialectRegistry.isSubsetOf registryA (getDialectRegistry contextWithRegistryA)
    = true
  /\ appendDialectRegistry (quietEnv false) registryA contextWithRegistryA
     = Ok (tt, contextWithRegistryA).
Proof.
  assert (H : DialectRegistry.isSubsetOf registryA
                (getDialectRegistry contextWithRegistryA) = true)
    by (vm_compute; reflexivity).
  split; [exact H|].
  exact (proj1 (proj2 (proj2 registry_subset_laws) (quietEnv false) registryA
                  contextWithRegistryA H)).
Defined.

(** ** Threading *)

(** The assertion on the debug counter holds (or is compiled out). *)
Definition singleThreaded (env : Env) (c : Context) : Prop :=
  NDEBUG env = true \/ multiThreadedExecutionContext (threads c) = 0.

Lemma assert_singleThreaded env c msg :
  singleThreaded env c ->
  assert (NDEBUG env) (multiThreadedExecutionContext (threads c) =? 0) msg c
  = Ok (tt, c).
Proof.
  unfold assert. intros [->| ->]; [done|]. by destruct (NDEBUG env).
Qed.

Lemma assert_true {S} ndebug msg (s : S) : assert ndebug true msg s = Ok (tt, s).
Proof. unfold assert. by destruct ndebug. Qed.

Lemma assert_NDEBUG {S} cond msg (s : S) : assert true cond msg s = Ok (tt, s).
Proof. reflexivity. Qed.

Ltac destruct_context c :=
  let o := fresh "opts" in
  let t := fresh "thr" in
  let d := fresh "dls" in
  let u := fresh "unq" in
  let h := fresh "hp" in
  destruct c as [o t d u h];
  destruct t as [? ? ? ?]; destruct h as [? ? ?]; simpl in *.

Ltac run_threads :=
  unfold assign_threadPool, assign_ownedThreadPool, assign_threadingIsEnabled,
    uniquers_disableMultithreading, make_unique_DefaultThreadPool,
    set_uniquing, set_threads, set_heap;
  cbn [bind modify gets ret]; simpl.

Lemma disableMultithreading_globally_disabled env b c :
  isThreadingGloballyDisabled env = true ->
  disableMultithreading env b c = Ok (tt, c).
Proof. intros Hg. unfold disableMultithreading. by rewrite Hg. Qed.

Lemma disableMultithreading_true_owned env c p :
  isThreadingGloballyDisabled env = false -> singleThreaded env c ->
  ownedThreadPool (threads c) = Some p ->
  NDEBUG env = true \/ is_Some (threadPool (threads c)) ->
  exists c', disableMultithreading env true c = Ok (tt, c')
    /\ threadPool (threads c') = None
    /\ ownedThreadPool (threads c') = None
    /\ threadPools (heap c') = threadPools (heap c) ∖ {[p]}.
Proof.
  intros Hg Hs Ho Hp.
  unfold disableMultithreading. rewrite Hg.
  rewrite (bind_Ok _ _ _ _ _ (assert_singleThreaded _ _ _ Hs)).
  destruct_context c. subst.
  cbn [bind modify gets ret assign_threadingIsEnabled uniquers_disableMultithreading].
  simpl.
  erewrite bind_Ok; cycle 1.
  { destruct Hp as [->|[q ->]]; [apply assert_NDEBUG|apply assert_true]. }
  run_threads. eexists. split; [reflexivity|]. simpl. auto.
Qed.

Lemma disableMultithreading_true_not_owned env c :
  isThreadingGloballyDisabled env = false -> singleThreaded env c ->
  ownedThreadPool (threads c) = None ->
  exists c', disableMultithreading env true c = Ok (tt, c')
    /\ threadPool (threads c') = threadPool (threads c)
    /\ ownedThreadPool (threads c') = None
    /\ heap c' = heap c.
Proof.
  intros Hg Hs Ho.
  unfold disableMultithreading. rewrite Hg.
  rewrite (bind_Ok _ _ _ _ _ (assert_singleThreaded _ _ _ Hs)).
  destruct_context c. subst.
  cbn [bind modify gets ret assign_threadingIsEnabled uniquers_disableMultithreading].
  simpl. run_threads. eexists. split; [reflexivity|]. simpl. auto.
Qed.

Lemma disableMultithreading_false_pool_set env c pool :
  isThreadingGloballyDisabled env = false -> singleThreaded env c ->
  threadPool (threads c) = Some pool ->
  exists c', disableMultithreading env false c = Ok (tt, c')
    /\ threadPool (threads c') = Some pool
    /\ ownedThreadPool (threads c') = ownedThreadPool (threads c)
    /\ heap c' = heap c.
Proof.
  intros Hg Hs Hp.
  unfold disableMultithreading. rewrite Hg.
  rewrite (bind_Ok _ _ _ _ _ (assert_singleThreaded _ _ _ Hs)).
  destruct_context c. subst.
  cbn [bind modify gets ret assign_threadingIsEnabled uniquers_disableMultithreading].
  simpl. run_threads. eexists. split; [reflexivity|]. simpl. auto.
Qed.

Lemma disableMultithreading_false_no_pool env c :
  isThreadingGloballyDisabled env = false -> singleThreaded env c ->
  threadPool (threads c) = None ->
  ownedThreadPool (threads c) = None ->
  exists c', disableMultithreading env false c = Ok (tt, c')
    /\ threadPool (threads c') = Some (nextObject (heap c))
    /\ ownedThreadPool (threads c') = Some (nextObject (heap c))
    /\ threadPools (heap c') = {[nextObject (heap c)]} ∪ threadPools (heap c).
Proof.
  intros Hg Hs Hp Ho.
  unfold disableMultithreading. rewrite Hg.
  rewrite (bind_Ok _ _ _ _ _ (assert_singleThreaded _ _ _ Hs)).
  destruct_context c. subst.
  cbn [bind modify gets ret assign_threadingIsEnabled uniquers_disableMultithreading].
  simpl.
  erewrite bind_Ok; [|apply assert_true].
  run_threads. eexists. split; [reflexivity|]. simpl. auto.
Qed.

Lemma setThreadPool_external env c pool :
  NDEBUG env = true \/ isMultithreadingEnabled env c = false ->
  singleThreaded env c ->
  exists c', setThreadPool env pool c = Ok (tt, c')
    /\ threadPool (threads c') = Some pool
    /\ ownedThreadPool (threads c') = None
    /\ heap c' = destroy c
    /\ multiThreadedExecutionContext (threads c')
       = multiThreadedExecutionContext (threads c).
Proof.
  intros Hm Hs. unfold setThreadPool.
  erewrite bind_Ok; cycle 1.
  { destruct Hm as [->| ->]; [apply assert_NDEBUG|apply assert_true]. }
  unfold enableMultithreading, destroy.
  destruct_context c. subst.
  destruct ownedThreadPool0 as [q|];
    (destruct (isThreadingGloballyDisabled env) eqn:Hg;
     [ run_threads; unfold disableMultithreading; rewrite Hg;
       eexists; split; [reflexivity|]; simpl; auto
     | run_threads;
       match goal with
       | |- exists c', disableMultithreading _ _ ?c0 = _ /\ _ =>
           destruct (disableMultithreading_false_pool_set env c0 pool Hg)
             as (c' & Hrun & H1 & H2 & H3);
             [unfold singleThreaded in *; simpl in *; exact Hs|reflexivity|]
       end;
       exists c'; simpl in *; rewrite H3; repeat split; try done;
       revert Hrun; unfold disableMultithreading; rewrite Hg;
       (erewrite bind_Ok;
        [|apply assert_singleThreaded; unfold singleThreaded in *;
          simpl in *; exact Hs]);
       run_threads; intros H; by injection H as <- ]).
Qed.

(** An externally provided pool stays external: no call of
    [disableMultithreading] makes the context own it or touches the pool
    objects, and destroying the context leaves the heap as it is. *)
Lemma external_pool_never_owned env c pool disable :
  singleThreaded env c ->
  threadPool (threads c) = Some pool ->
  ownedThreadPool (threads c) = None ->
  exists c', disableMultithreading env disable c = Ok (tt, c')
    /\ threadPool (threads c') = Some pool
    /\ ownedThreadPool (threads c') = None
    /\ heap c' = heap c
    /\ destroy c' = heap c.
Proof.
  intros Hs Hp Ho.
  destruct (isThreadingGloballyDisabled env) eqn:Hg.
  - exists c. rewrite disableMultithreading_globally_disabled by done.
    unfold destroy. by rewrite Ho.
  - destruct disable.
    + destruct (disableMultithreading_true_not_owned env c Hg Hs Ho)
        as (c' & Hrun & H1 & H2 & H3).
      exists c'. unfold destroy. rewrite H2, H1, H3. auto.
    + destruct (disableMultithreading_false_pool_set env c pool Hg Hs Hp)
        as (c' & Hrun & H1 & H2 & H3).
      exists c'. unfold destroy. rewrite H2, Ho, H1, H3. auto.
Qed.

(** C8.  (a) When threading is globally disabled (the command-line flag, or
    a build without threads), [disableMultithreading] changes nothing.
    Otherwise, in a call the debug assertions allow:
    (b) [disableMultithreading(true)] on a context that owns its pool
    destroys that pool and resets both pool pointers to null;
    (c) on a context that owns no pool it leaves the pool pointer, hence an
    externally provided pool, and all pool objects as they are;
    (d) [disableMultithreading(false)] creates no pool when a pool is set;
    (e) and creates a new pool, owned by the context, when none is set.
    (f) [setThreadPool], legal while multithreading is disabled, installs
    the given pool with [ownedThreadPool] null, destroying at most a pool
    the context owned before; from then on every [disableMultithreading]
    keeps the pool installed and not owned, and neither such a call nor the
    destruction of the context touches the pool. *)
Theorem thread_pool_ownership :
  forall (env : Env) (c : Context),
    (isThreadingGloballyDisabled env = true ->
       forall disable, disableMultithreading env disable c = Ok (tt, c))
    /\ (isThreadingGloballyDisabled env = false -> singleThreaded env c ->
          (forall p, ownedThreadPool (threads c) = Some p ->
                     NDEBUG env = true \/ is_Some (threadPool (threads c)) ->
             exists c', disableMultithreading env true c = Ok (tt, c')
               /\ threadPool (threads c') = None
               /\ ownedThreadPool (threads c') = None
               /\ threadPools (heap c') = threadPools (heap c) ∖ {[p]})
          /\ (ownedThreadPool (threads c) = None ->
             exists c', disableMultithreading env true c = Ok (tt, c')
               /\ threadPool (threads c') = threadPool (threads c)
               /\ ownedThreadPool (threads c') = None
               /\ heap c' = heap c)
          /\ (forall pool, threadPool (threads c) = Some pool ->
             exists c', disableMultithreading env false c = Ok (tt, c')
               /\ threadPool (threads c') = Some pool
               /\ ownedThreadPool (threads c') = ownedThreadPool (threads c)
               /\ heap c' = heap c)
          /\ (threadPool (threads c) = None ->
              ownedThreadPool (threads c) = None ->
             exists c', disableMultithreading env false c = Ok (tt, c')
               /\ threadPool (threads c') = Some (nextObject (heap c))
               /\ ownedThreadPool (threads c') = Some (nextObject (heap c))
               /\ threadPools (heap c')
                  = {[nextObject (heap c)]} ∪ threadPools (heap c)))
    /\ (forall pool,
          NDEBUG env = true \/ isMultithreadingEnabled env c = false ->
          singleThreaded env c ->
          exists c', setThreadPool env pool c = Ok (tt, c')
            /\ threadPool (threads c') = Some pool
            /\ ownedThreadPool (threads c') = None
            /\ heap c' = destroy c
            /\ forall disable,
                 exists c'', disableMultithreading env disable c' = Ok (tt, c'')
                   /\ threadPool (threads c'') = Some pool
                   /\ ownedThreadPool (threads c'') = None
                   /\ heap c'' = heap c'
                   /\ destroy c'' = heap c').
Proof.
  intros env c. split; [|split].
  - intros Hg disable. by apply disableMultithreading_globally_disabled.
  - intros Hg Hs. split; [|split; [|split]].
    + intros p. by apply disableMultithreading_true_owned.
    + by apply disableMultithreading_true_not_owned.
    + intros pool. by apply disableMultithreading_false_pool_set.
    + by apply disableMultithreading_false_no_pool.
  - intros pool Hm Hs.
    destruct (setThreadPool_external env c pool Hm Hs)
      as (c' & Hrun & H1 & H2 & H3 & H4).
    exists c'. repeat split; try done.
    intros disable. apply external_pool_never_owned; try done.
    destruct Hs as [Hs|Hs]; [by left|right; congruence].
Qed.

(** A heap in which a pool provided by the caller lives at address 7. *)
Definition heapWithExternalPool : Heap :=
  {| referencedDialect := ∅; threadPools := {[7%nat]}; nextObject := 8%nat |}.

Lemma thread_pool_ownership_witness :
  exists c',
    setThreadPool (quietEnv false) 7%nat
      (MLIRContextImpl_new false heapWithExternalPool) = Ok (tt, c')
    /\ threadPool (threads c') = Some 7%nat
    /\ ownedThreadPool (threads c') = None
    /\ heap c' = heapWithExternalPool.
Proof.
  destruct (proj2 (proj2 (thread_pool_ownership (quietEnv false)
                            (MLIRContextImpl_new false heapWithExternalPool)))
              7%nat (or_intror eq_refl) (or_intror eq_refl))
    as (c' & Hrun & H1 & H2 & H3 & _).
  exists c'. repeat split; assumption.
Defined.

(** ** The list of loaded dialects *)

Definition dialectA : Dialect.t :=
  {| Dialect.this := 0%nat; Dialect.name := "a"; Dialect.dialectID := idX |}.
Definition dialectB : Dialect.t :=
  {| Dialect.this := 1%nat; Dialect.name := "b"; Dialect.dialectID := idY |}.

(** A context in which the dialects "a" and "b" are loaded. *)
Definition loadedAB : Context :=
  set_loadedDialects
    (fun m => <["a" := Some dialectA]> (<["b" := Some dialectB]> m))
    freshContext.

#[global] Instance qsort_le_compareLoadedDialects_total :
  Total (qsort_le compareLoadedDialects).
Proof.
  intros x y. unfold qsort_le, compareLoadedDialects, String.ltb.
  rewrite (String.compare_antisym (Dialect.getNamespace x) (Dialect.getNamespace y)).
  destruct (String.compare (Dialect.getNamespace y) (Dialect.getNamespace x));
    simpl; lia.
Qed.

Lemma qsort_le_compareLoadedDialects (lhs rhs : Dialect.t) :
  qsort_le compareLoadedDialects lhs rhs <->
  String.ltb (Dialect.getNamespace lhs) (Dialect.getNamespace rhs) = false.
Proof.
  unfold qsort_le, compareLoadedDialects.
  destruct (String.ltb _ _); split; intros H; try done; lia.
Qed.

(** What [array_pod_sort] does with the comparator of [getLoadedDialects]:
    the result is a permutation in which no element is followed directly by
    one with a greater namespace. *)
Lemma array_pod_sort_compareLoadedDialects (ds : list Dialect.t) :
  array_pod_sort compareLoadedDialects ds ≡ₚ ds
  /\ Sorted (qsort_le compareLoadedDialects)
            (array_pod_sort compareLoadedDialects ds).
Proof.
  unfold array_pod_sort. destruct ds as [|x [|y ds]].
  - split; [done|constructor].
  - split; [done|]. repeat constructor.
  - split; [apply merge_sort_Permutation|apply Sorted_merge_sort; apply _].
Qed.

(** C10, evaluated.  With the dialects "a" and "b" loaded,
    [getLoadedDialects] returns "b" before "a": one pointer per loaded
    dialect, in descending order of namespace.  The comparator returns the
    [bool] of [lhs < rhs], which [qsort] reads as "lhs is greater than rhs"
    when it is 1 and as "equal" when it is 0.  The order in which the
    [DenseMap] is traversed does not matter: the sort puts "b" first from
    either order of the two pointers. *)
Theorem getLoadedDialects_not_ascending :
  getLoadedDialects loadedAB = Ok [Some dialectB; Some dialectA]
  /\ String.ltb (Dialect.getNamespace dialectA) (Dialect.getNamespace dialectB)
     = true
  /\ array_pod_sort compareLoadedDialects [dialectA; dialectB]
     = [dialectB; dialectA]
  /\ array_pod_sort compareLoadedDialects [dialectB; dialectA]
     = [dialectB; dialectA].
Proof. repeat split; vm_compute; reflexivity. Qed.

(** ** TypeID *)

Section TypeIDProps.
Import TypeID.

(** Whether the build defines NDEBUG. *)
Variable ndebug : bool.

Lemma contains_anonymous (q : string) :
  contains "anonymous namespace" (String.append "(anonymous namespace)::" q) = true.
Proof. reflexivity. Qed.

Lemma not_anonymous_translationUnit (T : CppType) :
  contains "anonymous namespace" (getTypeName T) = false ->
  translationUnit T = None /\ getTypeName T = qualifiedName T.
Proof.
  unfold getTypeName. destruct (translationUnit T); [|done].
  by rewrite contains_anonymous.
Qed.

(** The invariant of the fallback registry: every registered identifier is
    a storage the allocator has handed out, no identifier is registered
    under two names, and an initialised function-local static holds the
    identifier registered under the name of its type, which in a build with
    assertions is not the name of a type of an anonymous namespace. *)
Definition inv (s : State) : Prop :=
  (forall name id, typeNameToID s !! name = Some id ->
     exists n, id = {| storage := Allocated n |} /\ (n < typeIDAllocator s)%nat)
  /\ (forall n1 n2 id, typeNameToID s !! n1 = Some id ->
        typeNameToID s !! n2 = Some id -> n1 = n2)
  /\ (forall T id, lookupStatic T (fallbackStatic s) = Some id ->
        resolution T = FallbackTypeID
        /\ typeNameToID s !! getTypeName T = Some id
        /\ (ndebug = false ->
            contains "anonymous namespace" (getTypeName T) = false)).

(** States only grow: entries of the name table and initialised statics
    stay as they are. *)
Definition grows (s s' : State) : Prop :=
  (forall name id, typeNameToID s !! name = Some id ->
                   typeNameToID s' !! name = Some id)
  /\ (forall T id, lookupStatic T (fallbackStatic s) = Some id ->
                   lookupStatic T (fallbackStatic s') = Some id).

Lemma inv_initial : inv initial.
Proof.
  split; [|split]; simpl.
  - intros name id H. by rewrite lookup_empty in H.
  - intros n1 n2 id H. by rewrite lookup_empty in H.
  - intros T id H. discriminate H.
Qed.

Lemma lookupStatic_cons T T0 id l :
  lookupStatic T ((T0, id) :: l)
  = if decide (T0 = T) then Some id else lookupStatic T l.
Proof.
  unfold lookupStatic. simpl. destruct (decide (T0 = T)) as [->|Hne].
  - by rewrite bool_decide_eq_true_2.
  - by rewrite bool_decide_eq_false_2.
Qed.

Lemma registerImplicitTypeID_inv name s id s' :
  registerImplicitTypeID ndebug name s = Ok (id, s') ->
  (ndebug = false -> contains "anonymous namespace" name = false)
  /\ typeNameToID s' !! name = Some id
  /\ fallbackStatic s' = fallbackStatic s
  /\ ((typeNameToID s !! name = Some id /\ s' = s) \/
      (typeNameToID s !! name = None
       /\ id = {| storage := Allocated (typeIDAllocator s) |}
       /\ typeNameToID s' = <[name := id]> (typeNameToID s)
       /\ typeIDAllocator s' = S (typeIDAllocator s))).
Proof.
  unfold registerImplicitTypeID. intros H.
  apply bind_Ok_inv in H as ([] & s0 & Ha & H).
  assert (Hs0 : s0 = s
                /\ (ndebug = false -> contains "anonymous namespace" name = false)).
  { unfold assert in Ha.
    destruct (Bool.bool_dec ndebug true) as [Hd|Hd].
    - rewrite Hd in Ha. injection Ha as <-. split; [done|]. congruence.
    - apply Bool.not_true_is_false in Hd. rewrite Hd in Ha.
      destruct (contains "anonymous namespace" name); [discriminate Ha|].
      by injection Ha as <-. }
  destruct Hs0 as [-> Hanon]. split; [exact Hanon|].
  destruct (typeNameToID s !! name) as [id0|] eqn:E.
  - injection H as <- <-.
    split; [done|]. split; [done|]. left. done.
  - simpl in H. injection H as <- <-. simpl.
    rewrite lookup_insert_eq. split; [done|]. split; [done|].
    right. auto.
Qed.

Lemma get_inv T s id s' :
  get ndebug T s = Ok (id, s') ->
  (resolution T <> FallbackTypeID /\ s' = s
   /\ match resolution T with
      | InheritedInlineTypeID baseName baseUnit =>
          id = SelfOwningTypeID_getTypeID (declaringClass baseName baseUnit)
      | _ => id = SelfOwningTypeID_getTypeID T
      end)
  \/ (resolution T = FallbackTypeID
      /\ lookupStatic T (fallbackStatic s) = Some id /\ s' = s)
  \/ (resolution T = FallbackTypeID
      /\ lookupStatic T (fallbackStatic s) = None
      /\ exists s1, registerImplicitTypeID ndebug (getTypeName T) s = Ok (id, s1)
           /\ s' = {| typeNameToID := typeNameToID s1;
                      typeIDAllocator := typeIDAllocator s1;
                      fallbackStatic := (T, id) :: fallbackStatic s1 |}).
Proof.
  unfold get. destruct (resolution T) eqn:R.
  - intros H. injection H as <- <-. left. done.
  - intros H. injection H as <- <-. left. done.
  - intros H. injection H as <- <-. left. done.
  - unfold Fallback_resolveTypeID.
    destruct (lookupStatic T (fallbackStatic s)) as [id0|] eqn:E.
    + intros H. injection H as <- <-. right. left. done.
    + intros H. apply bind_Ok_inv in H as (id1 & s1 & Hreg & H).
      cbn [bind modify ret] in H. injection H as <- <-.
      right. right. eauto.
Qed.

Lemma get_preserves T s id s' :
  inv s -> get ndebug T s = Ok (id, s') -> inv s' /\ grows s s'.
Proof.
  intros (I1 & I2 & I3) H.
  apply get_inv in H as [(_ & -> & _)|[(_ & _ & ->)|(R & E & s1 & Hreg & ->)]];
    try (split; [done|split; auto]).
  apply registerImplicitTypeID_inv in Hreg
    as (Hanon & Hl & Hst & [[Hold ->]|(Hnone & Hid & Hmap & Hal)]).
  - split; [split; [|split]|split]; simpl; try done.
    + intros T0 id0. rewrite lookupStatic_cons.
      destruct (decide (T = T0)) as [<-|Hne].
      * intros [= <-]. done.
      * apply I3.
    + intros T0 id0 H0. rewrite lookupStatic_cons.
      destruct (decide (T = T0)) as [<-|Hne]; [congruence|done].
  - split; [split; [|split]|split]; simpl.
    + intros name id0. rewrite Hmap, Hal.
      destruct (decide (getTypeName T = name)) as [<-|Hne].
      * rewrite lookup_insert_eq. intros [= <-]. eexists. split; [done|lia].
      * rewrite lookup_insert_ne by done. intros H0.
        destruct (I1 _ _ H0) as (n & -> & Hn). eexists. split; [done|lia].
    + intros n1 n2 id0. rewrite Hmap.
      destruct (decide (getTypeName T = n1)) as [<-|Hne1];
        destruct (decide (getTypeName T = n2)) as [<-|Hne2];
        rewrite ?lookup_insert_eq, ?lookup_insert_ne by done; try done.
      * intros [= <-] H2. destruct (I1 _ _ H2) as (n & Hn & Hlt).
        rewrite Hid in Hn. injection Hn as <-. lia.
      * intros H1 [= <-]. destruct (I1 _ _ H1) as (n & Hn & Hlt).
        rewrite Hid in Hn. injection Hn as <-. lia.
      * apply I2.
    + intros T0 id0. rewrite lookupStatic_cons, Hst.
      destruct (decide (T = T0)) as [<-|Hne].
      * intros [= <-]. done.
      * intros H0. destruct (I3 _ _ H0) as (R0 & H1 & H2).
        split; [done|]. split; [|done]. rewrite Hmap.
        rewrite lookup_insert_ne; [done|]. intros Heq. congruence.
    + intros name id0 H0. rewrite Hmap.
      rewrite lookup_insert_ne; [done|]. intros <-. congruence.
    + intros T0 id0 H0. rewrite lookupStatic_cons, Hst.
      destruct (decide (T = T0)) as [<-|Hne]; [congruence|done].
Qed.

Lemma reachable_inv s : reachable ndebug s -> inv s.
Proof.
  induction 1 as [|s T id s' _ IH H]; [apply inv_initial|].
  by apply (get_preserves T s id s').
Qed.

Lemma grows_refl s : grows s s.
Proof. by split. Qed.

Lemma grows_trans s1 s2 s3 : grows s1 s2 -> grows s2 s3 -> grows s1 s3.
Proof. intros [A1 B1] [A2 B2]. split; eauto. Qed.

Lemma later_inv_grows s s' : inv s -> later ndebug s s' -> inv s' /\ grows s s'.
Proof.
  intros Hinv. induction 1 as [|s1 T id s2 _ [IH1 IH2] H].
  - split; [done|apply grows_refl].
  - destruct (get_preserves T s1 id s2 IH1 H) as [H1 H2].
    split; [done|]. by apply (grows_trans s s1 s2).
Qed.

(** What a returned identifier is: the address of the type's own static, or
    the identifier now cached in the static of the fallback resolver and
    registered under the type's name. *)
Lemma get_result T s id s' :
  inv s -> get ndebug T s = Ok (id, s') ->
  (resolution T <> FallbackTypeID
   /\ match resolution T with
      | InheritedInlineTypeID baseName baseUnit =>
          id = SelfOwningTypeID_getTypeID (declaringClass baseName baseUnit)
      | _ => id = SelfOwningTypeID_getTypeID T
      end)
  \/ (resolution T = FallbackTypeID
      /\ lookupStatic T (fallbackStatic s') = Some id).
Proof.
  intros Hinv H.
  apply get_inv in H as [(R & -> & Hid)|[(R & E & ->)|(R & E & s1 & Hreg & ->)]].
  - by left.
  - by right.
  - right. split; [done|]. simpl. rewrite lookupStatic_cons.
    by rewrite decide_True.
Qed.

Lemma get_cached T s id :
  resolution T = FallbackTypeID ->
  lookupStatic T (fallbackStatic s) = Some id ->
  get ndebug T s = Ok (id, s).
Proof.
  intros R E. unfold get, Fallback_resolveTypeID. by rewrite R, E.
Qed.

(** Calls return unless, in a build with assertions, the fallback meets a
    type of an anonymous namespace. *)
Lemma get_returns T s :
  resolution T <> FallbackTypeID \/ ndebug = true \/ translationUnit T = None /\
    contains "anonymous namespace" (qualifiedName T) = false ->
  exists id s', get ndebug T s = Ok (id, s').
Proof.
  intros H. unfold get. destruct (resolution T) eqn:R; try by eauto.
  unfold Fallback_resolveTypeID.
  destruct (lookupStatic T (fallbackStatic s)); [by eauto|].
  assert (Ha : assert (S := State) ndebug
                 (negb (contains "anonymous namespace" (getTypeName T)))
                 "TypeID::get<> used on a type of an anonymous namespace" s
               = Ok (tt, s)).
  { unfold assert. destruct H as [H|[->|[Htu Hc]]]; [done|done|].
    unfold getTypeName. rewrite Htu, Hc. simpl.
    destruct (Bool.bool_dec ndebug true) as [Hd|Hd%Bool.not_true_is_false];
      by rewrite Hd. }
  unfold bind at 1. unfold registerImplicitTypeID. unfold bind at 1. rewrite Ha.
  destruct (typeNameToID s !! getTypeName T); cbn; eauto.
Qed.

(** In a build with assertions the fallback refuses a type of an anonymous
    namespace. *)
Lemma get_refuses T s :
  inv s -> ndebug = false ->
  resolution T = FallbackTypeID -> is_Some (translationUnit T) ->
  get ndebug T s
  = AssertionFailure "TypeID::get<> used on a type of an anonymous namespace".
Proof.
  intros (_ & _ & I3) Hd R [u Hu].
  assert (Hc : contains "anonymous namespace" (getTypeName T) = true)
    by (unfold getTypeName; rewrite Hu; apply contains_anonymous).
  unfold get, Fallback_resolveTypeID. rewrite R.
  destruct (lookupStatic T (fallbackStatic s)) as [id|] eqn:E.
  - destruct (I3 _ _ E) as (_ & _ & Hn). rewrite (Hn Hd) in Hc. discriminate Hc.
  - unfold bind at 1. unfold registerImplicitTypeID. unfold bind at 1.
    unfold assert. by rewrite Hd, Hc.
Qed.

(** The type has an identifier of its own: it does not resolve through a
    [resolveTypeID] inherited from a base class. *)
Definition ownIdentifier (T : CppType) : Prop :=
  forall baseName baseUnit,
    resolution T <> InheritedInlineTypeID baseName baseUnit.

(** The name-based fallback can tell the two types apart: in a build with
    NDEBUG, where it also serves the types of anonymous namespaces, the
    names it registers for them differ. *)
Definition namesDiffer (A B : CppType) : Prop :=
  ndebug = true ->
  resolution A = FallbackTypeID -> resolution B = FallbackTypeID ->
  getTypeName A <> getTypeName B.

(** C6, as the code has it.  In every state a program can reach: (a) once
    [TypeID::get<T>()] has returned an identifier, every later call for the
    same [T] returns that identifier (and changes nothing); (b) the
    identifiers returned for two distinct types differ when each type has an
    identifier of its own (explicit specialisation, inline declaration in
    the class itself, or name fallback) and, in a build with NDEBUG, the
    fallback registers the two under different names; (c) a class that
    inherits [resolveTypeID] from a base class gets the identifier of that
    base; (d) two types that the fallback registers under one name get one
    identifier; (e) for a type of an anonymous namespace the fallback trips
    its assertion in a build with assertions and returns in a build with
    NDEBUG; (f) [operator==] on TypeIDs holds exactly when the storage
    pointers are equal. *)
Theorem TypeID_get_unique :
  forall s : State, reachable ndebug s ->
    (forall T a s1, get ndebug T s = Ok (a, s1) ->
       forall s2, later ndebug s1 s2 -> get ndebug T s2 = Ok (a, s2))
    /\ (forall A B a b s1 s2 s3,
          A <> B -> ownIdentifier A -> ownIdentifier B -> namesDiffer A B ->
          get ndebug A s = Ok (a, s1) -> later ndebug s1 s2 ->
          get ndebug B s2 = Ok (b, s3) ->
          a <> b /\ eqb a b = false)
    /\ (forall D baseName baseUnit,
          resolution D = InheritedInlineTypeID baseName baseUnit ->
          get ndebug D s = get ndebug (declaringClass baseName baseUnit) s)
    /\ (forall A B a b s1 s2 s3,
          resolution A = FallbackTypeID -> resolution B = FallbackTypeID ->
          getTypeName A = getTypeName B ->
          get ndebug A s = Ok (a, s1) -> later ndebug s1 s2 ->
          get ndebug B s2 = Ok (b, s3) ->
          a = b /\ eqb a b = true)
    /\ (forall T,
          resolution T = FallbackTypeID -> is_Some (translationUnit T) ->
          (ndebug = true -> exists a s1, get ndebug T s = Ok (a, s1))
          /\ (ndebug = false ->
              get ndebug T s
              = AssertionFailure
                  "TypeID::get<> used on a type of an anonymous namespace"))
    /\ (forall a b : t, eqb a b = true <-> storage a = storage b).
Proof.
  intros s Hr. pose proof (reachable_inv s Hr) as Hinv.
  split; [|split; [|split; [|split; [|split]]]].
  - intros T a s1 H s2 Hl.
    destruct (get_preserves T s a s1 Hinv H) as [Hinv1 _].
    destruct (later_inv_grows s1 s2 Hinv1 Hl) as [Hinv2 [_ Hg]].
    destruct (get_result T s a s1 Hinv H) as [[R Hid]|[R E]].
    + unfold get. destruct (resolution T); by subst.
    + apply get_cached; [done|]. by apply Hg.
  - intros A B a b s1 s2 s3 Hne HoA HoB Hnames HA Hl HB.
    assert (Hab : a <> b).
    { destruct (get_preserves A s a s1 Hinv HA) as [Hinv1 _].
      destruct (later_inv_grows s1 s2 Hinv1 Hl) as [Hinv2 [_ Hg]].
      destruct (get_preserves B s2 b s3 Hinv2 HB) as [Hinv3 [_ Hg3]].
      destruct Hinv3 as (I1 & I2 & I3).
      destruct (get_result A s a s1 Hinv HA) as [[RA HidA]|[RA EA]];
        destruct (get_result B s2 b s3 Hinv2 HB) as [[RB HidB]|[RB EB]].
      - assert (a = SelfOwningTypeID_getTypeID A) as ->.
        { destruct (resolution A) eqn:R; try done. by destruct (HoA baseName baseUnit). }
        assert (b = SelfOwningTypeID_getTypeID B) as ->.
        { destruct (resolution B) eqn:R; try done. by destruct (HoB baseName baseUnit). }
        unfold SelfOwningTypeID_getTypeID. congruence.
      - destruct (I3 _ _ EB) as (_ & HlB & _).
        destruct (I1 _ _ HlB) as (n & -> & _).
        destruct (resolution A); subst; discriminate.
      - apply Hg, Hg3 in EA. destruct (I3 _ _ EA) as (_ & HlA & _).
        destruct (I1 _ _ HlA) as (n & -> & _).
        destruct (resolution B); subst; discriminate.
      - apply Hg, Hg3 in EA.
        destruct (I3 _ _ EA) as (_ & HlA & HnA).
        destruct (I3 _ _ EB) as (_ & HlB & HnB).
        intros <-. pose proof (I2 _ _ _ HlA HlB) as Hname.
        destruct (Bool.bool_dec ndebug true) as [Hd|Hd%Bool.not_true_is_false].
        + by apply (Hnames Hd RA RB).
        + apply not_anonymous_translationUnit in HnA as [HtA HqA]; [|done].
          apply not_anonymous_translationUnit in HnB as [HtB HqB]; [|done].
          apply Hne. destruct A, B; simpl in *. congruence. }
    split; [done|]. unfold eqb. apply bool_decide_eq_false.
    destruct a, b; simpl. congruence.
  - intros D baseName baseUnit R. unfold get. by rewrite R.
  - intros A B a b s1 s2 s3 RA RB Hname HA Hl HB.
    assert (Hab : a = b).
    { destruct (get_preserves A s a s1 Hinv HA) as [Hinv1 _].
      destruct (later_inv_grows s1 s2 Hinv1 Hl) as [Hinv2 [_ Hg]].
      destruct (get_preserves B s2 b s3 Hinv2 HB) as [Hinv3 [_ Hg3]].
      destruct Hinv3 as (I1 & I2 & I3).
      destruct (get_result A s a s1 Hinv HA) as [[RA' _]|[_ EA]]; [done|].
      destruct (get_result B s2 b s3 Hinv2 HB) as [[RB' _]|[_ EB]]; [done|].
      apply Hg, Hg3 in EA.
      destruct (I3 _ _ EA) as (_ & HlA & _).
      destruct (I3 _ _ EB) as (_ & HlB & _).
      rewrite Hname in HlA. congruence. }
    split; [done|]. unfold eqb. apply bool_decide_eq_true. by rewrite Hab.
  - intros T R Hu. split; intros Hd.
    + apply get_returns. right. by left.
    + by apply get_refuses.
  - intros a b. unfold eqb. apply bool_decide_eq_true.
Qed.

End TypeIDProps.

(** Two types that resolve through the name-based fallback. *)
Definition ImplicitA : TypeID.CppType :=
  {| TypeID.qualifiedName := "ns::A"; TypeID.translationUnit := None;
     TypeID.resolution := TypeID.FallbackTypeID |}.
Definition ImplicitB : TypeID.CppType :=
  {| TypeID.qualifiedName := "ns::B"; TypeID.translationUnit := None;
     TypeID.resolution := TypeID.FallbackTypeID |}.

(** The state after [TypeID::get<ImplicitA>()] in a fresh process of a build
    with NDEBUG. *)
Definition afterImplicitA : TypeID.State :=
  match TypeID.get true ImplicitA TypeID.initial with
  | Ok (_, s) => s
  | _ => TypeID.initial
  end.

Lemma ImplicitA_ownIdentifier : ownIdentifier ImplicitA.
Proof. intros bn bu E. discriminate E. Qed.

Lemma ImplicitB_ownIdentifier : ownIdentifier ImplicitB.
Proof. intros bn bu E. discriminate E. Qed.

Lemma ImplicitAB_namesDiffer : namesDiffer true ImplicitA ImplicitB.
Proof. intros _ _ _ E. discriminate E. Qed.

Lemma TypeID_get_unique_witness :
  TypeID.get true ImplicitA afterImplicitA
    = Ok ({| TypeID.storage := TypeID.Allocated 0 |}, afterImplicitA)
  /\ {| TypeID.storage := TypeID.Allocated 0 |}
     <> {| TypeID.storage := TypeID.Allocated 1 |}.
Proof.
  assert (HA : TypeID.get true ImplicitA TypeID.initial
               = Ok ({| TypeID.storage := TypeID.Allocated 0 |}, afterImplicitA))
    by (vm_compute; reflexivity).
  assert (HB : TypeID.get true ImplicitB afterImplicitA
               = Ok ({| TypeID.storage := TypeID.Allocated 1 |},
                     match TypeID.get true ImplicitB afterImplicitA with
                     | Ok (_, s) => s
                     | _ => afterImplicitA
                     end))
    by (vm_compute; reflexivity).
  assert (Hne : ImplicitA <> ImplicitB) by (intros E; discriminate E).
  destruct (TypeID_get_unique true TypeID.initial (TypeID.reachable_initial true))
    as (Hsame & Hdistinct & _).
  split.
  - exact (Hsame ImplicitA _ _ HA afterImplicitA (TypeID.later_refl _ _)).
  - exact (proj1 (Hdistinct ImplicitA ImplicitB _ _ _ afterImplicitA _ Hne
                    ImplicitA_ownIdentifier ImplicitB_ownIdentifier
                    ImplicitAB_namesDiffer HA
                    (TypeID.later_refl _ _) HB)).
Defined.

(** A class that declares its identifier with the inline macro, and a class
    derived from it that declares none. *)
Definition BaseClass : TypeID.CppType := TypeID.declaringClass "Base" None.
Definition DerivedClass : TypeID.CppType :=
  {| TypeID.qualifiedName := "Derived"; TypeID.translationUnit := None;
     TypeID.resolution := TypeID.InheritedInlineTypeID "Base" None |}.

(** C6 as stated fails: [TypeID::get<Derived>()] and [TypeID::get<Base>()]
    return the same identifier although the types are distinct, in a build
    with assertions as in a build with NDEBUG. *)
Lemma TypeID_get_inherited_equal :
  BaseClass <> DerivedClass
  /\ TypeID.get false BaseClass TypeID.initial
     = Ok (TypeID.SelfOwningTypeID_getTypeID BaseClass, TypeID.initial)
  /\ TypeID.get false DerivedClass TypeID.initial
     = Ok (TypeID.SelfOwningTypeID_getTypeID BaseClass, TypeID.initial)
  /\ TypeID.get true BaseClass TypeID.initial
     = TypeID.get false BaseClass TypeID.initial
  /\ TypeID.get true DerivedClass TypeID.initial
     = TypeID.get false DerivedClass TypeID.initial
  /\ TypeID.eqb (TypeID.SelfOwningTypeID_getTypeID BaseClass)
                (TypeID.SelfOwningTypeID_getTypeID BaseClass) = true.
Proof.
  split; [intros E; discriminate E|]. split; [reflexivity|].
  split; [reflexivity|]. split; [reflexivity|]. split; [reflexivity|].
  vm_compute. reflexivity.
Qed.

(** A class [Local] of an anonymous namespace of the translation unit [u],
    left to the name-based fallback. *)
Definition LocalInUnit (u : nat) : TypeID.CppType :=
  {| TypeID.qualifiedName := "Local"; TypeID.translationUnit := Some u;
     TypeID.resolution := TypeID.FallbackTypeID |}.

(** In a build with NDEBUG the classes [Local] of two translation units get
    one identifier from the fallback; a build with assertions refuses the
    first request. *)
Lemma TypeID_get_anonymous_equal :
  LocalInUnit 1 <> LocalInUnit 2
  /\ (a <- TypeID.get true (LocalInUnit 1) ;;
      b <- TypeID.get true (LocalInUnit 2) ;;
      ret (a, b, TypeID.eqb a b)) TypeID.initial
     = Ok ({| TypeID.storage := TypeID.Allocated 0 |},
           {| TypeID.storage := TypeID.Allocated 0 |}, true,
           match (TypeID.get true (LocalInUnit 1) ;;;
                  TypeID.get true (LocalInUnit 2)) TypeID.initial with
           | Ok (_, s) => s
           | _ => TypeID.initial
           end)
  /\ TypeID.get false (LocalInUnit 1) TypeID.initial
     = AssertionFailure "TypeID::get<> used on a type of an anonymous namespace".
Proof.
  split; [intros E; discriminate E|].
  split; vm_compute; reflexivity.
Qed.

(** ** The cached instances *)

Lemma find_snoc {A} (f : A -> bool) (l : list A) (x : A) :
  List.find f (l ++ [x])
  = match List.find f l with
    | Some y => Some y
    | None => if f x then Some x else None
    end.
Proof.
  induction l as [|a l IH]; simpl; [done|].
  destruct (f a); [done|apply IH].
Qed.

(** The uniquer returns the canonical storage of the key and keeps every
    storage it already holds. *)
Lemma StorageUniquer_get_spec {K} `{EqDecision K} (key : K) (u : StorageUniquer K) :
  let '(s, u') := StorageUniquer_get key u in
  StorageUniquer_lookup key u' = Some s
  /\ (forall k s0, StorageUniquer_lookup k u = Some s0 ->
                   StorageUniquer_lookup k u' = Some s0)
  /\ (StorageUniquer_lookup key u = Some s -> u' = u)
  /\ threadingMode u' = threadingMode u.
Proof.
  unfold StorageUniquer_get.
  destruct (StorageUniquer_lookup key u) as [s|] eqn:E.
  - auto.
  - split; [|split; [|split]]; try done.
    + unfold StorageUniquer_lookup in *. simpl. rewrite find_snoc.
      destruct (List.find _ (storages u)); [discriminate|]. simpl.
      by rewrite bool_decide_eq_true_2.
    + intros k s0. unfold StorageUniquer_lookup. simpl. rewrite find_snoc.
      by destruct (List.find _ (storages u)).
Qed.

(** The cached type field holds the canonical storage of its key. *)
Definition typeCached (field : TypeField) (c : Context) : Prop :=
  is_Some (cachedTypes (uniquing c) field)
  /\ cachedTypes (uniquing c) field
     = StorageUniquer_lookup (typeFieldKey field) (typeUniquer (uniquing c)).

(** The key of a cached attribute: the boolean attributes are integer
    attributes of the cached [int1Ty]. *)
Definition attrFieldKey (field : AttrField) (c : Context) : AttrKey :=
  match field with
  | unknownLocAttr => UnknownLocKey
  | falseAttr => IntegerAttrKey (cachedTypes (uniquing c) int1Ty) false
  | trueAttr => IntegerAttrKey (cachedTypes (uniquing c) int1Ty) true
  | unitAttr => UnitAttrKey
  | emptyDictionaryAttr => DictionaryAttrKey
  | emptyStringAttr => StringAttrKey ""
  end.

(** The cached attribute field holds the canonical storage of its key. *)
Definition attrCached (field : AttrField) (c : Context) : Prop :=
  is_Some (cachedAttrs (uniquing c) field)
  /\ cachedAttrs (uniquing c) field
     = StorageUniquer_lookup (attrFieldKey field c) (attributeUniquer (uniquing c)).

Lemma attrFieldInit_eq field c :
  attrFieldInit field c = AttributeUniquer_get (attrFieldKey field c) c.
Proof. by destruct field. Qed.

Lemma initCachedField_type field c :
  exists c', initCachedField (TypeCache field) c = Ok (tt, c')
    /\ typeCached field c'
    /\ (forall g, typeCached g c -> typeCached g c')
    /\ attributeUniquer (uniquing c') = attributeUniquer (uniquing c)
    /\ cachedAttrs (uniquing c') = cachedAttrs (uniquing c).
Proof.
  unfold initCachedField, TypeUniquer_get, assign_cachedType.
  pose proof (StorageUniquer_get_spec (typeFieldKey field)
                (typeUniquer (uniquing c))) as Hspec.
  unfold bind.
  destruct (StorageUniquer_get (typeFieldKey field) (typeUniquer (uniquing c)))
    as [s u'] eqn:Eg.
  destruct Hspec as (Hl & Hkeep & _).
  eexists. split; [reflexivity|].
  unfold typeCached. simpl. split; [|split; [|done]].
  - rewrite decide_True by done. split; [by eexists|by rewrite Hl].
  - intros g [[x Hx] Hg]. destruct (decide (g = field)) as [->|Hne].
    + split; [by eexists|by rewrite Hl].
    + split; [by exists x|]. rewrite Hx. symmetry. apply Hkeep.
      by rewrite <- Hg.
Qed.

Lemma initCachedField_attr field c :
  exists c', initCachedField (AttrCache field) c = Ok (tt, c')
    /\ attrCached field c'
    /\ (forall g, attrCached g c -> attrCached g c')
    /\ typeUniquer (uniquing c') = typeUniquer (uniquing c)
    /\ cachedTypes (uniquing c') = cachedTypes (uniquing c).
Proof.
  unfold initCachedField. unfold bind at 1. rewrite attrFieldInit_eq.
  unfold AttributeUniquer_get, assign_cachedAttr.
  pose proof (StorageUniquer_get_spec (attrFieldKey field c)
                (attributeUniquer (uniquing c))) as Hspec.
  destruct (StorageUniquer_get (attrFieldKey field c)
              (attributeUniquer (uniquing c))) as [s u'] eqn:Eg.
  destruct Hspec as (Hl & Hkeep & _).
  eexists. split; [reflexivity|].
  unfold attrCached. simpl. split; [|split; [|done]].
  - rewrite decide_True by done. split; [by eexists|].
    replace (attrFieldKey field _) with (attrFieldKey field c)
      by (by destruct field).
    by rewrite Hl.
  - intros g [[x Hx] Hg].
    replace (attrFieldKey g _) with (attrFieldKey g c) by (by destruct g).
    destruct (decide (g = field)) as [->|Hne].
    + split; [by eexists|by rewrite Hl].
    + split; [by exists x|]. rewrite Hx. symmetry. apply Hkeep.
      by rewrite <- Hg.
Qed.

Lemma initCaches_app l1 l2 c :
  initCaches (l1 ++ l2) c = (initCaches l1 ;;; initCaches l2) c.
Proof.
  revert c. induction l1 as [|f l1 IH]; intros c; simpl; [done|].
  unfold bind at 1 2 3.
  destruct (initCachedField f c) as [[[] c']| | |]; [apply IH|done..].
Qed.

Lemma initCaches_types (fields : list TypeField) c :
  exists c', initCaches (TypeCache <$> fields) c = Ok (tt, c')
    /\ (forall f, f ∈ fields -> typeCached f c')
    /\ (forall g, typeCached g c -> typeCached g c')
    /\ attributeUniquer (uniquing c') = attributeUniquer (uniquing c)
    /\ cachedAttrs (uniquing c') = cachedAttrs (uniquing c).
Proof.
  revert c. induction fields as [|f fields IH]; intros c; simpl.
  - exists c. split; [done|]. split; [|done]. intros f Hf. by apply elem_of_nil in Hf.
  - destruct (initCachedField_type f c) as (c1 & Hrun & Hf & Hkeep & Hu & Ha).
    destruct (IH c1) as (c2 & Hrun2 & Hall & Hkeep2 & Hu2 & Ha2).
    exists c2. split; [by rewrite (bind_Ok _ _ _ _ _ Hrun)|].
    split; [|split; [|split]].
    + intros g Hg. apply elem_of_cons in Hg as [->|Hg]; auto.
    + auto.
    + congruence.
    + congruence.
Qed.

Lemma attrCached_frame g c c' :
  cachedTypes (uniquing c') = cachedTypes (uniquing c) ->
  attrFieldKey g c' = attrFieldKey g c.
Proof. intros H. destruct g; simpl; by rewrite ?H. Qed.

Lemma initCaches_attrs (fields : list AttrField) c :
  exists c', initCaches (AttrCache <$> fields) c = Ok (tt, c')
    /\ (forall f, f ∈ fields -> attrCached f c')
    /\ (forall g, attrCached g c -> attrCached g c')
    /\ typeUniquer (uniquing c') = typeUniquer (uniquing c)
    /\ cachedTypes (uniquing c') = cachedTypes (uniquing c).
Proof.
  revert c. induction fields as [|f fields IH]; intros c; simpl.
  - exists c. split; [done|]. split; [|done]. intros f Hf. by apply elem_of_nil in Hf.
  - destruct (initCachedField_attr f c) as (c1 & Hrun & Hf & Hkeep & Hu & Ha).
    destruct (IH c1) as (c2 & Hrun2 & Hall & Hkeep2 & Hu2 & Ha2).
    exists c2. split; [by rewrite (bind_Ok _ _ _ _ _ Hrun)|].
    split; [|split; [|split]].
    + intros g Hg. apply elem_of_cons in Hg as [->|Hg]; auto.
    + auto.
    + congruence.
    + congruence.
Qed.

(** The cached fields in the order of the constructor's assignments. *)
Definition cachedTypeFields : list TypeField :=
  [ f4E2M1FNTy; f6E2M3FNTy; f6E3M2FNTy; f8E5M2Ty; f8E4M3Ty; f8E4M3FNTy;
    f8E5M2FNUZTy; f8E4M3FNUZTy; f8E4M3B11FNUZTy; f8E3M4Ty; f8E8M0FNUTy;
    bf16Ty; f16Ty; tf32Ty; f32Ty; f64Ty; f80Ty; f128Ty; indexTy;
    int1Ty; int8Ty; int16Ty; int32Ty; int64Ty; int128Ty; noneType ].
Definition cachedAttrFields : list AttrField :=
  [ unknownLocAttr; falseAttr; trueAttr; unitAttr; emptyDictionaryAttr;
    emptyStringAttr ].

Lemma constructorCacheOrder_split :
  constructorCacheOrder
  = (TypeCache <$> cachedTypeFields) ++ (AttrCache <$> cachedAttrFields).
Proof. reflexivity. Qed.

Lemma cachedTypeFields_complete (f : TypeField) : f ∈ cachedTypeFields.
Proof. destruct f; unfold cachedTypeFields; set_solver. Qed.

Lemma cachedAttrFields_complete (f : AttrField) : f ∈ cachedAttrFields.
Proof. destruct f; unfold cachedAttrFields; set_solver. Qed.

(** The state the cache initialisation of the constructor leaves, from any
    state it starts in. *)
Lemma initCaches_constructor c :
  exists c', initCaches constructorCacheOrder c = Ok (tt, c')
    /\ (forall f, typeCached f c') /\ (forall f, attrCached f c').
Proof.
  rewrite constructorCacheOrder_split, initCaches_app.
  destruct (initCaches_types cachedTypeFields c) as (c1 & Hrun1 & Ht & _).
  destruct (initCaches_attrs cachedAttrFields c1) as (c2 & Hrun2 & Ha & _ & Hu & Hc).
  exists c2. split; [by rewrite (bind_Ok _ _ _ _ _ Hrun1)|]. split.
  - intros f. destruct (Ht f (cachedTypeFields_complete f)) as [H1 H2].
    unfold typeCached. by rewrite Hu, Hc.
  - intros f. apply Ha, cachedAttrFields_complete.
Qed.

Lemma constructorCacheOrder_types_first i j tf af :
  constructorCacheOrder !! i = Some (TypeCache tf) ->
  constructorCacheOrder !! j = Some (AttrCache af) ->
  (i < j)%nat.
Proof.
  rewrite constructorCacheOrder_split. intros Hi Hj.
  apply lookup_app_Some in Hi as [Hi|[_ Hi]]; cycle 1.
  { rewrite list_lookup_fmap in Hi.
    destruct (cachedAttrFields !! _); discriminate. }
  apply lookup_app_Some in Hj as [Hj|[Hj _]].
  { rewrite list_lookup_fmap in Hj.
    destruct (cachedTypeFields !! _); discriminate. }
  apply lookup_lt_Some in Hi. lia.
Qed.

(** The widths for which the constructor caches a signless integer type. *)
Definition cachedIntegerWidths : list (Z * TypeField) :=
  [ (1, int1Ty); (8, int8Ty); (16, int16Ty); (32, int32Ty); (64, int64Ty);
    (128, int128Ty) ].

Lemma IntegerType_get_cached width field c :
  (width, field) ∈ cachedIntegerWidths ->
  is_Some (cachedTypes (uniquing c) field) ->
  getCachedIntegerType width Signless c = cachedTypes (uniquing c) field
  /\ IntegerType_get width Signless c = Ok (cachedTypes (uniquing c) field, c).
Proof.
  intros Hin [s Hs]. unfold IntegerType_get.
  assert (Hc : getCachedIntegerType width Signless c
               = cachedTypes (uniquing c) field).
  { unfold cachedIntegerWidths in Hin.
    repeat (apply elem_of_cons in Hin as [[= -> ->]|Hin]; [reflexivity|]).
    by apply elem_of_nil in Hin. }
  by rewrite Hc, Hs.
Qed.

Lemma getCachedIntegerType_not_signless width signedness c :
  signedness <> Signless ->
  getCachedIntegerType width signedness c = None.
Proof.
  intros H. unfold getCachedIntegerType. by rewrite bool_decide_eq_true_2.
Qed.

(** C4.  (a) The constructor assigns every cached type and attribute field
    exactly once, and every type field before any attribute field.
    (b) In a context the constructor has returned, every cached field holds
    a non-null instance, the canonical one of the uniquer for its key (the
    boolean attributes being integer attributes of the cached [int1Ty]);
    the accessors return these cached instances, and [IntegerType::get] for
    a cached signless width and [NoneType::get] return them with the
    context, its uniquers included, unchanged.  (c) For a signedness other
    than [Signless], [getCachedIntegerType] returns null whatever the width,
    and [IntegerType::get] goes to the uniquer. *)
Theorem cached_instances :
  (NoDup constructorCacheOrder
   /\ (forall f, TypeCache f ∈ constructorCacheOrder)
   /\ (forall f, AttrCache f ∈ constructorCacheOrder)
   /\ (forall i j tf af,
         constructorCacheOrder !! i = Some (TypeCache tf) ->
         constructorCacheOrder !! j = Some (AttrCache af) -> (i < j)%nat))
  /\ (forall env BuiltinDialect registry setting h c,
        create env BuiltinDialect registry setting h = Ok (tt, c) ->
        (forall f, typeCached f c)
        /\ (forall f, attrCached f c)
        /\ (forall f, cachedTypeGetter f c
              = StorageUniquer_lookup (typeFieldKey f) (typeUniquer (uniquing c)))
        /\ (forall width field, (width, field) ∈ cachedIntegerWidths ->
              IntegerType_get width Signless c
              = Ok (cachedTypes (uniquing c) field, c))
        /\ NoneType_get c = Ok (cachedTypes (uniquing c) noneType, c)
        /\ (forall value,
              BoolAttr_get value c
              = StorageUniquer_lookup
                  (IntegerAttrKey (cachedTypes (uniquing c) int1Ty) value)
                  (attributeUniquer (uniquing c)))
        /\ UnitAttr_get c
           = StorageUniquer_lookup UnitAttrKey (attributeUniquer (uniquing c))
        /\ DictionaryAttr_getEmpty c
           = StorageUniquer_lookup DictionaryAttrKey
               (attributeUniquer (uniquing c)))
  /\ (forall width signedness c,
        signedness <> Signless ->
        getCachedIntegerType width signedness c = None
        /\ IntegerType_get width signedness c
           = TypeUniquer_get (IntegerTypeKey width signedness) c).
Proof.
  split; [|split].
  - split; [|split; [|split]].
    + apply (bool_decide_unpack _). vm_compute. exact I.
    + intros f. rewrite constructorCacheOrder_split. apply elem_of_app. left.
      apply list_elem_of_fmap. exists f. split; [done|].
      apply cachedTypeFields_complete.
    + intros f. rewrite constructorCacheOrder_split. apply elem_of_app. right.
      apply list_elem_of_fmap. exists f. split; [done|].
      apply cachedAttrFields_complete.
    + apply constructorCacheOrder_types_first.
  - intros env BuiltinDialect registry setting h c H.
    unfold create, constructorBody in H.
    apply bind_Ok_inv in H as ([] & c1 & _ & H).
    cbn [bind modify] in H.
    apply bind_Ok_inv in H as (d & c2 & _ & H).
    apply bind_Ok_inv in H as ([] & c3 & Hinit & H).
    destruct (initCaches_constructor c2) as (c3' & Hrun & Ht & Ha).
    rewrite Hrun in Hinit. injection Hinit as ->.
    unfold registerAffineStorageTypes, modify in H. injection H as <-.
    assert (Ht' : forall f, typeCached f
              (set_uniquing (fun q =>
                 {| affineUniquer := affineUniquer q;
                    affineStorageTypes :=
                      affineStorageTypes q ++
                      [AffineBinaryOpExprStorage; AffineConstantExprStorage;
                       AffineDimExprStorage; AffineMapStorage; IntegerSetStorage];
                    typeUniquer := typeUniquer q;
                    cachedTypes := cachedTypes q;
                    attributeUniquer := attributeUniquer q;
                    cachedAttrs := cachedAttrs q |}) c3)) by apply Ht.
    assert (Ha' : forall f, attrCached f
              (set_uniquing (fun q =>
                 {| affineUniquer := affineUniquer q;
                    affineStorageTypes :=
                      affineStorageTypes q ++
                      [AffineBinaryOpExprStorage; AffineConstantExprStorage;
                       AffineDimExprStorage; AffineMapStorage; IntegerSetStorage];
                    typeUniquer := typeUniquer q;
                    cachedTypes := cachedTypes q;
                    attributeUniquer := attributeUniquer q;
                    cachedAttrs := cachedAttrs q |}) c3)).
    { intros f. destruct (Ha f) as [H1 H2]. split; [exact H1|].
      rewrite (attrCached_frame f c3) by reflexivity. exact H2. }
    clear Ht Ha. revert Ht' Ha'.
    generalize (set_uniquing (fun q =>
                 {| affineUniquer := affineUniquer q;
                    affineStorageTypes :=
                      affineStorageTypes q ++
                      [AffineBinaryOpExprStorage; AffineConstantExprStorage;
                       AffineDimExprStorage; AffineMapStorage; IntegerSetStorage];
                    typeUniquer := typeUniquer q;
                    cachedTypes := cachedTypes q;
                    attributeUniquer := attributeUniquer q;
                    cachedAttrs := cachedAttrs q |}) c3) as c.
    clear Hrun. intros c Ht Ha. split; [done|]. split; [done|].
    split; [|split; [|split; [|split; [|split]]]].
    + intros f. apply Ht.
    + intros width field Hin.
      apply IntegerType_get_cached; [done|apply Ht].
    + unfold NoneType_get. destruct (Ht noneType) as [[s Hs] _]. by rewrite Hs.
    + intros value. unfold BoolAttr_get.
      destruct value; [apply (Ha trueAttr)|apply (Ha falseAttr)].
    + apply (Ha unitAttr).
    + apply (Ha emptyDictionaryAttr).
  - intros width signedness c Hs.
    pose proof (getCachedIntegerType_not_signless width signedness c Hs) as Hn.
    split; [done|]. unfold IntegerType_get. by rewrite Hn.
Qed.

(** The builtin dialect as a plain class, for the sample below. *)
Definition sampleBuiltinDialect : DialectClass := plainDialect "builtin" idX.

(** A context built by the constructor in an empty heap. *)
Definition sampleContext : Context :=
  match create (quietEnv false) sampleBuiltinDialect DialectRegistry.empty
          DISABLED emptyHeap with
  | Ok (_, c) => c
  | _ => freshContext
  end.

Lemma cached_instances_witness :
  IntegerType_get 32 Signless sampleContext
    = Ok (cachedTypes (uniquing sampleContext) int32Ty, sampleContext)
  /\ cachedTypes (uniquing sampleContext) int32Ty = Some 22%nat
  /\ IntegerType_get 32 Signed sampleContext
     = TypeUniquer_get (IntegerTypeKey 32 Signed) sampleContext.
Proof.
  assert (H : create (quietEnv false) sampleBuiltinDialect DialectRegistry.empty
                DISABLED emptyHeap = Ok (tt, sampleContext))
    by (vm_compute; reflexivity).
  assert (Hin : (32, int32Ty) ∈ cachedIntegerWidths)
    by (apply list_elem_of_In; simpl; auto 10).
  assert (Hne : Signed <> Signless) by (intros E; discriminate E).
  split; [|split].
  - exact (proj1 (proj2 (proj2 (proj2
             (proj1 (proj2 cached_instances) _ _ _ _ _ _ H)))) 32 int32Ty Hin).
  - vm_compute. reflexivity.
  - exact (proj2 (proj2 (proj2 cached_instances) 32 Signed sampleContext Hne)).
Defined.

(** ** Operations *)

Section OperationProps.
Import Operation.

Definition entryAt (addr : Z) (m : Memory) : option (Z * Z * Object) :=
  List.find (fun e : Z * Z * Object => fst (fst e) =? addr) m.



Lemma find_some_fst addr m e :
  entryAt addr m = Some e -> fst (fst e) = addr.
Proof.
  unfold entryAt. intros H. apply List.find_some in H as [_ H]. lia.
Qed.





Lemma unsigned_small x : 0 <= x < 2 ^ 32 -> unsigned x = x.
Proof. intros H. unfold unsigned, wrap. by apply Z.mod_small. Qed.

Lemma unsigned_pred_succ x :
  0 <= x < 2 ^ 32 -> unsigned (unsigned (x - 1) + 1) = x.
Proof.
  intros H. unfold unsigned, wrap.
  rewrite Z.add_mod_idemp_l by lia.
  replace (x - 1 + 1) with x by lia. by apply Z.mod_small.
Qed.

(** The platform is sane: objects have a size and the inline capacity is an
    [unsigned]. *)
Definition sane (pf : Platform) : Prop :=
  0 < sizeofOperation pf /\ 0 < sizeofInlineOpResult pf
  /\ 0 < sizeofOutOfLineOpResult pf /\ 0 <= maxInlineResults pf < 2 ^ 32.

(** Where [create] constructs the result with number [i], and what it
    constructs there. *)
Definition resultEntry (pf : Platform) (op : Z) (i : Z) (type : Builtin.Type_)
    : Z * Z * Object :=
  if i <? maxInlineResults pf
  then (getInlineOpResult pf op i, sizeofInlineOpResult pf, InlineOpResult type i)
  else (getOutOfLineOpResult pf op (i - maxInlineResults pf),
        sizeofOutOfLineOpResult pf,
        OutOfLineOpResult type (i - maxInlineResults pf)).

Lemma resultEntry_range pf op i type :
  sane pf -> 0 <= i < 2 ^ 32 - 1 ->
  let e := resultEntry pf op i type in
  0 < snd (fst e)
  /\ fst (fst e) + snd (fst e) <= op
  /\ (i < maxInlineResults pf ->
        fst (fst e) = op - sizeofInlineOpResult pf * (i + 1)
        /\ snd (fst e) = sizeofInlineOpResult pf)
  /\ (maxInlineResults pf <= i ->
        fst (fst e) = op - sizeofInlineOpResult pf * maxInlineResults pf
                      - sizeofOutOfLineOpResult pf * (i - maxInlineResults pf + 1)
        /\ snd (fst e) = sizeofOutOfLineOpResult pf).
Proof.
  intros (HsO & HsI & HsT & Hmax) Hi. unfold resultEntry.
  destruct (i <? maxInlineResults pf) eqn:E; simpl.
  - apply Z.ltb_lt in E. unfold getInlineOpResult.
    rewrite unsigned_small by lia.
    split; [done|]. split; [nia|]. split; [done|lia].
  - apply Z.ltb_ge in E. unfold getOutOfLineOpResult, getInlineOpResult.
    rewrite unsigned_pred_succ by lia.
    rewrite (unsigned_small (i - maxInlineResults pf + 1)) by lia.
    split; [done|]. split; [nia|]. split; [lia|done].
Qed.

Lemma resultEntry_disjoint pf op i j ti tj :
  sane pf -> 0 <= i -> i < j -> j < 2 ^ 32 - 1 ->
  overlaps (fst (fst (resultEntry pf op j tj))) (snd (fst (resultEntry pf op j tj)))
           (resultEntry pf op i ti) = false.
Proof.
  intros Hsane Hi Hij Hj.
  destruct (resultEntry_range pf op i ti Hsane) as (Hpi & _ & Hii & Hio); [lia|].
  destruct (resultEntry_range pf op j tj Hsane) as (Hpj & _ & Hji & Hjo); [lia|].
  cbv zeta in *.
  destruct (resultEntry pf op i ti) as [[ai si] oi].
  destruct (resultEntry pf op j tj) as [[aj sj] oj]. simpl in *.
  destruct Hsane as (HsO & HsI & HsT & Hmax).
  apply andb_false_iff. left. apply Z.ltb_ge.
  destruct (Z_lt_le_dec j (maxInlineResults pf)) as [Hjm|Hjm].
  - destruct Hji as [-> ->]; [done|]. destruct Hii as [-> ->]; [lia|]. nia.
  - destruct Hjo as [-> ->]; [done|].
    destruct (Z_lt_le_dec i (maxInlineResults pf)) as [Him|Him].
    + destruct Hii as [-> ->]; [done|]. nia.
    + destruct Hio as [-> ->]; [done|]. nia.
Qed.



End OperationProps.

(** A 64-bit platform: two pointers per inline result, three per
    out-of-line result, six inline results. *)
Definition samplePlatform : Operation.Platform :=
  {| Operation.NDEBUG := false;
     Operation.sizeofOperation := 64;
     Operation.sizeofInlineOpResult := 16;
     Operation.sizeofOutOfLineOpResult := 24;
     Operation.maxInlineResults := 6 |}.

Lemma samplePlatform_sane : sane samplePlatform.
Proof. unfold sane, samplePlatform; simpl. lia. Qed.

(** Eight result types: the storages 0 to 7 of a type uniquer. *)
Definition sampleResultTypes : list Type_ :=
  [Some 0; Some 1; Some 2; Some 3; Some 4; Some 5; Some 6; Some 7]%nat.


(* ===================================================================== *)
(** * Part III.  Properties of the further functions                      *)
(* ===================================================================== *)

Import ContextOptions.

(** ** Option flags and the multi-threaded execution region *)

Lemma assert_multiThreaded env c msg :
  NDEBUG env = false -> multiThreadedExecutionContext (threads c) <> 0 ->
  assert (S := Context) (NDEBUG env)
         (multiThreadedExecutionContext (threads c) =? 0) msg c
  = AssertionFailure msg.
Proof.
  intros -> H. unfold assert. apply Z.eqb_neq in H. by rewrite H.
Qed.

Lemma assert_holds {S} ndebug cond msg (s : S) :
  ndebug = true \/ cond = true -> assert ndebug cond msg s = Ok (tt, s).
Proof. unfold assert. intros [->| ->]; [done|]. by destruct ndebug. Qed.

(** X1.  Each of the three option setters, called outside a multi-threaded
    execution region (or in a build with NDEBUG), returns, makes its getter
    return the value set, and leaves the two other flags and the rest of the
    context as they were.  In a build with assertions, called inside such a
    region, each of them trips its assertion. *)
Theorem option_flags_round_trip :
  forall (env : Env) (c : Context) (b : bool),
    (singleThreaded env c ->
       (exists c1, allowUnregisteredDialects env b c = Ok (tt, c1)
          /\ allowsUnregisteredDialects c1 = b
          /\ shouldPrintOpOnDiagnostic c1 = shouldPrintOpOnDiagnostic c
          /\ shouldPrintStackTraceOnDiagnostic c1
             = shouldPrintStackTraceOnDiagnostic c
          /\ threads c1 = threads c /\ dialects c1 = dialects c
          /\ uniquing c1 = uniquing c /\ heap c1 = heap c)
       /\ (exists c1, printOpOnDiagnostic env b c = Ok (tt, c1)
          /\ shouldPrintOpOnDiagnostic c1 = b
          /\ allowsUnregisteredDialects c1 = allowsUnregisteredDialects c
          /\ shouldPrintStackTraceOnDiagnostic c1
             = shouldPrintStackTraceOnDiagnostic c
          /\ threads c1 = threads c /\ dialects c1 = dialects c
          /\ uniquing c1 = uniquing c /\ heap c1 = heap c)
       /\ (exists c1, printStackTraceOnDiagnostic env b c = Ok (tt, c1)
          /\ shouldPrintStackTraceOnDiagnostic c1 = b
          /\ allowsUnregisteredDialects c1 = allowsUnregisteredDialects c
          /\ shouldPrintOpOnDiagnostic c1 = shouldPrintOpOnDiagnostic c
          /\ threads c1 = threads c /\ dialects c1 = dialects c
          /\ uniquing c1 = uniquing c /\ heap c1 = heap c))
    /\ (NDEBUG env = false ->
        multiThreadedExecutionContext (threads c) <> 0 ->
        returns (allowUnregisteredDialects env b c) = false
        /\ returns (printOpOnDiagnostic env b c) = false
        /\ returns (printStackTraceOnDiagnostic env b c) = false).
Proof.
  intros env c b. split.
  - intros Hs.
    unfold allowUnregisteredDialects, printOpOnDiagnostic,
      printStackTraceOnDiagnostic, set_printOpOnDiagnostic,
      set_printStackTraceOnDiagnostic.
    rewrite !(bind_Ok _ _ _ _ _ (assert_singleThreaded _ _ _ Hs)).
    cbn [modify]. repeat split; eexists; (split; [reflexivity|]); by simpl.
  - intros Hd Hm.
    unfold allowUnregisteredDialects, printOpOnDiagnostic,
      printStackTraceOnDiagnostic, set_printOpOnDiagnostic,
      set_printStackTraceOnDiagnostic, bind.
    by rewrite !assert_multiThreaded.
Qed.

Lemma option_flags_round_trip_witness :
  exists c1, allowUnregisteredDialects (quietEnv false) true freshContext
             = Ok (tt, c1)
    /\ allowsUnregisteredDialects c1 = true.
Proof.
  destruct (proj1 (option_flags_round_trip (quietEnv false) freshContext true))
    as [(c1 & H1 & H2 & _) _].
  - right. reflexivity.
  - exists c1. by split.
Defined.

Lemma Context_eta (c : Context) :
  {| options := options c; threads := threads c; dialects := dialects c;
     uniquing := uniquing c; heap := heap c |} = c.
Proof. by destruct c. Qed.

(** The counter of open regions holds a value of its type [int]. *)
Definition counterIsInt (c : Context) : Prop :=
  - 2 ^ 31 <= multiThreadedExecutionContext (threads c) < 2 ^ 31.

Lemma wrap_int_range x : - 2 ^ 31 <= wrap_int x < 2 ^ 31.
Proof.
  unfold wrap_int.
  pose proof (Z.mod_pos_bound (x + 2 ^ 31) (2 ^ 32) ltac:(lia)). lia.
Qed.

Lemma wrap_int_small x : - 2 ^ 31 <= x < 2 ^ 31 -> wrap_int x = x.
Proof. intros H. unfold wrap_int. rewrite Z.mod_small; lia. Qed.

Lemma wrap_int_succ_pred x :
  - 2 ^ 31 <= x < 2 ^ 31 -> wrap_int (wrap_int (x + 1) + -1) = x.
Proof.
  intros H. destruct (Z.eq_dec x (2 ^ 31 - 1)) as [->|Hne].
  - vm_compute. reflexivity.
  - rewrite (wrap_int_small (x + 1)) by lia.
    replace (x + 1 + -1) with x by lia. by apply wrap_int_small.
Qed.

Lemma enter_exit_balanced env c :
  counterIsInt c ->
  (enterMultiThreadedExecution env ;;; exitMultiThreadedExecution env) c
  = Ok (tt, c).
Proof.
  unfold counterIsInt, enterMultiThreadedExecution,
    exitMultiThreadedExecution, add_multiThreadedExecutionContext.
  intros Hint.
  destruct (NDEBUG env); cbn [bind ret modify]; [done|].
  destruct_context c. unfold set_threads, modify. simpl in *.
  by rewrite wrap_int_succ_pred.
Qed.

(** X2.  The multi-threaded execution region.  Leaving the region after
    entering it restores the context, and in a build with NDEBUG entering
    changes nothing.  In a build with assertions, entering adds one to the
    [int] counter of open regions and changes nothing else: the counter
    counts nested regions up, and wraps around from [INT_MAX] to [INT_MIN].
    In a build with assertions, in any context whose counter is not zero
    (inside a region, nested or not): loading a dialect that is not in the
    table is a fatal error whatever the constructor callback is, while a
    loaded dialect is still returned; [disableMultithreading] (unless
    threading is globally disabled) and [appendDialectRegistry] with a
    registry that is not a subset trip their assertions. *)
Theorem multithreaded_execution_region :
  forall (env : Env) (c : Context),
    counterIsInt c ->
    (enterMultiThreadedExecution env ;;; exitMultiThreadedExecution env) c
      = Ok (tt, c)
    /\ (NDEBUG env = true -> enterMultiThreadedExecution env c = Ok (tt, c))
    /\ (NDEBUG env = false ->
        exists c1,
          enterMultiThreadedExecution env c = Ok (tt, c1)
          /\ counterIsInt c1
          /\ multiThreadedExecutionContext (threads c1)
             = wrap_int (multiThreadedExecutionContext (threads c) + 1)
          /\ (0 <= multiThreadedExecutionContext (threads c) < 2 ^ 31 - 1 ->
              multiThreadedExecutionContext (threads c1)
              = multiThreadedExecutionContext (threads c) + 1)
          /\ (multiThreadedExecutionContext (threads c) = 2 ^ 31 - 1 ->
              multiThreadedExecutionContext (threads c1) = - 2 ^ 31)
          /\ (multiThreadedExecutionContext (threads c) <> -1 ->
              multiThreadedExecutionContext (threads c1) <> 0)
          /\ threadingIsEnabled (threads c1) = threadingIsEnabled (threads c)
          /\ threadPool (threads c1) = threadPool (threads c)
          /\ ownedThreadPool (threads c1) = ownedThreadPool (threads c)
          /\ options c1 = options c /\ dialects c1 = dialects c
          /\ uniquing c1 = uniquing c /\ heap c1 = heap c)
    /\ (NDEBUG env = false ->
        multiThreadedExecutionContext (threads c) <> 0 ->
        (forall ns id ctor,
           loadedDialects (dialects c) !! ns = None ->
           getOrLoadDialect env ns id ctor c
           = FatalError
               ("Loading a dialect (" +:+ ns +:+
                ") while in a multi-threaded execution context (maybe the PassManager): this can indicate a missing `dependentDialects` in a pass for example."))
        /\ (forall ns ctor d,
              loadedDialects (dialects c) !! ns = Some (Some d) ->
              getOrLoadDialect env ns (Dialect.getTypeID d) ctor c
              = Ok (Some d, c))
        /\ (forall disable,
              isThreadingGloballyDisabled env = false ->
              returns (disableMultithreading env disable c) = false)
        /\ (forall registry,
              DialectRegistry.isSubsetOf registry
                (dialectsRegistry (dialects c)) = false ->
              returns (appendDialectRegistry env registry c) = false)).
Proof.
  intros env c Hint. split; [by apply enter_exit_balanced|]. split; [|split].
  - intros Hn. unfold enterMultiThreadedExecution,
      add_multiThreadedExecutionContext. by rewrite Hn.
  - intros Hd.
    unfold enterMultiThreadedExecution, add_multiThreadedExecutionContext.
    rewrite Hd. cbn [modify]. eexists. split; [reflexivity|].
    unfold counterIsInt in *. simpl.
    split; [apply wrap_int_range|]. split; [reflexivity|].
    split; [intros H; apply wrap_int_small; lia|].
    split; [intros ->; vm_compute; reflexivity|].
    split; [|done].
    intros Hne. destruct (Z.eq_dec (multiThreadedExecutionContext (threads c))
                            (2 ^ 31 - 1)) as [->|Hmax].
    + vm_compute. discriminate.
    + rewrite wrap_int_small; lia.
  - intros Hd Hm. split; [|split; [|split]].
    + intros ns id ctor Hns. unfold getOrLoadDialect. rewrite Hns.
      cbn [bind modify gets ret]. rewrite Hd. simpl.
      apply Z.eqb_neq in Hm. by rewrite Hm.
    + intros ns ctor d Hns.
      rewrite (getOrLoadDialect_present _ _ _ _ _ d) by exact Hns.
      assert (E : TypeID.neqb (Dialect.getTypeID d) (Dialect.getTypeID d) = false)
        by by apply TypeID_neqb_false.
      by rewrite E.
    + intros disable Hg. unfold disableMultithreading. rewrite Hg. unfold bind.
      by rewrite assert_multiThreaded.
    + intros registry Hsub. unfold appendDialectRegistry. rewrite Hsub. unfold bind.
      by rewrite assert_multiThreaded.
Qed.

Lemma testLoaded_counterIsInt : counterIsInt testLoaded.
Proof. unfold counterIsInt. simpl. lia. Qed.

Lemma multithreaded_execution_region_witness :
  exists c1,
    enterMultiThreadedExecution (quietEnv false) testLoaded = Ok (tt, c1)
    /\ aborts (getOrLoadDialectT (quietEnv false) (plainDialect "other" idY) c1)
       = true
    /\ getOrLoadDialectT (quietEnv false) (plainDialect "test" idX) c1
       = Ok (Some testDialect, c1).
Proof.
  destruct (proj1 (proj2 (proj2 (multithreaded_execution_region (quietEnv false)
                            testLoaded testLoaded_counterIsInt))) eq_refl)
    as (c1 & H1 & Hint & _ & _ & _ & Hne & _ & _ & _ & _ & Hdialects & _).
  destruct (proj2 (proj2 (proj2 (multithreaded_execution_region (quietEnv false)
                            c1 Hint))) eq_refl (Hne ltac:(simpl; lia)))
    as (H2 & H3 & _).
  exists c1. split; [exact H1|]. split.
  - unfold getOrLoadDialectT. rewrite H2; [reflexivity|].
    rewrite Hdialects. reflexivity.
  - apply (H3 "test" _ testDialect). rewrite Hdialects. reflexivity.
Defined.

(** ** The thread pool pointers *)

(** What the constructor establishes and the threading functions keep: a
    context with threading enabled has a pool; a pool the context owns is the
    pool it uses; the pool in use and the pool owned are alive. *)
Definition poolInvariant (c : Context) : Prop :=
  (threadingIsEnabled (threads c) = true -> is_Some (threadPool (threads c)))
  /\ (forall p, ownedThreadPool (threads c) = Some p ->
                threadPool (threads c) = Some p)
  /\ (forall p, threadPool (threads c) = Some p -> p ∈ threadPools (heap c)).

Lemma assert_Ok_inv {S} ndebug cond msg (s : S) u s' :
  assert ndebug cond msg s = Ok (u, s') -> s' = s /\ (ndebug = true \/ cond = true).
Proof.
  unfold assert. destruct ndebug; [intros [= <- <-]; auto|].
  destruct cond; [intros [= <- <-]; auto|discriminate].
Qed.

Lemma poolInvariant_new b h : poolInvariant (MLIRContextImpl_new b h).
Proof.
  unfold poolInvariant, MLIRContextImpl_new. destruct b; simpl.
  - split; [eauto|]. split; [done|]. intros p [= <-]. set_solver.
  - split; [done|]. split; done.
Qed.

Lemma disableMultithreading_poolInvariant env disable c c' :
  poolInvariant c ->
  disableMultithreading env disable c = Ok (tt, c') ->
  poolInvariant c'.
Proof.
  unfold disableMultithreading.
  destruct (isThreadingGloballyDisabled env); [by intros ? [= <-]|].
  intros (I1 & I2 & I3) H.
  apply bind_Ok_inv in H as ([] & c0 & Ha & H).
  apply assert_Ok_inv in Ha as [-> _].
  destruct_context c. revert H.
  cbn [bind modify gets ret assign_threadingIsEnabled uniquers_disableMultithreading].
  simpl.
  destruct disable.
  - destruct ownedThreadPool0 as [q|].
    + intros H. apply bind_Ok_inv in H as ([] & c0 & Ha & H).
      apply assert_Ok_inv in Ha as [-> _].
      revert H. run_threads. intros [= <-]. unfold poolInvariant. simpl.
      split; [done|]. split; done.
    + cbn [ret]. intros [= <-]. unfold poolInvariant. simpl.
      split; [done|]. split; [done|]. exact I3.
  - destruct threadPool0 as [q|].
    + cbn [ret]. intros [= <-]. unfold poolInvariant. simpl.
      split; [eauto|]. split; [exact I2|exact I3].
    + intros H. apply bind_Ok_inv in H as ([] & c0 & Ha & H).
      apply assert_Ok_inv in Ha as [-> _].
      revert H. run_threads.
      destruct ownedThreadPool0 as [q|]; [by specialize (I2 q eq_refl)|].
      intros [= <-]. unfold poolInvariant. simpl.
      split; [eauto|]. split; [done|]. intros p [= <-]. set_solver.
Qed.

Lemma disableMultithreading_returns env disable c :
  poolInvariant c -> singleThreaded env c ->
  returns (disableMultithreading env disable c) = true.
Proof.
  intros (I1 & I2 & I3) Hs. unfold disableMultithreading.
  destruct (isThreadingGloballyDisabled env); [done|].
  rewrite (bind_Ok _ _ _ _ _ (assert_singleThreaded _ _ _ Hs)).
  destruct_context c.
  cbn [bind modify gets ret assign_threadingIsEnabled uniquers_disableMultithreading].
  simpl.
  destruct disable.
  - destruct ownedThreadPool0 as [q|]; [|done].
    rewrite (I2 q eq_refl).
    erewrite bind_Ok; [|apply assert_true]. by run_threads.
  - destruct threadPool0 as [q|]; [done|].
    destruct ownedThreadPool0 as [q|]; [by specialize (I2 q eq_refl)|].
    erewrite bind_Ok; [|apply assert_true]. by run_threads.
Qed.

Lemma setThreadPool_poolInvariant env pool c c' :
  poolInvariant c ->
  pool ∈ threadPools (heap c) -> ownedThreadPool (threads c) <> Some pool ->
  setThreadPool env pool c = Ok (tt, c') ->
  poolInvariant c'.
Proof.
  intros (I1 & I2 & I3) Hpool Hne H. unfold setThreadPool in H.
  apply bind_Ok_inv in H as ([] & c0 & Ha & H).
  apply assert_Ok_inv in Ha as [-> _].
  unfold enableMultithreading in H.
  apply bind_Ok_inv in H as ([] & c1 & H1 & H).
  apply bind_Ok_inv in H as ([] & c2 & H2 & H).
  apply (disableMultithreading_poolInvariant _ _ _ _) in H; [done|].
  revert H1 H2. destruct_context c. run_threads. intros [= <-].
  destruct ownedThreadPool0 as [q|]; simpl; intros [= <-];
    unfold poolInvariant; simpl.
  - split; [eauto|]. split; [done|]. intros p [= <-]. set_solver.
  - split; [eauto|]. split; [done|]. by intros p [= <-].
Qed.

(** X3.  The pool pointers stay consistent.  [MLIRContextImpl]'s constructor
    establishes, and [disableMultithreading], [enableMultithreading] and
    [setThreadPool] (given a live pool that is not the context's own) keep:
    threading enabled implies a pool is set, an owned pool is the pool in
    use, the pool in use is alive.  On such a context, outside a
    multi-threaded execution region, [disableMultithreading] always returns:
    its two assertions on the pool pointers cannot fail. *)
Theorem thread_pool_invariant :
  (forall b h, poolInvariant (MLIRContextImpl_new b h))
  /\ (forall env disable c c',
        poolInvariant c -> disableMultithreading env disable c = Ok (tt, c') ->
        poolInvariant c')
  /\ (forall env enable c c',
        poolInvariant c -> enableMultithreading env enable c = Ok (tt, c') ->
        poolInvariant c')
  /\ (forall env pool c c',
        poolInvariant c -> pool ∈ threadPools (heap c) ->
        ownedThreadPool (threads c) <> Some pool ->
        setThreadPool env pool c = Ok (tt, c') -> poolInvariant c')
  /\ (forall env disable c,
        poolInvariant c -> singleThreaded env c ->
        returns (disableMultithreading env disable c) = true).
Proof.
  split; [apply poolInvariant_new|].
  split; [apply disableMultithreading_poolInvariant|].
  split; [intros env enable; apply disableMultithreading_poolInvariant|].
  split; [apply setThreadPool_poolInvariant|].
  apply disableMultithreading_returns.
Qed.

(** X4.  On a context that satisfies the pool invariant, [getThreadPool]
    called with multithreading enabled returns the pool in use, which is
    alive, and [getNumThreads] never fails: it returns 1 when multithreading
    is disabled and the concurrency of the pool in use otherwise.  Neither
    changes the context.  With multithreading disabled, [getThreadPool] trips
    its assertion in a build with assertions. *)
Theorem thread_pool_access :
  forall (env : Env) (getMaxConcurrency : nat -> Z) (c : Context),
    poolInvariant c ->
    (isMultithreadingEnabled env c = true ->
       exists pool, threadPool (threads c) = Some pool
         /\ pool ∈ threadPools (heap c)
         /\ getThreadPool env c = Ok (pool, c)
         /\ getNumThreads env getMaxConcurrency c
            = Ok (getMaxConcurrency pool, c))
    /\ (isMultithreadingEnabled env c = false ->
          getNumThreads env getMaxConcurrency c = Ok (1, c)
          /\ (NDEBUG env = false -> returns (getThreadPool env c) = false)).
Proof.
  intros env gmc c (I1 & I2 & I3). split.
  - intros Hm. unfold isMultithreadingEnabled in Hm.
    apply andb_true_iff in Hm as [Ht Hl].
    destruct (I1 Ht) as [pool Hp]. exists pool.
    split; [done|]. split; [by apply I3|].
    unfold getThreadPool, getNumThreads, isMultithreadingEnabled.
    rewrite Ht, Hl, Hp. simpl.
    unfold bind, assert. by destruct (NDEBUG env).
  - intros Hm. unfold getNumThreads, getThreadPool. rewrite Hm.
    split; [done|]. intros ->. reflexivity.
Qed.

Lemma thread_pool_access_witness :
  exists pool,
    getThreadPool (quietEnv false) (MLIRContextImpl_new true emptyHeap)
    = Ok (pool, MLIRContextImpl_new true emptyHeap).
Proof.
  destruct (proj1 (thread_pool_access (quietEnv false) (fun _ => 4)
                     (MLIRContextImpl_new true emptyHeap)
                     (poolInvariant_new true emptyHeap)) eq_refl)
    as (pool & _ & _ & H & _).
  by exists pool.
Defined.

(** ** String attributes that name a dialect *)

Import Stdlib.Strings.Ascii.

(** The character occurs in the string. *)
Fixpoint occurs (ch : ascii) (s : string) : bool :=
  match s with
  | EmptyString => false
  | String ch' rest => Ascii.eqb ch' ch || occurs ch rest
  end.

Lemma split_absent sep s :
  occurs sep s = false -> StringAttrStorage.split sep s = (s, EmptyString).
Proof.
  induction s as [|ch rest IH]; simpl; [done|].
  intros H. apply orb_false_iff in H as [H1 H2]. rewrite H1, (IH H2). done.
Qed.

Lemma split_first sep lhs rhs :
  occurs sep lhs = false ->
  StringAttrStorage.split sep (lhs +:+ String sep rhs) = (lhs, rhs).
Proof.
  induction lhs as [|ch rest IH]; simpl.
  - by rewrite Ascii.eqb_refl.
  - intros H. apply orb_false_iff in H as [H1 H2]. rewrite H1, (IH H2). done.
Qed.

Lemma empty_false s : s <> EmptyString -> StringAttrStorage.empty s = false.
Proof. by destruct s. Qed.

Lemma initialize_unloaded this ns rest c :
  ns <> EmptyString -> rest <> EmptyString -> occurs "." ns = false ->
  getLoadedDialect ns c = None ->
  StringAttrStorage.initialize this (ns +:+ String "." rest) c
  = Ok (tt,
        set_dialectReferencingStrAttrs
          (fun m => <[ns := default [] (m !! ns) ++ [this]]> m)
          (set_referencedDialect (fun m => <[this := None]> m) c)).
Proof.
  intros Hns Hrest Hdot Hd. unfold StringAttrStorage.initialize.
  rewrite split_first by done. simpl.
  rewrite !empty_false by done. simpl.
  cbn [bind gets modify ret]. rewrite Hd. reflexivity.
Qed.

(** X5.  [StringAttrStorage::initialize] on a value [ns.rest] (both parts
    non-empty, no dot in [ns]): when a dialect is loaded under [ns] the
    storage refers to it at once and nothing is recorded; when none is (the
    namespace is absent or still loading) the storage refers to no dialect
    and is recorded, last, among the storages waiting for [ns].  A value
    without a dot, with nothing before its first dot or with nothing after
    it leaves the context as it is. *)
Theorem string_attr_initialize :
  forall (this : nat) (ns rest : string) (c : Context),
    ns <> EmptyString -> rest <> EmptyString -> occurs "." ns = false ->
    let value := ns +:+ String "." rest in
    (forall d, getLoadedDialect ns c = Some d ->
       exists c1, StringAttrStorage.initialize this value c = Ok (tt, c1)
         /\ StringAttrStorage.getReferencedDialect this c1 = Some d
         /\ dialects c1 = dialects c)
    /\ (getLoadedDialect ns c = None ->
       exists c1, StringAttrStorage.initialize this value c = Ok (tt, c1)
         /\ StringAttrStorage.getReferencedDialect this c1 = None
         /\ dialectReferencingStrAttrs (dialects c1) !! ns
            = Some (default [] (dialectReferencingStrAttrs (dialects c) !! ns)
                    ++ [this])
         /\ loadedDialects (dialects c1) = loadedDialects (dialects c))
    /\ StringAttrStorage.initialize this ns c = Ok (tt, c)
    /\ StringAttrStorage.initialize this (String "." rest) c = Ok (tt, c)
    /\ StringAttrStorage.initialize this (ns +:+ ".") c = Ok (tt, c).
Proof.
  intros this ns rest c Hns Hrest Hdot value.
  split; [|split; [|split; [|split]]].
  - intros d Hd. unfold StringAttrStorage.initialize, value.
    rewrite split_first by done. simpl.
    rewrite !empty_false by done. simpl.
    cbn [bind gets modify ret]. rewrite Hd. cbn [ret].
    eexists. split; [reflexivity|].
    unfold StringAttrStorage.getReferencedDialect. simpl.
    by rewrite lookup_insert_eq.
  - intros Hd. unfold value. rewrite initialize_unloaded by done.
    eexists. split; [reflexivity|].
    unfold StringAttrStorage.getReferencedDialect. simpl.
    by rewrite !lookup_insert_eq.
  - unfold StringAttrStorage.initialize.
    rewrite split_absent by done. simpl. by rewrite orb_true_r.
  - reflexivity.
  - unfold StringAttrStorage.initialize.
    rewrite split_first by done. simpl. by rewrite orb_true_r.
Qed.


Lemma string_attr_initialize_witness :
  exists c1, StringAttrStorage.initialize 5%nat "test.op" testLoaded = Ok (tt, c1)
    /\ StringAttrStorage.getReferencedDialect 5%nat c1 = Some testDialect.
Proof.
  destruct (proj1 (string_attr_initialize 5%nat "test" "op" testLoaded
                     ltac:(discriminate) ltac:(discriminate) eq_refl)
              testDialect eq_refl)
    as (c1 & H1 & H2 & _).
  exists c1. by split.
Defined.

(** The context after the constructor callback of a load has returned [d]
    in [cA]: the table entry is set, the waiting storages are refreshed and
    their record is erased. *)
Definition afterConstructor (ns : string) (d : Dialect.t) (cA : Context)
    : Context :=
  let c1 := set_loadedDialects (fun m => <[ns := Some d]> m) cA in
  match dialectReferencingStrAttrs (dialects c1) !! ns with
  | Some storages =>
      set_dialectReferencingStrAttrs (delete ns)
        (refreshReferencedDialect (Some d) storages c1)
  | None => c1
  end.

(** A load of a namespace that is not in the table, step by step. *)
Lemma getOrLoadDialect_fresh_run env ns id ctor c d cA :
  loadedDialects (dialects c) !! ns = None ->
  singleThreaded env c ->
  ctor (set_loadedDialects (fun m => <[ns := None]> m) c) = Ok (Some d, cA) ->
  getOrLoadDialect env ns id ctor c
  = (applyExtensionsToDialect env
       (dialectsRegistry (dialects (afterConstructor ns d cA))) (Some d) ;;;
     ret (Some d)) (afterConstructor ns d cA).
Proof.
  intros Hns Hs Hctor. unfold getOrLoadDialect. rewrite Hns.
  cbn [bind modify gets ret].
  assert (Hchk : negb (NDEBUG env)
                 && negb (multiThreadedExecutionContext
                            (threads (set_loadedDialects
                                        (fun m => <[ns := None]> m) c)) =? 0)
                 = false).
  { simpl. destruct Hs as [->| ->]; [done|]. by rewrite andb_false_r. }
  rewrite Hchk. cbn [bind ret].
  rewrite (bind_Ok _ _ _ _ _ Hctor).
  cbn [bind modify gets ret].
  assert (Hb : bool_decide (is_Some (Some d)) = true)
    by (apply bool_decide_eq_true; eauto).
  rewrite Hb. unfold bind at 1. rewrite assert_true.
  cbn [bind modify gets ret].
  unfold afterConstructor.
  destruct (dialectReferencingStrAttrs
              (dialects (set_loadedDialects (fun m => <[ns := Some d]> m) cA))
              !! ns) as [storages|]; reflexivity.
Qed.

Lemma refresh_lookup (dialect : option Dialect.t) (storages : list nat)
    (m : gmap nat (option Dialect.t)) (this : nat) :
  this ∈ storages ->
  foldl (fun m storage => <[storage := dialect]> m) m storages !! this
  = Some dialect.
Proof.
  revert m. induction storages as [|s storages IH] using rev_ind; intros m.
  - by intros ?%elem_of_nil.
  - rewrite foldl_app. simpl. intros [H|H%list_elem_of_singleton]%elem_of_app.
    + destruct (decide (s = this)) as [->|Hne].
      * by rewrite lookup_insert_eq.
      * rewrite lookup_insert_ne by done. by apply IH.
    + subst. by rewrite lookup_insert_eq.
Qed.

Lemma afterConstructor_waiting ns d cA storages this :
  dialectReferencingStrAttrs (dialects cA) !! ns = Some storages ->
  this ∈ storages ->
  StringAttrStorage.getReferencedDialect this (afterConstructor ns d cA) = Some d
  /\ dialectReferencingStrAttrs (dialects (afterConstructor ns d cA)) !! ns = None
  /\ loadedDialects (dialects (afterConstructor ns d cA)) !! ns = Some (Some d).
Proof.
  intros Hw Hin. unfold afterConstructor. simpl. rewrite Hw.
  unfold StringAttrStorage.getReferencedDialect. simpl.
  rewrite refresh_lookup by done. rewrite lookup_delete_eq, lookup_insert_eq.
  done.
Qed.

(** Extension code that returns and leaves the storage at [this] and the
    table entries of [ns] alone. *)
Definition extensions_leave (env : Env) (this : nat) (ns : string) : Prop :=
  forall r d c, exists c',
    applyExtensionsToDialect env r d c = Ok (tt, c')
    /\ referencedDialect (heap c') !! this = referencedDialect (heap c) !! this
    /\ dialectReferencingStrAttrs (dialects c') !! ns
       = dialectReferencingStrAttrs (dialects c) !! ns
    /\ loadedDialects (dialects c') !! ns = loadedDialects (dialects c) !! ns.

(** X6.  A string attribute that names a dialect before the dialect is
    loaded is resolved by the load.  After [initialize] on [ns.rest] in a
    context without an entry for [ns], the storage refers to no dialect; a
    load of [ns] whose constructor callback, run on the context with the
    placeholder for [ns], returns [d] and leaves the storage among those
    waiting for [ns], then returns [d], makes the storage refer to [d] and
    erases the record.  The callback of [getOrLoadDialect<T>()] for a class
    whose constructor returns and leaves the storage waiting is such a
    callback.  The same holds for a storage that the constructor callback
    itself initialises while the namespace is loading. *)
Theorem deferred_dialect_reference :
  forall (env : Env) (this : nat) (ns rest : string) (id : TypeID.t)
         (d : Dialect.t) (c : Context),
    ns <> EmptyString -> rest <> EmptyString -> occurs "." ns = false ->
    loadedDialects (dialects c) !! ns = None ->
    singleThreaded env c ->
    extensions_leave env this ns ->
    let value := ns +:+ String "." rest in
    (exists c1,
       StringAttrStorage.initialize this value c = Ok (tt, c1)
       /\ StringAttrStorage.getReferencedDialect this c1 = None
       /\ (forall (ctor : M Context (option Dialect.t)) cA storages,
             ctor (set_loadedDialects (fun m => <[ns := None]> m) c1)
               = Ok (Some d, cA) ->
             dialectReferencingStrAttrs (dialects cA) !! ns = Some storages ->
             this ∈ storages ->
             exists c2,
               getOrLoadDialect env ns id ctor c1 = Ok (Some d, c2)
               /\ StringAttrStorage.getReferencedDialect this c2 = Some d
               /\ dialectReferencingStrAttrs (dialects c2) !! ns = None
               /\ getLoadedDialect ns c2 = Some d)
       /\ (forall (T : DialectClass) fields cA storages,
             getDialectNamespace T = ns ->
             d = {| Dialect.this := nextObject (heap c1);
                    Dialect.name := fst fields;
                    Dialect.dialectID := snd fields |} ->
             constructor T (nextObject (heap c1))
               (set_heap (fun h =>
                  {| referencedDialect := referencedDialect h;
                     threadPools := threadPools h;
                     nextObject := S (nextObject (heap c1)) |})
                  (set_loadedDialects (fun m => <[ns := None]> m) c1))
               = Ok (fields, cA) ->
             dialectReferencingStrAttrs (dialects cA) !! ns = Some storages ->
             this ∈ storages ->
             exists c2,
               getOrLoadDialectT env T c1 = Ok (Some d, c2)
               /\ StringAttrStorage.getReferencedDialect this c2 = Some d
               /\ dialectReferencingStrAttrs (dialects c2) !! ns = None
               /\ getLoadedDialect ns c2 = Some d))
    /\ (exists c2,
         getOrLoadDialect env ns id
           (StringAttrStorage.initialize this value ;;; ret (Some d)) c
         = Ok (Some d, c2)
         /\ StringAttrStorage.getReferencedDialect this c2 = Some d
         /\ dialectReferencingStrAttrs (dialects c2) !! ns = None
         /\ getLoadedDialect ns c2 = Some d).
Proof.
  intros env this ns rest id d c Hns Hrest Hdot Hnone Hs Hext value.
  assert (Hfin : forall cA storages,
    dialectReferencingStrAttrs (dialects cA) !! ns = Some storages ->
    this ∈ storages ->
    exists c2,
      (applyExtensionsToDialect env
         (dialectsRegistry (dialects (afterConstructor ns d cA))) (Some d) ;;;
       ret (Some d)) (afterConstructor ns d cA) = Ok (Some d, c2)
      /\ StringAttrStorage.getReferencedDialect this c2 = Some d
      /\ dialectReferencingStrAttrs (dialects c2) !! ns = None
      /\ getLoadedDialect ns c2 = Some d).
  { intros cA storages Hw Hin.
    destruct (afterConstructor_waiting ns d cA storages this Hw Hin)
      as (R1 & R2 & R3).
    destruct (Hext (dialectsRegistry (dialects (afterConstructor ns d cA)))
                (Some d) (afterConstructor ns d cA)) as (c2 & E & F1 & F2 & F3).
    exists c2. unfold bind. rewrite E. cbn [ret]. split; [done|].
    unfold StringAttrStorage.getReferencedDialect, getLoadedDialect in *.
    rewrite F1, F2, F3, R2, R3. done. }
  split.
  - assert (Hl : getLoadedDialect ns c = None)
      by (unfold getLoadedDialect; by rewrite Hnone).
    pose proof (initialize_unloaded this ns rest c Hns Hrest Hdot Hl) as I1.
    set (c1 := set_dialectReferencingStrAttrs
                 (fun m => <[ns := default [] (m !! ns) ++ [this]]> m)
                 (set_referencedDialect (fun m => <[this := None]> m) c)) in *.
    assert (I2 : StringAttrStorage.getReferencedDialect this c1 = None)
      by (unfold StringAttrStorage.getReferencedDialect, c1; simpl;
          by rewrite lookup_insert_eq).
    assert (Hgen : forall (ctor : M Context (option Dialect.t)) cA storages,
      ctor (set_loadedDialects (fun m => <[ns := None]> m) c1)
        = Ok (Some d, cA) ->
      dialectReferencingStrAttrs (dialects cA) !! ns = Some storages ->
      this ∈ storages ->
      exists c2,
        getOrLoadDialect env ns id ctor c1 = Ok (Some d, c2)
        /\ StringAttrStorage.getReferencedDialect this c2 = Some d
        /\ dialectReferencingStrAttrs (dialects c2) !! ns = None
        /\ getLoadedDialect ns c2 = Some d).
    { intros ctor cA storages HcA Hw Hin.
      destruct (Hfin cA storages Hw Hin) as (c2 & G1 & G2 & G3 & G4).
      exists c2. split; [|done].
      by rewrite (getOrLoadDialect_fresh_run env ns id ctor c1 d cA). }
    exists c1. split; [exact I1|]. split; [exact I2|]. split; [exact Hgen|].
    intros T fields cA storages HT Hd Hctor Hw Hin.
    destruct (Hfin cA storages Hw Hin) as (c2 & G1 & G2 & G3 & G4).
    exists c2. split; [|done].
    unfold getOrLoadDialectT. rewrite HT.
    rewrite (getOrLoadDialect_fresh_run env ns (classTypeID T) (newDialect T)
               c1 d cA); [done|done|done|].
    unfold newDialect. cbn [bind modify gets ret].
    rewrite (bind_Ok _ _ _ _ _ Hctor). cbn [ret]. by rewrite Hd.
  - set (c0 := set_loadedDialects (fun m => <[ns := None]> m) c).
    assert (Hl : getLoadedDialect ns c0 = None)
      by (unfold getLoadedDialect, c0; simpl; by rewrite lookup_insert_eq).
    pose proof (initialize_unloaded this ns rest c0 Hns Hrest Hdot Hl) as I1.
    set (c1 := set_dialectReferencingStrAttrs
                 (fun m => <[ns := default [] (m !! ns) ++ [this]]> m)
                 (set_referencedDialect (fun m => <[this := None]> m) c0)) in *.
    destruct (Hfin c1 (default [] (dialectReferencingStrAttrs (dialects c0) !! ns)
                       ++ [this])) as (c2 & G1 & G2 & G3 & G4).
    { unfold c1; simpl; by rewrite lookup_insert_eq. }
    { apply elem_of_app. right. by apply list_elem_of_singleton. }
    exists c2. split; [|done].
    rewrite (getOrLoadDialect_fresh_run env ns id _ c d c1); [done|done|done|].
    fold c0. unfold bind, value. rewrite I1. reflexivity.
Qed.

Lemma quietEnv_extensions_leave ndebug this ns :
  extensions_leave (quietEnv ndebug) this ns.
Proof. intros r d c. exists c. done. Qed.

Lemma deferred_dialect_reference_witness :
  exists c1 c2,
    StringAttrStorage.initialize 5%nat "test.op" freshContext = Ok (tt, c1)
    /\ StringAttrStorage.getReferencedDialect 5%nat c1 = None
    /\ getOrLoadDialectT (quietEnv false) (plainDialect "test" idX) c1
       = Ok (Some testDialect, c2)
    /\ StringAttrStorage.getReferencedDialect 5%nat c2 = Some testDialect.
Proof.
  destruct (proj1 (deferred_dialect_reference (quietEnv false) 5%nat "test" "op"
                     idX testDialect freshContext
                     ltac:(discriminate) ltac:(discriminate) eq_refl eq_refl
                     (or_intror eq_refl)
                     (quietEnv_extensions_leave false 5%nat "test")))
    as (c1 & H1 & H2 & _ & HT).
  assert (Hc1 : c1 = set_dialectReferencingStrAttrs
                       (fun m => <["test" := default [] (m !! "test") ++ [5%nat]]> m)
                       (set_referencedDialect (fun m => <[5%nat := None]> m)
                          freshContext)).
  { pose proof (initialize_unloaded 5%nat "test" "op" freshContext
                  ltac:(discriminate) ltac:(discriminate) eq_refl eq_refl) as E.
    rewrite E in H1. by injection H1 as <-. }
  subst c1.
  edestruct (HT (plainDialect "test" idX) ("test", idX)) as (c2 & G1 & G2 & _);
    [reflexivity|reflexivity|reflexivity|reflexivity
    |by apply list_elem_of_singleton|].
  eexists _, c2. split; [exact H1|]. split; [exact H2|]. split; [exact G1|exact G2].
Defined.

(** ** Getting a loaded dialect by class *)

(** X7.  [getLoadedDialect<T>()] performs no check of the class: it returns
    whatever dialect is loaded under the namespace of [T], a dialect of
    another class included, where [getOrLoadDialect<T>()] aborts with a
    fatal error; it returns a null pointer when the namespace is absent or
    still loading, and never changes the context. *)
Theorem getLoadedDialect_by_class_unchecked :
  forall (env : Env) (T : DialectClass) (c : Context),
    (forall d, loadedDialects (dialects c) !! getDialectNamespace T = Some (Some d) ->
       DialectTemplates.getLoadedDialect T c = Some d
       /\ (Dialect.getTypeID d <> classTypeID T ->
           aborts (getOrLoadDialectT env T c) = true)
       /\ (Dialect.getTypeID d = classTypeID T ->
           getOrLoadDialectT env T c = Ok (Some d, c)))
    /\ (loadedDialects (dialects c) !! getDialectNamespace T = None ->
        DialectTemplates.getLoadedDialect T c = None)
    /\ (isDialectLoading (getDialectNamespace T) c = true ->
        DialectTemplates.getLoadedDialect T c = None).
Proof.
  intros env T c. unfold DialectTemplates.getLoadedDialect, getLoadedDialect.
  split; [|split].
  - intros d Hd. rewrite Hd. split; [done|].
    unfold getOrLoadDialectT.
    rewrite (getOrLoadDialect_present _ _ _ _ _ d Hd). split.
    + intros Hne%TypeID_neqb_true. by rewrite Hne.
    + intros Heq%TypeID_neqb_false. by rewrite Heq.
  - by intros ->.
  - intros H%isDialectLoading_spec. by rewrite H.
Qed.

(** ** The list of loaded dialects while a dialect is loading *)

Lemma mapM_id_None {A} (l : list (option A)) :
  None ∈ l -> mapM id l = None.
Proof.
  intros H. destruct (mapM id l) as [k|] eqn:E; [|done].
  apply mapM_Some in E.
  apply list_elem_of_lookup in H as [i Hi].
  destruct (Forall2_lookup_l _ _ _ _ _ E Hi) as (y & _ & Hy). discriminate.
Qed.

Lemma mapM_id_Some {A} (l : list (option A)) :
  None ∉ l -> exists k, mapM id l = Some k /\ l = Some <$> k.
Proof.
  induction l as [|[a|] l IH]; intros H.
  - by exists [].
  - destruct IH as (k & Hk & ->); [intros Hn; apply H; by right|].
    exists (a :: k). split; [|done].
    apply mapM_Some. constructor; [done|].
    by apply mapM_Some.
  - exfalso. apply H. by left.
Qed.

(** X8.  [getLoadedDialects] does not tolerate a dialect that is still
    loading.  When the table holds a null placeholder, the call returns a
    vector with a null pointer if the placeholder is the only entry, and
    dereferences the null pointer in its comparator if there is any other
    entry.  Without a placeholder the call returns one pointer per entry:
    the pointers of the table, rearranged. *)
Theorem getLoadedDialects_while_loading :
  forall (c : Context),
    (forall ns, loadedDialects (dialects c) !! ns = Some None ->
       (size (loadedDialects (dialects c)) = 1%nat ->
          getLoadedDialects c = Ok [None])
       /\ (size (loadedDialects (dialects c)) <> 1%nat ->
          getLoadedDialects c = Undefined))
    /\ ((forall ns, loadedDialects (dialects c) !! ns <> Some None) ->
        exists ds, getLoadedDialects c = Ok (Some <$> ds)
          /\ Some <$> ds ≡ₚ (map_to_list (loadedDialects (dialects c))).*2).
Proof.
  intros c. unfold getLoadedDialects.
  set (m := loadedDialects (dialects c)).
  assert (Hlen : length (map_to_list m).*2 = size m)
    by (rewrite length_fmap; apply length_map_to_list).
  split.
  - intros ns Hns.
    assert (Hin : None ∈ (map_to_list m).*2).
    { apply list_elem_of_fmap. exists (ns, None). split; [done|].
      by apply elem_of_map_to_list. }
    split.
    + intros H1. rewrite H1 in Hlen.
      destruct ((map_to_list m).*2) as [|x [|y l]]; try discriminate.
      apply list_elem_of_singleton in Hin as <-. done.
    + intros H1.
      destruct ((map_to_list m).*2) as [|x [|y l]] eqn:E.
      * by apply elem_of_nil in Hin.
      * simpl in Hlen. congruence.
      * by rewrite (mapM_id_None _ Hin).
  - intros Hno.
    assert (Hin : None ∉ (map_to_list m).*2).
    { intros ([ns v] & Hv & Hm)%list_elem_of_fmap. simpl in Hv. subst v.
      apply elem_of_map_to_list in Hm. by apply (Hno ns). }
    destruct (mapM_id_Some _ Hin) as (k & Hk & Ek).
    destruct ((map_to_list m).*2) as [|x [|y l]] eqn:E.
    + exists []. destruct k; [done|discriminate].
    + exists k. by rewrite Ek.
    + rewrite Hk. exists (array_pod_sort compareLoadedDialects k).
      split; [done|]. rewrite Ek.
      apply fmap_Permutation.
      apply (proj1 (array_pod_sort_compareLoadedDialects k)).
Qed.

Lemma getLoadedDialects_while_loading_witness :
  getLoadedDialects testLoading = Ok [None].
Proof.
  exact (proj1 (proj1 (getLoadedDialects_while_loading testLoading)
                  "test" eq_refl) eq_refl).
Defined.

(** ** Loading a list of dialects *)

(** [c'] holds no null placeholder that [c] does not hold. *)
Definition no_new_placeholders (c c' : Context) : Prop :=
  forall ns, loadedDialects (dialects c') !! ns = Some None ->
             loadedDialects (dialects c) !! ns = Some None.

(** Code that, when it returns, has left loaded dialects in place and has
    left no dialect half loaded. *)
Definition settles {A} (m : M Context A) : Prop :=
  forall c a c', m c = Ok (a, c') ->
    keeps_loaded c c' /\ no_new_placeholders c c'.

Lemma newDialect_run T c d cA :
  newDialect T c = Ok (d, cA) ->
  exists fields c0,
    dialects c0 = dialects c
    /\ constructor T (nextObject (heap c)) c0 = Ok (fields, cA)
    /\ d = Some {| Dialect.this := nextObject (heap c);
                   Dialect.name := fst fields;
                   Dialect.dialectID := snd fields |}.
Proof.
  unfold newDialect. cbn [bind modify gets ret]. intros H.
  apply bind_Ok_inv in H as (fields & c1' & Hc & H).
  cbn [ret] in H. injection H as <- <-.
  eexists fields, _. split; [|split; [exact Hc|done]]. reflexivity.
Qed.

Lemma getOrLoadDialectT_settles env T :
  (forall r d, settles (applyExtensionsToDialect env r d)) ->
  (forall a, settles (constructor T a)) ->
  forall c r c', getOrLoadDialectT env T c = Ok (r, c') ->
    keeps_loaded c c' /\ no_new_placeholders c c'
    /\ exists d, r = Some d
         /\ loadedDialects (dialects c') !! getDialectNamespace T = Some (Some d).
Proof.
  intros Hext Hctor c r c' H. unfold getOrLoadDialectT in H.
  set (ns := getDialectNamespace T) in *.
  destruct (loadedDialects (dialects c) !! ns) as [[d0|]|] eqn:E.
  - rewrite (getOrLoadDialect_present _ _ _ _ _ _ E) in H.
    destruct (TypeID.neqb _ _); [discriminate|]. injection H as <- <-.
    split; [apply keeps_loaded_refl|]. split; [by intros ?|]. eauto.
  - unfold getOrLoadDialect in H. rewrite E in H.
    destruct (negb (NDEBUG env)); discriminate.
  - apply getOrLoadDialect_fresh_inv in H as (cA & cB & HA & HB & HC); [|done].
    apply newDialect_run in HA as (fields & c0 & Hd0 & HA & ->).
    destruct (Hctor _ _ _ _ HA) as [K1 N1].
    destruct (Hext _ _ _ _ _ HC) as [K2 N2].
    unfold keeps_loaded, no_new_placeholders in *.
    rewrite Hd0 in K1, N1. simpl in K1, N1. rewrite HB in K2, N2.
    split; [|split].
    + intros ns' d' H'. apply K2.
      assert (ns <> ns') by (intros ->; congruence).
      rewrite lookup_insert_ne by done. apply K1.
      by rewrite lookup_insert_ne.
    + intros ns' H'. apply N2 in H'.
      destruct (decide (ns = ns')) as [<-|Hne].
      * by rewrite lookup_insert_eq in H'.
      * rewrite lookup_insert_ne in H' by done. apply N1 in H'.
        by rewrite lookup_insert_ne in H'.
    + eexists. split; [done|]. apply K2. by rewrite lookup_insert_eq.
Qed.

Lemma loadDialect_settles env T :
  (forall r d, settles (applyExtensionsToDialect env r d)) ->
  (forall a, settles (constructor T a)) ->
  forall c c', MLIRContext.loadDialect env T c = Ok (tt, c') ->
    keeps_loaded c c' /\ no_new_placeholders c c'
    /\ (isDialectLoading (getDialectNamespace T) c = false ->
        is_Some (DialectTemplates.getLoadedDialect T c')).
Proof.
  intros Hext Hctor c c' H. unfold MLIRContext.loadDialect in H.
  destruct (isDialectLoading (getDialectNamespace T) c) eqn:E; simpl in H.
  - injection H as <-. split; [apply keeps_loaded_refl|].
    split; [by intros ?|done].
  - apply bind_Ok_inv in H as (r & c1 & H & Hr). cbn [ret] in Hr.
    injection Hr as <-.
    destruct (getOrLoadDialectT_settles env T Hext Hctor _ _ _ H)
      as (K & N & d & -> & Hd).
    split; [done|]. split; [done|]. intros _.
    unfold DialectTemplates.getLoadedDialect, getLoadedDialect. rewrite Hd. eauto.
Qed.

(** X9.  [loadDialect<D, Other, More...>()] loads every class of its list.
    When none of the listed namespaces is half loaded at the call, and the
    constructors of the listed classes and the extension code settle (they
    leave loaded dialects in place and no dialect half loaded), then after
    the call has returned every listed class has a dialect loaded under its
    namespace, and all dialects loaded before are still loaded. *)
Theorem loadDialect_list_loads_all :
  forall (env : Env) (D : DialectClass) (More : list DialectClass)
         (c c' : Context),
    (forall r d, settles (applyExtensionsToDialect env r d)) ->
    (forall T, T ∈ D :: More -> forall a, settles (constructor T a)) ->
    (forall T, T ∈ D :: More ->
       isDialectLoading (getDialectNamespace T) c = false) ->
    DialectTemplates.loadDialect env D More c = Ok (tt, c') ->
    (forall T, T ∈ D :: More ->
       is_Some (DialectTemplates.getLoadedDialect T c'))
    /\ keeps_loaded c c'.
Proof.
  intros env D More. revert D.
  induction More as [|Other More IH]; intros D c c' Hext Hctor Hno H.
  - simpl in H.
    destruct (loadDialect_settles env D Hext (Hctor D ltac:(by left)) _ _ H)
      as (K & N & L).
    split; [|done]. intros T ->%list_elem_of_singleton.
    apply L, Hno. by left.
  - simpl in H. apply bind_Ok_inv in H as ([] & c1 & H1 & H2).
    destruct (loadDialect_settles env D Hext (Hctor D ltac:(by left)) _ _ H1)
      as (K & N & L).
    destruct (IH Other c1 c') as [IH1 IH2]; [done| | |done|].
    + intros T HT. apply Hctor. by right.
    + intros T HT. destruct (isDialectLoading _ c1) eqn:E; [|done].
      apply isDialectLoading_spec, N, isDialectLoading_spec in E.
      rewrite Hno in E; [done|by right].
    + split; [|by eapply keeps_loaded_trans].
      intros T [->|HT]%elem_of_cons; [|by apply IH1].
      destruct (L (Hno D ltac:(by left))) as [d Hd].
      unfold DialectTemplates.getLoadedDialect, getLoadedDialect in *.
      destruct (loadedDialects (dialects c1) !! getDialectNamespace D)
        as [[d1|]|] eqn:E; try discriminate.
      rewrite (IH2 _ _ E). eauto.
Qed.

Lemma ret_settles {A} (a : A) : settles (ret a).
Proof.
  intros c a' c' [= <- <-]. split; [apply keeps_loaded_refl|by intros ?].
Qed.

Lemma loadDialect_list_loads_all_witness :
  is_Some (DialectTemplates.getLoadedDialect (plainDialect "b" idY)
             match DialectTemplates.loadDialect (quietEnv false)
                     (plainDialect "a" idX) [plainDialect "b" idY] freshContext with
             | Ok (_, c') => c'
             | _ => freshContext
             end).
Proof.
  refine (proj1 (loadDialect_list_loads_all (quietEnv false) (plainDialect "a" idX)
                   [plainDialect "b" idY] freshContext _ _ _ _ _)
            (plainDialect "b" idY) _).
  - intros r d. apply ret_settles.
  - intros T HT a.
    apply elem_of_cons in HT as [->|HT];
      [|apply list_elem_of_singleton in HT as ->]; apply ret_settles.
  - intros T HT.
    apply elem_of_cons in HT as [->|HT];
      [|apply list_elem_of_singleton in HT as ->]; reflexivity.
  - vm_compute. reflexivity.
  - right. by left.
Defined.

(** ** Registration of type and attribute kinds *)

Import KindRegistration.

Definition singleThreadedImpl (env : Env) (s : Impl) : Prop :=
  singleThreaded env (context s).

Lemma assert_singleThreadedImpl env (s : Impl) msg :
  singleThreadedImpl env s ->
  assert (NDEBUG env)
         (multiThreadedExecutionContext (threads (context s)) =? 0) msg s
  = Ok (tt, s).
Proof.
  unfold assert. intros [->| ->]; [done|]. by destruct (NDEBUG env).
Qed.

(** X10.  [Dialect::addType] and the lookups of [AbstractType].  A kind
    registered under a new TypeID and a new name is found afterwards by
    [lookup] under its TypeID and under its name, and every other lookup
    answers as before.  Registering under a TypeID already in use is a fatal
    error, as is registering a new TypeID under a name already in use.
    [lookup] by a TypeID that is not registered is a fatal error, where
    [lookupMutable] returns a null pointer and [lookup] by name an empty
    optional. *)
Theorem addType_lookup :
  forall (env : Env) (typeID : TypeID.t) (info : AbstractType) (s : Impl),
    singleThreadedImpl env s ->
    (registeredTypes s !! typeID = None ->
     nameToType s !! typeName info = None ->
       exists s', addType env typeID info s = Ok (tt, s')
         /\ AbstractType_lookup typeID s' = Ok (info, s')
         /\ AbstractType_lookupName (typeName info) s' = Some info
         /\ (forall id, id <> typeID ->
               AbstractType_lookupMutable id s' = AbstractType_lookupMutable id s)
         /\ (forall n, n <> typeName info ->
               AbstractType_lookupName n s' = AbstractType_lookupName n s)
         /\ context s' = context s
         /\ registeredAttributes s' = registeredAttributes s
         /\ nameToAttribute s' = nameToAttribute s)
    /\ (is_Some (registeredTypes s !! typeID) ->
          addType env typeID info s
          = FatalError "Dialect Type already registered.")
    /\ (registeredTypes s !! typeID = None ->
        is_Some (nameToType s !! typeName info) ->
          addType env typeID info s
          = FatalError ("Dialect Type with name " +:+ typeName info +:+
                        " is already registered."))
    /\ (registeredTypes s !! typeID = None ->
          AbstractType_lookupMutable typeID s = None
          /\ AbstractType_lookup typeID s
             = FatalError "Trying to create a Type that was not registered in this MLIRContext.")
    /\ (forall n, nameToType s !! n = None -> AbstractType_lookupName n s = None).
Proof.
  intros env typeID info s Hs.
  unfold addType.
  rewrite (bind_Ok _ _ _ _ _ (assert_singleThreadedImpl _ _ _ Hs)).
  split; [|split; [|split; [|split]]].
  - intros Hid Hn. rewrite Hid, Hn. cbn [bind modify]. eexists.
    split; [reflexivity|].
    unfold AbstractType_lookup, AbstractType_lookupMutable,
      AbstractType_lookupName. simpl.
    rewrite !lookup_insert_eq. split; [done|]. split; [done|].
    split; [intros id Hne; by rewrite lookup_insert_ne|].
    split; [intros n Hne; by rewrite lookup_insert_ne|done].
  - intros [x Hx]. by rewrite Hx.
  - intros Hid [x Hx]. rewrite Hid, Hx. reflexivity.
  - intros Hid. unfold AbstractType_lookup, AbstractType_lookupMutable.
    by rewrite Hid.
  - intros n Hn. exact Hn.
Qed.

(** X11.  [Dialect::addAttribute] and the lookups of [AbstractAttribute]
    behave as their counterparts for types do: registration under a new
    TypeID and a new name is found by both lookups and changes no other
    answer; a TypeID or a name already in use is a fatal error; [lookup] by
    an unregistered TypeID is a fatal error. *)
Theorem addAttribute_lookup :
  forall (env : Env) (typeID : TypeID.t) (info : AbstractAttribute) (s : Impl),
    singleThreadedImpl env s ->
    (registeredAttributes s !! typeID = None ->
     nameToAttribute s !! attrName info = None ->
       exists s', addAttribute env typeID info s = Ok (tt, s')
         /\ AbstractAttribute_lookup typeID s' = Ok (info, s')
         /\ AbstractAttribute_lookupName (attrName info) s' = Some info
         /\ (forall id, id <> typeID ->
               AbstractAttribute_lookupMutable id s'
               = AbstractAttribute_lookupMutable id s)
         /\ (forall n, n <> attrName info ->
               AbstractAttribute_lookupName n s' = AbstractAttribute_lookupName n s)
         /\ context s' = context s
         /\ registeredTypes s' = registeredTypes s
         /\ nameToType s' = nameToType s)
    /\ (is_Some (registeredAttributes s !! typeID) ->
          addAttribute env typeID info s
          = FatalError "Dialect Attribute already registered.")
    /\ (registeredAttributes s !! typeID = None ->
        is_Some (nameToAttribute s !! attrName info) ->
          addAttribute env typeID info s
          = FatalError ("Dialect Attribute with name " +:+ attrName info +:+
                        " is already registered."))
    /\ (registeredAttributes s !! typeID = None ->
          AbstractAttribute_lookupMutable typeID s = None
          /\ AbstractAttribute_lookup typeID s
             = FatalError "Trying to create an Attribute that was not registered in this MLIRContext.").
Proof.
  intros env typeID info s Hs.
  unfold addAttribute.
  rewrite (bind_Ok _ _ _ _ _ (assert_singleThreadedImpl _ _ _ Hs)).
  split; [|split; [|split]].
  - intros Hid Hn. rewrite Hid, Hn. cbn [bind modify]. eexists.
    split; [reflexivity|].
    unfold AbstractAttribute_lookup, AbstractAttribute_lookupMutable,
      AbstractAttribute_lookupName. simpl.
    rewrite !lookup_insert_eq. split; [done|]. split; [done|].
    split; [intros id Hne; by rewrite lookup_insert_ne|].
    split; [intros n Hne; by rewrite lookup_insert_ne|done].
  - intros [x Hx]. by rewrite Hx.
  - intros Hid [x Hx]. rewrite Hid, Hx. reflexivity.
  - intros Hid. unfold AbstractAttribute_lookup, AbstractAttribute_lookupMutable.
    by rewrite Hid.
Qed.

(** The tables by TypeID and by name hold the same kinds. *)
Definition kindsConsistent (s : Impl) : Prop :=
  (forall id info, registeredTypes s !! id = Some info ->
                   nameToType s !! typeName info = Some info)
  /\ (forall n info, nameToType s !! n = Some info ->
                     typeName info = n
                     /\ exists id, registeredTypes s !! id = Some info)
  /\ (forall id info, registeredAttributes s !! id = Some info ->
                      nameToAttribute s !! attrName info = Some info)
  /\ (forall n info, nameToAttribute s !! n = Some info ->
                     attrName info = n
                     /\ exists id, registeredAttributes s !! id = Some info).

(** A context in which no kind is registered. *)
Definition noKinds (c : Context) : Impl :=
  {| context := c; registeredTypes := ∅; nameToType := ∅;
     registeredAttributes := ∅; nameToAttribute := ∅ |}.

Lemma addType_consistent env typeID info s s' :
  kindsConsistent s -> addType env typeID info s = Ok (tt, s') ->
  kindsConsistent s'.
Proof.
  intros (T1 & T2 & A1 & A2) H. unfold addType in H.
  apply bind_Ok_inv in H as ([] & s0 & Ha & H).
  apply assert_Ok_inv in Ha as [-> _].
  destruct (registeredTypes s !! typeID) eqn:Hid; [discriminate|].
  cbn [bind modify] in H.
  destruct (nameToType s !! typeName info) eqn:Hn; [discriminate|].
  cbn [modify] in H. injection H as <-.
  unfold kindsConsistent. simpl. split; [|split; [|split; done]].
  - intros id i Hi. destruct (decide (typeID = id)) as [->|Hne].
    + rewrite lookup_insert_eq in Hi. injection Hi as ->.
      by rewrite lookup_insert_eq.
    + rewrite lookup_insert_ne in Hi by done. pose proof (T1 _ _ Hi) as Hi'.
      rewrite lookup_insert_ne; [done|]. intros E. rewrite <- E in Hi'. congruence.
  - intros n i Hi. destruct (decide (typeName info = n)) as [<-|Hne].
    + rewrite lookup_insert_eq in Hi. injection Hi as <-.
      split; [done|]. exists typeID. by rewrite lookup_insert_eq.
    + rewrite lookup_insert_ne in Hi by done.
      destruct (T2 _ _ Hi) as (E & id & Hid'). split; [done|].
      exists id. rewrite lookup_insert_ne; [done|]. intros <-. congruence.
Qed.

Lemma addAttribute_consistent env typeID info s s' :
  kindsConsistent s -> addAttribute env typeID info s = Ok (tt, s') ->
  kindsConsistent s'.
Proof.
  intros (T1 & T2 & A1 & A2) H. unfold addAttribute in H.
  apply bind_Ok_inv in H as ([] & s0 & Ha & H).
  apply assert_Ok_inv in Ha as [-> _].
  destruct (registeredAttributes s !! typeID) eqn:Hid; [discriminate|].
  cbn [bind modify] in H.
  destruct (nameToAttribute s !! attrName info) eqn:Hn; [discriminate|].
  cbn [modify] in H. injection H as <-.
  unfold kindsConsistent. simpl. split; [done|]. split; [done|]. split.
  - intros id i Hi. destruct (decide (typeID = id)) as [->|Hne].
    + rewrite lookup_insert_eq in Hi. injection Hi as ->.
      by rewrite lookup_insert_eq.
    + rewrite lookup_insert_ne in Hi by done. pose proof (A1 _ _ Hi) as Hi'.
      rewrite lookup_insert_ne; [done|]. intros E. rewrite <- E in Hi'. congruence.
  - intros n i Hi. destruct (decide (attrName info = n)) as [<-|Hne].
    + rewrite lookup_insert_eq in Hi. injection Hi as <-.
      split; [done|]. exists typeID. by rewrite lookup_insert_eq.
    + rewrite lookup_insert_ne in Hi by done.
      destruct (A2 _ _ Hi) as (E & id & Hid'). split; [done|].
      exists id. rewrite lookup_insert_ne; [done|]. intros <-. congruence.
Qed.

(** X12.  The kind tables stay consistent.  Starting from a context without
    kinds, whatever sequence of [addType] and [addAttribute] calls has
    returned, every kind that [lookup] finds under a TypeID is the kind
    [lookup] finds under that kind's own name, and every kind found under a
    name carries that name and is registered under some TypeID. *)
Theorem kind_tables_consistent :
  (forall c, kindsConsistent (noKinds c))
  /\ (forall env typeID info s s',
        kindsConsistent s -> addType env typeID info s = Ok (tt, s') ->
        kindsConsistent s')
  /\ (forall env typeID info s s',
        kindsConsistent s -> addAttribute env typeID info s = Ok (tt, s') ->
        kindsConsistent s')
  /\ (forall s, kindsConsistent s ->
        (forall id info, AbstractType_lookup id s = Ok (info, s) ->
           AbstractType_lookupName (typeName info) s = Some info)
        /\ (forall n info, AbstractType_lookupName n s = Some info ->
              typeName info = n
              /\ exists id, AbstractType_lookup id s = Ok (info, s))
        /\ (forall id info, AbstractAttribute_lookup id s = Ok (info, s) ->
              AbstractAttribute_lookupName (attrName info) s = Some info)
        /\ (forall n info, AbstractAttribute_lookupName n s = Some info ->
              attrName info = n
              /\ exists id, AbstractAttribute_lookup id s = Ok (info, s))).
Proof.
  split; [|split; [|split]].
  - intros c. unfold kindsConsistent, noKinds. simpl.
    split; [|split; [|split]]; intros ? ? E; by rewrite lookup_empty in E.
  - apply addType_consistent.
  - apply addAttribute_consistent.
  - intros s (T1 & T2 & A1 & A2).
    unfold AbstractType_lookup, AbstractType_lookupMutable, AbstractType_lookupName,
      AbstractAttribute_lookup, AbstractAttribute_lookupMutable,
      AbstractAttribute_lookupName.
    split; [|split; [|split]].
    + intros id info H. destruct (registeredTypes s !! id) eqn:E; [|discriminate].
      injection H as ->. by apply (T1 id).
    + intros n info H. destruct (T2 _ _ H) as (E & id & Hid).
      split; [done|]. exists id. by rewrite Hid.
    + intros id info H. destruct (registeredAttributes s !! id) eqn:E; [|discriminate].
      injection H as ->. by apply (A1 id).
    + intros n info H. destruct (A2 _ _ H) as (E & id & Hid).
      split; [done|]. exists id. by rewrite Hid.
Qed.

Definition sampleType : AbstractType :=
  {| typeName := "test.foo"; typeInfo := 1%nat |}.
Definition sampleAttribute : AbstractAttribute :=
  {| attrName := "test.bar"; attrInfo := 2%nat |}.

Lemma addType_lookup_witness :
  exists s', addType (quietEnv false) idX sampleType (noKinds freshContext)
             = Ok (tt, s')
    /\ AbstractType_lookup idX s' = Ok (sampleType, s').
Proof.
  destruct (proj1 (addType_lookup (quietEnv false) idX sampleType
                     (noKinds freshContext) (or_intror eq_refl))
              eq_refl eq_refl) as (s' & H1 & H2 & _).
  exists s'. by split.
Defined.

Lemma addAttribute_lookup_witness :
  exists s', addAttribute (quietEnv false) idY sampleAttribute (noKinds freshContext)
             = Ok (tt, s')
    /\ AbstractAttribute_lookup idY s' = Ok (sampleAttribute, s').
Proof.
  destruct (proj1 (addAttribute_lookup (quietEnv false) idY sampleAttribute
                     (noKinds freshContext) (or_intror eq_refl))
              eq_refl eq_refl) as (s' & H1 & H2 & _).
  exists s'. by split.
Defined.

(** ** Promised dialect interfaces *)

Import DialectInterfaces.

(** X13.  The life of a promised interface.  After
    [declarePromisedInterface] for a pair of concrete class and interface,
    [hasPromisedInterface] holds for the pair and a use of the interface is
    a fatal error; after [handleAdditionOfUndefinedPromisedInterface] for the
    pair the promise is gone and a use returns; promises for other pairs are
    not affected by either.  [getRegisteredInterface] checks the promise of
    the dialect's own TypeID in a build with assertions only: without
    NDEBUG a promised interface is a fatal error, with NDEBUG the call
    answers from the table of registered interfaces, a null pointer for an
    interface that is not registered. *)
Theorem promised_interface_lifecycle :
  forall (d : DialectInterfaces.t) (interfaceID concreteID : TypeID.t)
         (interfaceName : string),
    (exists d1,
       declarePromisedInterface interfaceID concreteID d = Ok (tt, d1)
       /\ hasPromisedInterface concreteID interfaceID d1 = true
       /\ aborts (handleUseOfUndefinedPromisedInterface concreteID interfaceID
                    interfaceName d1) = true
       /\ (forall r i, (r, i) <> (concreteID, interfaceID) ->
             hasPromisedInterface r i d1 = hasPromisedInterface r i d)
       /\ registeredInterfaces d1 = registeredInterfaces d
       /\ exists d2,
            handleAdditionOfUndefinedPromisedInterface concreteID interfaceID d1
            = Ok (tt, d2)
            /\ hasPromisedInterface concreteID interfaceID d2 = false
            /\ handleUseOfUndefinedPromisedInterface concreteID interfaceID
                 interfaceName d2 = Ok (tt, d2)
            /\ (forall r i, (r, i) <> (concreteID, interfaceID) ->
                  hasPromisedInterface r i d2 = hasPromisedInterface r i d))
    /\ getRegisteredInterface true interfaceID d
       = Ok (registeredInterfaces d !! interfaceID, d)
    /\ (hasPromisedInterface (Dialect.getTypeID (dialect d)) interfaceID d = true ->
        aborts (getRegisteredInterface false interfaceID d) = true)
    /\ (hasPromisedInterface (Dialect.getTypeID (dialect d)) interfaceID d = false ->
        getRegisteredInterface false interfaceID d
        = Ok (registeredInterfaces d !! interfaceID, d)).
Proof.
  intros d interfaceID concreteID interfaceName.
  split; [|split; [|split]].
  - eexists. split; [reflexivity|].
    unfold hasPromisedInterface, handleUseOfUndefinedPromisedInterface. simpl.
    assert (H1 : bool_decide ((concreteID, interfaceID)
                   ∈ {[(concreteID, interfaceID)]} ∪ unresolvedPromisedInterfaces d)
                 = true)
      by (apply bool_decide_eq_true, elem_of_union; left;
          by apply elem_of_singleton).
    rewrite H1. split; [done|]. split; [done|]. split.
    { intros r i Hne. apply bool_decide_ext.
      rewrite elem_of_union, elem_of_singleton. tauto. }
    split; [done|].
    eexists. split; [reflexivity|]. simpl.
    assert (H2 : bool_decide ((concreteID, interfaceID)
                   ∈ ({[(concreteID, interfaceID)]} ∪ unresolvedPromisedInterfaces d)
                     ∖ {[(concreteID, interfaceID)]}) = false)
      by (apply bool_decide_eq_false; rewrite elem_of_difference, elem_of_singleton;
          tauto).
    rewrite H2. split; [done|]. split; [done|].
    intros r i Hne. apply bool_decide_ext.
    rewrite elem_of_difference, elem_of_union, !elem_of_singleton. tauto.
  - reflexivity.
  - intros H. unfold getRegisteredInterface, bind,
      handleUseOfUndefinedPromisedInterface.
    unfold hasPromisedInterface in H. by rewrite H.
  - intros H. unfold getRegisteredInterface, bind,
      handleUseOfUndefinedPromisedInterface.
    unfold hasPromisedInterface in H. by rewrite H.
Qed.

(** ** LogicalResult and FailureOr *)

(** X14.  [failed] is the negation of [succeeded], and [failure(b)] is
    [success(!b)].  A [FailureOr] built from a value converts to success and
    one built from a failure to failure.  Building a [FailureOr] from a
    success result trips the assertion in a build with assertions, and
    without them yields an empty [FailureOr], so that the success is turned
    into a failure.  The converting constructor keeps success and failure.
    A [ParseResult] is true in a boolean context exactly when it failed. *)
Theorem logical_result_laws :
  (forall r, LogicalResult.failed r = negb (LogicalResult.succeeded r))
  /\ (forall b, LogicalResult.failure b = LogicalResult.success (negb b))
  /\ (forall b, LogicalResult.succeeded (LogicalResult.success b) = b
                /\ LogicalResult.failed (LogicalResult.failure b) = b)
  /\ (forall (T : Type) (y : T),
        LogicalResult.succeeded
          (LogicalResult.FailureOr_to_result (LogicalResult.FailureOr_of_value y))
        = true)
  /\ (forall (T : Type) (ndebug : bool),
        exists x : LogicalResult.FailureOr T,
          LogicalResult.FailureOr_of_result ndebug (LogicalResult.failure true)
          = Ok x
          /\ LogicalResult.failed (LogicalResult.FailureOr_to_result x) = true)
  /\ (forall (T : Type),
        LogicalResult.FailureOr_of_result (T := T) false (LogicalResult.success true)
        = AssertionFailure "success should be constructed with an instance of 'T'"
        /\ exists x : LogicalResult.FailureOr T,
             LogicalResult.FailureOr_of_result true (LogicalResult.success true)
             = Ok x
             /\ LogicalResult.failed (LogicalResult.FailureOr_to_result x) = true)
  /\ (forall (U T : Type) (conv : U -> T) (x : LogicalResult.FailureOr U),
        LogicalResult.FailureOr_to_result (LogicalResult.FailureOr_convert conv x)
        = LogicalResult.FailureOr_to_result x)
  /\ (forall r, LogicalResult.ParseResult_to_bool r = LogicalResult.failed r).
Proof.
  split; [done|]. split; [done|].
  split; [intros b; split; [done|apply negb_involutive]|].
  split; [done|].
  split; [intros T ndebug; exists None; by destruct ndebug|].
  split; [intros T; split; [done|by exists None]|].
  split; [|done].
  intros U T conv [y|]; reflexivity.
Qed.

(** ** Extensions of a dialect registry *)

Lemma try_emplace_NoDup {V} (k : TypeID.t) (x : V) (v : list (TypeID.t * V)) :
  NoDup v.*1 -> NoDup (DialectRegistry.MapVector_try_emplace k x v).1.*1.
Proof.
  intros H. unfold DialectRegistry.MapVector_try_emplace.
  destruct (DialectRegistry.MapVector_contains k v) eqn:E; simpl; [done|].
  rewrite fmap_app. apply NoDup_app. split; [done|]. split.
  - intros k' Hk' ->%list_elem_of_singleton.
    apply MapVector_contains_spec in Hk'. simpl in Hk'. congruence.
  - apply NoDup_singleton.
Qed.

(** X15.  [addExtension(extensionID, extension)]: the first extension
    registered under an ID stays.  A call under an ID the registry does not
    hold returns true and puts the extension after those present; a call
    under an ID it holds returns false and leaves the registry as it is, so
    the extension registered first is kept and a repeated call changes
    nothing.  The dialect entries are never touched and the extension IDs
    stay pairwise distinct. *)
Theorem addExtension_first_wins :
  forall (r : DialectRegistry.t) (extensionID : TypeID.t)
         (extension : DialectRegistry.DialectExtensionBase),
    let r1 := (DialectRegistry.addExtension extensionID extension r).1 in
    (extensionID ∉ (DialectRegistry.extensions r).*1 ->
       (DialectRegistry.addExtension extensionID extension r).2 = true
       /\ DialectRegistry.extensions r1
          = DialectRegistry.extensions r ++ [(extensionID, extension)])
    /\ (extensionID ∈ (DialectRegistry.extensions r).*1 ->
       DialectRegistry.addExtension extensionID extension r = (r, false))
    /\ (forall extension',
          DialectRegistry.addExtension extensionID extension' r1 = (r1, false))
    /\ DialectRegistry.registry r1 = DialectRegistry.registry r
    /\ (NoDup (DialectRegistry.extensions r).*1 ->
        NoDup (DialectRegistry.extensions r1).*1).
Proof.
  intros r extensionID extension r1.
  assert (Hpresent : forall (r0 : DialectRegistry.t) e,
            extensionID ∈ (DialectRegistry.extensions r0).*1 ->
            DialectRegistry.addExtension extensionID e r0 = (r0, false)).
  { intros r0 e Hin. apply MapVector_contains_spec in Hin.
    unfold DialectRegistry.addExtension, DialectRegistry.MapVector_try_emplace.
    rewrite Hin. by destruct r0. }
  split; [|split; [|split; [|split]]].
  - intros Hnew. subst r1.
    unfold DialectRegistry.addExtension, DialectRegistry.MapVector_try_emplace.
    destruct (DialectRegistry.MapVector_contains extensionID
                (DialectRegistry.extensions r)) eqn:E; [|done].
    by apply MapVector_contains_spec in E.
  - apply Hpresent.
  - intros extension'. apply Hpresent. subst r1.
    unfold DialectRegistry.addExtension.
    pose proof (MapVector_try_emplace_keys extensionID extension
                  (DialectRegistry.extensions r) extensionID) as Hk.
    destruct (DialectRegistry.MapVector_try_emplace extensionID extension
                (DialectRegistry.extensions r)) as [v ins]. simpl in *.
    apply Hk. by left.
  - subst r1. unfold DialectRegistry.addExtension.
    by destruct (DialectRegistry.MapVector_try_emplace _ _ _).
  - intros Hnd. subst r1. unfold DialectRegistry.addExtension.
    pose proof (try_emplace_NoDup extensionID extension _ Hnd) as Hk.
    by destruct (DialectRegistry.MapVector_try_emplace _ _ _).
Qed.

Lemma filter_new_ids_snoc {V} (v : list (TypeID.t * V)) (e : TypeID.t * V)
    (es : list (TypeID.t * V)) :
  e.1 ∉ es.*1 ->
  filter (fun e' : TypeID.t * V => e'.1 ∉ (v ++ [e]).*1) es
  = filter (fun e' : TypeID.t * V => e'.1 ∉ v.*1) es.
Proof.
  induction es as [|e0 es IH]; [done|]. intros Hn.
  rewrite fmap_cons, not_elem_of_cons in Hn. destruct Hn as [Hne Hn].
  rewrite !filter_cons, (IH Hn).
  destruct (decide (e0.1 ∉ (v ++ [e]).*1)) as [H1|H1];
    destruct (decide (e0.1 ∉ v.*1)) as [H2|H2]; try done.
  - exfalso. apply H2. intros Hin. apply H1.
    rewrite fmap_app. apply elem_of_app. by left.
  - exfalso. apply H1. rewrite fmap_app. intros [Hin|Hin]%elem_of_app; [done|].
    simpl in Hin. apply list_elem_of_singleton in Hin. congruence.
Qed.

Lemma filter_none {A} (P : A -> Prop) `{!forall x, Decision (P x)} (l : list A) :
  (forall x, x ∈ l -> ~ P x) -> filter P l = [].
Proof.
  induction l as [|a l IH]; intros Hall; [done|].
  rewrite filter_cons_False by (apply Hall; by left).
  apply IH. intros x Hx. apply Hall. by right.
Qed.

Lemma NoDup_fst_filter {K V} (P : K * V -> Prop) `{!forall x, Decision (P x)}
    (l : list (K * V)) :
  NoDup l.*1 -> NoDup (filter P l).*1.
Proof.
  induction l as [|a l IH]; [done|].
  rewrite fmap_cons, NoDup_cons. intros [Ha Hl]. rewrite filter_cons.
  destruct (decide (P a)); [|by apply IH].
  rewrite fmap_cons. apply NoDup_cons. split; [|by apply IH].
  intros (y & Hy & Hin%list_elem_of_filter)%list_elem_of_fmap.
  apply Ha. apply list_elem_of_fmap. exists y. split; [done|apply Hin].
Qed.

(** The second loop of [appendTo], as a list. *)
Lemma appendTo_extensions_list
    (es : list (TypeID.t * DialectRegistry.DialectExtensionBase))
    (d : DialectRegistry.t) :
  NoDup es.*1 ->
  DialectRegistry.extensions
    (foldl (fun d (extension : TypeID.t * DialectRegistry.DialectExtensionBase) =>
              {| DialectRegistry.registry := DialectRegistry.registry d;
                 DialectRegistry.extensions :=
                   fst (DialectRegistry.MapVector_try_emplace (fst extension)
                          (DialectRegistry.clone (snd extension))
                          (DialectRegistry.extensions d)) |})
           d es)
  = DialectRegistry.extensions d
    ++ filter (fun e : TypeID.t * DialectRegistry.DialectExtensionBase =>
                 e.1 ∉ (DialectRegistry.extensions d).*1) es.
Proof.
  revert d. induction es as [|[k e] es IH]; intros d Hnd.
  - simpl. by rewrite filter_nil, app_nil_r.
  - rewrite fmap_cons, NoDup_cons in Hnd. destruct Hnd as [Hk Hnd].
    simpl. rewrite (IH _ Hnd). simpl.
    unfold DialectRegistry.MapVector_try_emplace, DialectRegistry.clone.
    rewrite filter_cons. simpl.
    destruct (DialectRegistry.MapVector_contains k (DialectRegistry.extensions d))
      eqn:E; simpl.
    + apply MapVector_contains_spec in E.
      destruct (decide (k ∉ (DialectRegistry.extensions d).*1)); done.
    + assert (Hn : k ∉ (DialectRegistry.extensions d).*1).
      { intros Hin%MapVector_contains_spec. congruence. }
      destruct (decide (k ∉ (DialectRegistry.extensions d).*1)); [|done].
      rewrite <- app_assoc. simpl. f_equal. f_equal.
      by apply (filter_new_ids_snoc _ (k, e)).
Qed.

(** X16.  How [appendTo] merges extensions.  The extensions of the
    destination stay first, unchanged and in their order; after them come
    the extensions of the source whose ID the destination did not hold, in
    the order of the source.  An extension of the source under an ID the
    destination holds is dropped.  Hence appending the same registry a
    second time changes no extension, and the extension IDs of the
    destination stay pairwise distinct. *)
Theorem appendTo_merges_extensions :
  forall (source destination : DialectRegistry.t),
    NoDup (DialectRegistry.extensions source).*1 ->
    let merged := DialectRegistry.appendTo source destination in
    DialectRegistry.extensions merged
    = DialectRegistry.extensions destination
      ++ filter (fun e : TypeID.t * DialectRegistry.DialectExtensionBase =>
                   e.1 ∉ (DialectRegistry.extensions destination).*1)
                (DialectRegistry.extensions source)
    /\ DialectRegistry.extensions (DialectRegistry.appendTo source merged)
       = DialectRegistry.extensions merged
    /\ (NoDup (DialectRegistry.extensions destination).*1 ->
        NoDup (DialectRegistry.extensions merged).*1).
Proof.
  intros source destination Hnd merged.
  assert (Hgen : forall dest,
    DialectRegistry.extensions (DialectRegistry.appendTo source dest)
    = DialectRegistry.extensions dest
      ++ filter (fun e : TypeID.t * DialectRegistry.DialectExtensionBase =>
                   e.1 ∉ (DialectRegistry.extensions dest).*1)
                (DialectRegistry.extensions source)).
  { intros dest. unfold DialectRegistry.appendTo.
    rewrite appendTo_extensions_list by done.
    by rewrite (proj2 (appendTo_dialects_keys
                         (DialectRegistry.registry source) dest)). }
  split; [apply Hgen|]. split.
  - rewrite (Hgen merged).
    replace (filter _ (DialectRegistry.extensions source)) with
      (@nil (TypeID.t * DialectRegistry.DialectExtensionBase));
      [by rewrite app_nil_r|].
    symmetry. apply filter_none. intros e He Hnot. apply Hnot.
    subst merged. rewrite (Hgen destination), fmap_app, elem_of_app.
    destruct (decide (e.1 ∈ (DialectRegistry.extensions destination).*1))
      as [Hin|Hin]; [by left|right].
    apply list_elem_of_fmap. exists e. split; [done|].
    apply list_elem_of_filter. by split.
  - intros Hd. subst merged. rewrite (Hgen destination), fmap_app.
    apply NoDup_app. split; [done|]. split.
    + intros k Hk ([k' e] & -> & [Hnot _]%list_elem_of_filter)%list_elem_of_fmap.
      by apply Hnot.
    + by apply NoDup_fst_filter.
Qed.

Definition extensionP : DialectRegistry.DialectExtensionBase :=
  {| DialectRegistry.dialectNames := ["test"]; DialectRegistry.applyFn := 0%nat |}.
Definition extensionQ : DialectRegistry.DialectExtensionBase :=
  {| DialectRegistry.dialectNames := []; DialectRegistry.applyFn := 1%nat |}.

(** A registry with the extensions P under [idX] and Q under [idY], and a
    registry that holds Q under [idX]. *)
Definition registryPQ : DialectRegistry.t :=
  {| DialectRegistry.registry := ∅;
     DialectRegistry.extensions := [(idX, extensionP); (idY, extensionQ)] |}.
Definition registryQ : DialectRegistry.t :=
  {| DialectRegistry.registry := ∅;
     DialectRegistry.extensions := [(idX, extensionQ)] |}.

Lemma appendTo_merges_extensions_witness :
  DialectRegistry.extensions (DialectRegistry.appendTo registryPQ registryQ)
  = [(idX, extensionQ); (idY, extensionQ)].
Proof.
  refine (eq_trans (proj1 (appendTo_merges_extensions registryPQ registryQ _)) _).
  - simpl. apply NoDup_cons.
    split; [intros E%list_elem_of_singleton; discriminate E|apply NoDup_singleton].
  - vm_compute. reflexivity.
Defined.

(** ** Where the results of an operation are stored *)

Section ResultLayout.
Import Operation OperationPrefix.

Lemma getOpResultImpl_address pf op m h i type :
  sane pf -> header op m = Ok h ->
  0 <= i < numResults h -> numResults h < 2 ^ 32 ->
  getOpResultImpl pf op i m = Ok (resultEntry pf op i type).1.1.
Proof.
  intros (HsO & HsI & HsT & Hmax) Hh Hi HR.
  unfold getOpResultImpl, getNumResults. rewrite Hh.
  rewrite (proj2 (Z.ltb_lt i (numResults h))) by lia.
  rewrite andb_false_r. unfold resultEntry.
  destruct (i <? maxInlineResults pf) eqn:E; simpl; [done|].
  apply Z.ltb_ge in E. by rewrite unsigned_small by lia.
Qed.

(** X17.  The results of an operation lie in its prefix allocation, in
    reverse order and without overlap.  For an operation with [R] results,
    of which the first [min(R, inline capacity)] are inline, every valid
    result number is resolved by [getOpResultImpl] to an address such that
    the object there ends at or before the operation, starts at or after the
    operation minus [prefixAllocSize], and starts at or after the end of the
    object of every higher result number.  In a build with assertions a
    result number that is not below [R] trips the assertion. *)
Theorem result_storage_layout :
  forall (pf : Platform) (op : Z) (m : Memory) (h : Header),
    sane pf ->
    sizeofInlineOpResult pf < 2 ^ 31 -> sizeofOutOfLineOpResult pf < 2 ^ 31 ->
    header op m = Ok h ->
    0 <= numResults h < 2 ^ 32 ->
    let R := numResults h in
    let numInline := Z.min R (maxInlineResults pf) in
    let numOutOfLine := R - numInline in
    (forall i, 0 <= i < R ->
       exists a,
         getOpResultImpl pf op i m = Ok a
         /\ op - prefixAllocSize pf numOutOfLine numInline <= a
         /\ a + sizeofOpResult pf i <= op
         /\ forall j, i < j < R ->
              exists b, getOpResultImpl pf op j m = Ok b
                /\ b + sizeofOpResult pf j <= a)
    /\ (forall i, R <= i -> NDEBUG pf = false ->
          getOpResultImpl pf op i m
          = AssertionFailure "Result number is out of range for operation").
Proof.
  intros pf op m h Hsane HI HO Hh HR R numInline numOutOfLine.
  pose proof Hsane as (HsO & HsI & HsT & Hmax).
  assert (Hprefix : prefixAllocSize pf numOutOfLine numInline
                    = sizeofOutOfLineOpResult pf * numOutOfLine
                      + sizeofInlineOpResult pf * numInline).
  { unfold prefixAllocSize, wrap. apply Z.mod_small.
    unfold numOutOfLine, numInline. fold R in HR.
    set (nI := Z.min R (maxInlineResults pf)).
    assert (HnI : 0 <= nI <= R) by (unfold nI; lia).
    assert (0 <= sizeofOutOfLineOpResult pf * (R - nI))
      by (apply Z.mul_nonneg_nonneg; lia).
    assert (0 <= sizeofInlineOpResult pf * nI)
      by (apply Z.mul_nonneg_nonneg; lia).
    assert (sizeofOutOfLineOpResult pf * (R - nI) <= (2 ^ 31 - 1) * 2 ^ 32)
      by (apply Z.mul_le_mono_nonneg; lia).
    assert (sizeofInlineOpResult pf * nI <= (2 ^ 31 - 1) * 2 ^ 32)
      by (apply Z.mul_le_mono_nonneg; lia).
    lia. }
  assert (Haddr : forall i, 0 <= i < R ->
    let e := resultEntry pf op i None in
    getOpResultImpl pf op i m = Ok e.1.1
    /\ e.1.2 = sizeofOpResult pf i
    /\ e.1.1 + e.1.2 <= op
    /\ (i < maxInlineResults pf ->
          e.1.1 = op - sizeofInlineOpResult pf * (i + 1))
    /\ (maxInlineResults pf <= i ->
          e.1.1 = op - sizeofInlineOpResult pf * maxInlineResults pf
                  - sizeofOutOfLineOpResult pf * (i - maxInlineResults pf + 1))).
  { intros i Hi e.
    destruct (resultEntry_range pf op i None Hsane) as (H1 & H2 & H3 & H4);
      [unfold R in Hi; lia|].
    split; [apply (getOpResultImpl_address pf op m h); unfold R in *; try done; lia|].
    split.
    - unfold e, resultEntry, sizeofOpResult.
      by destruct (i <? maxInlineResults pf).
    - split; [exact H2|]. split; [intros Hlt; by apply H3|intros Hge; by apply H4]. }
  split.
  - intros i Hi. destruct (Haddr i Hi) as (Ga & Gs & Ge & Gi & Go).
    eexists. split; [exact Ga|]. rewrite <- Gs, Hprefix.
    split; [|split; [exact Ge|]].
    + unfold numOutOfLine, numInline.
      destruct (Z_lt_le_dec i (maxInlineResults pf)) as [Hlt|Hge].
      * rewrite (Gi Hlt).
        assert (i + 1 <= Z.min R (maxInlineResults pf)) by lia.
        assert (0 <= R - Z.min R (maxInlineResults pf)) by lia. nia.
      * rewrite (Go Hge).
        replace (Z.min R (maxInlineResults pf)) with (maxInlineResults pf) by lia.
        nia.
    + intros j Hj. destruct (Haddr j ltac:(lia)) as (Gb & Gt & _ & Gji & Gjo).
      eexists. split; [exact Gb|]. rewrite <- Gt.
      pose proof (resultEntry_disjoint pf op i j None None Hsane
                    ltac:(lia) ltac:(lia) ltac:(unfold R in *; lia)) as Hd.
      destruct (resultEntry pf op i None) as [[ai si] oi].
      destruct (resultEntry pf op j None) as [[aj sj] oj].
      simpl in *. apply andb_false_iff in Hd.
      destruct (Z_lt_le_dec j (maxInlineResults pf)) as [Hjm|Hjm].
      * rewrite (Gji Hjm), (Gi ltac:(lia)). subst sj.
        unfold sizeofOpResult. rewrite (proj2 (Z.ltb_lt _ _) Hjm). nia.
      * rewrite (Gjo Hjm). subst sj. unfold sizeofOpResult.
        rewrite (proj2 (Z.ltb_ge _ _) Hjm).
        destruct (Z_lt_le_dec i (maxInlineResults pf)) as [Him|Him].
        -- rewrite (Gi Him). nia.
        -- rewrite (Go Him). nia.
  - intros i Hi Hd. unfold getOpResultImpl, getNumResults. rewrite Hh, Hd.
    fold R. by rewrite (proj2 (Z.ltb_ge i R)) by lia.
Qed.

Lemma result_storage_layout_witness :
  exists op m' a b,
    Operation.create samplePlatform 4096 sampleResultTypes [] 2 true 0 []
      = Some (op, m')
    /\ getOpResultImpl samplePlatform op 5 m' = Ok a
    /\ getOpResultImpl samplePlatform op 7 m' = Ok b
    /\ b + sizeofOpResult samplePlatform 7 <= a.
Proof.
  destruct (Operation.create samplePlatform 4096 sampleResultTypes
              [] 2 true 0 []) as [[op m']|] eqn:E;
    [|vm_compute in E; discriminate E].
  assert (Hh : header op m'
               = Ok {| numResults := 8; numSuccs := 0; numRegions := 2;
                       hasOperandStorage := true; propertiesStorageSize := 0 |})
    by (vm_compute in E; injection E as <- <-; vm_compute; reflexivity).
  destruct (proj1 (result_storage_layout samplePlatform op m'
              {| numResults := 8; numSuccs := 0; numRegions := 2;
                 hasOperandStorage := true; propertiesStorageSize := 0 |}
              samplePlatform_sane ltac:(simpl; lia) ltac:(simpl; lia)
              Hh ltac:(simpl; lia)) 5 ltac:(simpl; lia))
    as (a & Ha & _ & _ & Hj).
  destruct (Hj 7 ltac:(simpl; lia)) as (b & Hb & Hab).
  exists op, m', a, b. split; [reflexivity|].
  split; [exact Ha|]. split; [exact Hb|exact Hab].
Defined.

End ResultLayout.

(** ** Loading by name *)

(** X18.  A dialect registered with the allocator that
    [DialectRegistry::insert<D>()] records, a call of
    [ctx->getOrLoadDialect<D>()], is loaded once by [getOrLoadDialect(name)].
    When the call for a namespace that is not in the table returns, it
    returns a dialect that is then loaded under the namespace, and every
    later call returns that dialect without running any allocator and
    without changing the context. *)
Theorem getOrLoadDialectByName_loads_once :
  forall (env : Env) (D : DialectClass) (id : TypeID.t)
         (h : DialectRegistry.DialectAllocatorFunction)
         (c : Context) (r : option Dialect.t) (c' : Context),
    (forall r d, settles (applyExtensionsToDialect env r d)) ->
    (forall a, settles (constructor D a)) ->
    DialectRegistry.registry (dialectsRegistry (dialects c))
      !! getDialectNamespace D = Some (id, h) ->
    (forall c0, allocator env h c0 = getOrLoadDialectT env D c0) ->
    loadedDialects (dialects c) !! getDialectNamespace D = None ->
    getOrLoadDialectByName env (getDialectNamespace D) c = Ok (r, c') ->
    exists d, r = Some d
      /\ getLoadedDialect (getDialectNamespace D) c' = Some d
      /\ forall env', getOrLoadDialectByName env' (getDialectNamespace D) c'
                      = Ok (Some d, c').
Proof.
  intros env D id h c r c' Hext Hctor Hreg Halloc Hnone H.
  rewrite (getOrLoadDialectByName_registered env _ c id h) in H;
    [|unfold getLoadedDialect; by rewrite Hnone|done].
  rewrite Halloc in H.
  destruct (getOrLoadDialectT_settles env D Hext Hctor _ _ _ H)
    as (_ & _ & d & -> & Hd).
  exists d. split; [done|].
  assert (Hl : getLoadedDialect (getDialectNamespace D) c' = Some d)
    by (unfold getLoadedDialect; by rewrite Hd).
  split; [done|]. intros env'. unfold getOrLoadDialectByName. by rewrite Hl.
Qed.

(** An environment whose allocator 0 is the one [insert<D>()] records for
    the plain dialect class "test", and a context whose registry holds it. *)
Definition testEnv : Env :=
  {| NDEBUG := false;
     LLVM_ENABLE_THREADS := true;
     clOptions := None;
     allocator := fun _ => getOrLoadDialectT (quietEnv false) (plainDialect "test" idX);
     applyExtensionsToDialect := fun _ _ => ret tt;
     applyExtensionsToContext := fun _ => ret tt |}.
Definition testRegistered : Context :=
  set_dialectsRegistry
    (fun r => {| DialectRegistry.registry :=
                   <["test" := (idX, 0%nat)]> (DialectRegistry.registry r);
                 DialectRegistry.extensions := DialectRegistry.extensions r |})
    freshContext.

Lemma getOrLoadDialectByName_loads_once_witness :
  exists d c', getOrLoadDialectByName testEnv "test" testRegistered = Ok (Some d, c')
    /\ getOrLoadDialectByName (quietEnv true) "test" c' = Ok (Some d, c').
Proof.
  destruct (getOrLoadDialectByName_loads_once testEnv (plainDialect "test" idX)
              idX 0%nat testRegistered
              (match getOrLoadDialectByName testEnv "test" testRegistered with
               | Ok (r, _) => r | _ => None end)
              (match getOrLoadDialectByName testEnv "test" testRegistered with
               | Ok (_, c') => c' | _ => freshContext end))
    as (d & Hr & _ & Hd).
  - intros r d. apply ret_settles.
  - intros a. apply ret_settles.
  - reflexivity.
  - intros c0. reflexivity.
  - reflexivity.
  - vm_compute. reflexivity.
  - exists d. eexists. split; [|apply Hd].
    rewrite <- Hr. vm_compute. reflexivity.
Defined.

(** ** The dialect namespace of an operation name *)

Lemma split_contract sep s :
  occurs sep (StringAttrStorage.split sep s).1 = false
  /\ (occurs sep s = true ->
      s = (StringAttrStorage.split sep s).1
          +:+ String sep (StringAttrStorage.split sep s).2)
  /\ (occurs sep s = false ->
      StringAttrStorage.split sep s = (s, EmptyString)).
Proof.
  split; [|split; [|apply split_absent]].
  - induction s as [|ch rest IH]; simpl; [done|].
    destruct (Ascii.eqb ch sep) eqn:E; [done|].
    destruct (StringAttrStorage.split sep rest) as [l r]. simpl in *.
    by rewrite E.
  - induction s as [|ch rest IH]; simpl; [done|].
    destruct (Ascii.eqb ch sep) eqn:E.
    + intros _. apply Ascii.eqb_eq in E as ->. done.
    + simpl. intros H. destruct (StringAttrStorage.split sep rest) as [l r].
      simpl in *.
      transitivity (String ch (l +:+ String sep r));
        [f_equal; by apply IH|reflexivity].
Qed.

(** X19.  [OperationName::getDialectNamespace] and the split it rests on.
    The name is split at its first dot: the part before holds no dot, and
    the two parts with a dot between them give the name back; a name
    without a dot is split into itself and the empty string.  So an
    operation name that refers to no dialect has the text before its first
    dot as namespace, and the whole name when it holds no dot; a name that
    refers to a dialect has the namespace of that dialect.  For a name
    [ns.rest] of a dialect that is not loaded, this is the namespace under
    which [StringAttrStorage::initialize] records the storage of the name. *)
Theorem operation_name_namespace :
  forall (name : string),
    let unregistered :=
      {| OperationName.getStringRef := name; OperationName.getDialect := None |} in
    let ns := OperationName.getDialectNamespace unregistered in
    occurs "." ns = false
    /\ (occurs "." name = false -> ns = name)
    /\ (occurs "." name = true ->
        exists rest, name = ns +:+ String "." rest)
    /\ (forall d, OperationName.getDialectNamespace
                    {| OperationName.getStringRef := name;
                       OperationName.getDialect := Some d |}
                  = Dialect.getNamespace d)
    /\ (forall this rest c,
          name = ns +:+ String "." rest ->
          ns <> EmptyString -> rest <> EmptyString ->
          getLoadedDialect ns c = None ->
          exists c1, StringAttrStorage.initialize this name c = Ok (tt, c1)
            /\ exists storages,
                 dialectReferencingStrAttrs (dialects c1) !! ns = Some storages
                 /\ this ∈ storages).
Proof.
  intros name unregistered ns.
  destruct (split_contract "." name) as (S1 & S2 & S3).
  assert (Hns : ns = (StringAttrStorage.split "." name).1) by reflexivity.
  split; [by rewrite Hns|]. split; [|split; [|split]].
  - intros H. by rewrite Hns, (S3 H).
  - intros H. exists (StringAttrStorage.split "." name).2. rewrite Hns.
    by apply S2.
  - done.
  - intros this rest c Hname Hne Hrest Hl.
    assert (Hdot : occurs "." ns = false) by by rewrite Hns.
    rewrite Hname, (initialize_unloaded this ns rest c Hne Hrest Hdot Hl).
    eexists. split; [reflexivity|]. simpl. rewrite lookup_insert_eq.
    eexists. split; [reflexivity|].
    apply elem_of_app. right. by apply list_elem_of_singleton.
Qed.

(** ** Threading: the global switch and an injected pool *)

(** X20.  The global switch overrides every call.  When threading is
    globally disabled (the command-line flag is set, or the build has no
    threads), a context is constructed with threading off and without a
    pool whatever setting is asked for, and from a context with threading
    off no call of [disableMultithreading], [enableMultithreading] or
    [setThreadPool] that returns turns it on: [isMultithreadingEnabled]
    stays false and [getNumThreads] stays 1. *)
Theorem global_switch_overrides :
  forall (env : Env) (getMaxConcurrency : nat -> Z),
    isThreadingGloballyDisabled env = true ->
    (forall setting h,
       let c := MLIRContextImpl_new
                  (match setting with ENABLED => true | DISABLED => false end
                   && negb (isThreadingGloballyDisabled env)) h in
       threadingIsEnabled (threads c) = false
       /\ threadPool (threads c) = None
       /\ heap c = h)
    /\ (forall c, threadingIsEnabled (threads c) = false ->
          (forall b c', disableMultithreading env b c = Ok (tt, c') -> c' = c)
          /\ (forall b c', enableMultithreading env b c = Ok (tt, c') -> c' = c)
          /\ (forall pool c', setThreadPool env pool c = Ok (tt, c') ->
                threadingIsEnabled (threads c') = false
                /\ isMultithreadingEnabled env c' = false
                /\ getNumThreads env getMaxConcurrency c' = Ok (1, c'))
          /\ isMultithreadingEnabled env c = false
          /\ getNumThreads env getMaxConcurrency c = Ok (1, c)).
Proof.
  intros env gmc Hg. split.
  - intros setting h. rewrite Hg, andb_false_r. done.
  - intros c Ht.
    assert (Hoff : forall c0, threadingIsEnabled (threads c0) = false ->
              isMultithreadingEnabled env c0 = false
              /\ getNumThreads env gmc c0 = Ok (1, c0)).
    { intros c0 H0. unfold getNumThreads, isMultithreadingEnabled.
      by rewrite H0. }
    split; [|split; [|split]].
    + intros b c' H. rewrite disableMultithreading_globally_disabled in H by done.
      by injection H as <-.
    + intros b c' H. unfold enableMultithreading in H.
      rewrite disableMultithreading_globally_disabled in H by done.
      by injection H as <-.
    + intros pool c' H. unfold setThreadPool in H.
      apply bind_Ok_inv in H as ([] & c0 & Ha & H).
      apply assert_Ok_inv in Ha as [-> _].
      apply bind_Ok_inv in H as ([] & c1 & H1 & H).
      apply bind_Ok_inv in H as ([] & c2 & H2 & H).
      unfold enableMultithreading in H.
      rewrite disableMultithreading_globally_disabled in H by done.
      injection H as <-.
      assert (Hc2 : threadingIsEnabled (threads c2) = false).
      { revert H1 H2. destruct_context c. run_threads. intros [= <-].
        destruct ownedThreadPool0; simpl; intros [= <-]; simpl; done. }
      split; [done|]. by apply Hoff.
    + by apply Hoff.
Qed.

(** A build without threads. *)
Definition noThreadsEnv : Env :=
  {| MLIRContext.NDEBUG := false; LLVM_ENABLE_THREADS := false;
     clOptions := None; allocator := fun _ => ret None;
     applyExtensionsToDialect := fun _ _ => ret tt;
     applyExtensionsToContext := fun _ => ret tt |}.

Lemma global_switch_overrides_witness :
  getNumThreads noThreadsEnv (fun _ => 8) freshContext = Ok (1, freshContext).
Proof.
  exact (proj2 (proj2 (proj2 (proj2 (proj2
           (global_switch_overrides noThreadsEnv (fun _ => 8) eq_refl)
           freshContext eq_refl))))).
Defined.

(** X21.  An injected pool is the pool the context uses.  On a context with
    threading disabled, outside a multi-threaded execution region and with
    threading not globally disabled, [setThreadPool(pool)] returns and turns
    threading on with the given pool: [getThreadPool] returns that pool and
    [getNumThreads] its concurrency (when the build has threads).  A later
    [disableMultithreading(true)] keeps the pool installed and alive, and a
    following [enableMultithreading] uses it again without creating a pool
    of the context's own. *)
Theorem injected_pool_is_used :
  forall (env : Env) (getMaxConcurrency : nat -> Z) (pool : nat) (c : Context),
    isThreadingGloballyDisabled env = false ->
    singleThreaded env c ->
    threadingIsEnabled (threads c) = false ->
    exists c1,
      setThreadPool env pool c = Ok (tt, c1)
      /\ threadingIsEnabled (threads c1) = true
      /\ ownedThreadPool (threads c1) = None
      /\ (LLVM_ENABLE_THREADS env = true ->
            getThreadPool env c1 = Ok (pool, c1)
            /\ getNumThreads env getMaxConcurrency c1
               = Ok (getMaxConcurrency pool, c1))
      /\ exists c2,
           disableMultithreading env true c1 = Ok (tt, c2)
           /\ threadPool (threads c2) = Some pool
           /\ heap c2 = heap c1
           /\ getNumThreads env getMaxConcurrency c2 = Ok (1, c2)
           /\ exists c3,
                enableMultithreading env true c2 = Ok (tt, c3)
                /\ threadPool (threads c3) = Some pool
                /\ ownedThreadPool (threads c3) = None
                /\ heap c3 = heap c1.
Proof.
  intros env gmc pool c Hg Hs Ht.
  assert (Hrun : forall b c0,
    singleThreaded env c0 ->
    threadPool (threads c0) = Some pool -> ownedThreadPool (threads c0) = None ->
    exists c', disableMultithreading env b c0 = Ok (tt, c')
      /\ threadingIsEnabled (threads c') = negb b
      /\ threadPool (threads c') = Some pool
      /\ ownedThreadPool (threads c') = None
      /\ heap c' = heap c0
      /\ multiThreadedExecutionContext (threads c')
         = multiThreadedExecutionContext (threads c0)).
  { intros b c0 Hs0 Hp Ho. unfold disableMultithreading. rewrite Hg.
    rewrite (bind_Ok _ _ _ _ _ (assert_singleThreaded _ _ _ Hs0)).
    destruct_context c0. subst.
    cbn [bind modify gets ret assign_threadingIsEnabled
         uniquers_disableMultithreading]. simpl.
    destruct b; run_threads; eexists; (split; [reflexivity|]); simpl; auto 10. }
  assert (Hset : exists c1,
    setThreadPool env pool c = Ok (tt, c1)
    /\ threadingIsEnabled (threads c1) = true
    /\ threadPool (threads c1) = Some pool
    /\ ownedThreadPool (threads c1) = None
    /\ singleThreaded env c1).
  { unfold setThreadPool.
    erewrite bind_Ok; cycle 1.
    { apply assert_holds. right. unfold isMultithreadingEnabled. by rewrite Ht. }
    unfold enableMultithreading.
    destruct_context c. subst.
    destruct ownedThreadPool0 as [q|]; run_threads;
      match goal with
      | |- exists c1, disableMultithreading _ _ ?c0 = _ /\ _ =>
          destruct (Hrun false c0) as (c1 & R1 & T1 & P1 & O1 & H1 & M1);
            [unfold singleThreaded in *; simpl in *; exact Hs
            |reflexivity|reflexivity|]
      end;
      exists c1; (split; [exact R1|]); (split; [exact T1|]);
      (split; [exact P1|]); (split; [exact O1|]);
      unfold singleThreaded in *; rewrite M1; simpl in *; exact Hs. }
  destruct Hset as (c1 & R1 & T1 & P1 & O1 & Hs1).
  exists c1. split; [exact R1|].
  split; [done|]. split; [done|].
  split.
  { intros Hl. unfold getThreadPool, getNumThreads, isMultithreadingEnabled.
    rewrite T1, Hl, P1. simpl. unfold bind, assert. by destruct (NDEBUG env). }
  destruct (Hrun true c1 Hs1 P1 O1) as (c2 & R2 & T2 & P2 & O2 & H2 & M2).
  exists c2. split; [done|]. split; [done|]. split; [done|]. split.
  { unfold getNumThreads, isMultithreadingEnabled. by rewrite T2. }
  assert (Hs2 : singleThreaded env c2)
    by (unfold singleThreaded in *; by rewrite M2).
  destruct (Hrun false c2 Hs2 P2 O2) as (c3 & R3 & T3 & P3 & O3 & H3 & M3).
  exists c3. split; [done|]. split; [done|]. split; [done|]. congruence.
Qed.

Lemma injected_pool_is_used_witness :
  exists c1,
    setThreadPool (quietEnv false) 7%nat
      (MLIRContextImpl_new false heapWithExternalPool) = Ok (tt, c1)
    /\ getThreadPool (quietEnv false) c1 = Ok (7%nat, c1).
Proof.
  destruct (injected_pool_is_used (quietEnv false) (fun _ => 4) 7%nat
              (MLIRContextImpl_new false heapWithExternalPool)
              eq_refl (or_intror eq_refl) eq_refl)
    as (c1 & H1 & _ & _ & H2 & _).
  exists c1. split; [exact H1|]. exact (proj1 (H2 eq_refl)).
Defined.

(** ** Dialects that load each other *)

Lemma newDialect_run_to T c fields cA :
  constructor T (nextObject (heap c))
    (set_heap (fun h =>
       {| referencedDialect := referencedDialect h;
          threadPools := threadPools h; nextObject := S (nextObject (heap c)) |}) c)
  = Ok (fields, cA) ->
  newDialect T c
  = Ok (Some {| Dialect.this := nextObject (heap c);
                Dialect.name := fst fields;
                Dialect.dialectID := snd fields |}, cA).
Proof.
  intros H. unfold newDialect. cbn [bind modify gets ret].
  by rewrite (bind_Ok _ _ _ _ _ H).
Qed.

(** X22.  Dependent dialects, a cycle included.  Let the constructor of [A]
    call [loadDialect<B>()] and the constructor of [B] call [loadDialect]
    for the class of [A]'s namespace, and let the extension code do nothing.
    Then [getOrLoadDialect<A>()] on a context that holds neither namespace
    returns: the load of [B] inside the constructor of [A] completes, the
    call back into [A] from the constructor of [B] is skipped because [A] is
    marked as loading, and afterwards both dialects are loaded, as two
    objects, each under its own namespace and TypeID. *)
Theorem dependent_dialects_load :
  forall (env : Env) (A B A' : DialectClass) (c : Context),
    let nsA := getDialectNamespace A in
    let nsB := getDialectNamespace B in
    (forall a c0, constructor A a c0
                  = (MLIRContext.loadDialect env B ;;; ret (nsA, classTypeID A)) c0) ->
    (forall a c0, constructor B a c0
                  = (MLIRContext.loadDialect env A' ;;; ret (nsB, classTypeID B)) c0) ->
    getDialectNamespace A' = nsA ->
    (forall r d c0, applyExtensionsToDialect env r d c0 = Ok (tt, c0)) ->
    singleThreaded env c ->
    nsA <> nsB ->
    loadedDialects (dialects c) !! nsA = None ->
    loadedDialects (dialects c) !! nsB = None ->
    exists dA dB c',
      getOrLoadDialectT env A c = Ok (Some dA, c')
      /\ getLoadedDialect nsA c' = Some dA
      /\ getLoadedDialect nsB c' = Some dB
      /\ Dialect.getNamespace dA = nsA /\ Dialect.getTypeID dA = classTypeID A
      /\ Dialect.getNamespace dB = nsB /\ Dialect.getTypeID dB = classTypeID B
      /\ Dialect.this dA <> Dialect.this dB.
Proof.
  intros env A B A' c nsA nsB HA HB HA' Hext Hs Hne HnA HnB.
  (* the state in which the constructor of [A] starts *)
  set (c0 := set_loadedDialects (fun m => <[nsA := None]> m) c).
  set (a := nextObject (heap c0)).
  set (c0h := set_heap (fun h =>
                {| referencedDialect := referencedDialect h;
                   threadPools := threadPools h; nextObject := S a |}) c0).
  (* the state in which the constructor of [B] starts *)
  set (c1 := set_loadedDialects (fun m => <[nsB := None]> m) c0h).
  set (c1h := set_heap (fun h =>
                {| referencedDialect := referencedDialect h;
                   threadPools := threadPools h; nextObject := S (S a) |}) c1).
  set (dB := {| Dialect.this := S a; Dialect.name := nsB;
                Dialect.dialectID := classTypeID B |}).
  set (dA := {| Dialect.this := a; Dialect.name := nsA;
                Dialect.dialectID := classTypeID A |}).
  (* the constructor of [B]: the call back into [A] is skipped *)
  assert (HctorB : newDialect B c1 = Ok (Some dB, c1h)).
  { apply (newDialect_run_to B c1 (nsB, classTypeID B)).
    rewrite HB. unfold MLIRContext.loadDialect, bind.
    rewrite (proj2 (isDialectLoading_spec _ _)).
    - reflexivity.
    - rewrite HA'. unfold c1, c0h, c0. simpl.
      rewrite lookup_insert_ne by done. by rewrite lookup_insert_eq. }
  (* the load of [B] inside the constructor of [A] *)
  set (c2 := afterConstructor nsB dB c1h).
  assert (HloadB : getOrLoadDialectT env B c0h = Ok (Some dB, c2)).
  { unfold getOrLoadDialectT. fold nsB.
    rewrite (getOrLoadDialect_fresh_run env nsB _ _ c0h dB c1h).
    - unfold bind. fold c2. by rewrite Hext.
    - unfold c0h, c0. simpl. by rewrite lookup_insert_ne.
    - exact Hs.
    - exact HctorB. }
  assert (HctorA : newDialect A c0 = Ok (Some dA, c2)).
  { apply (newDialect_run_to A c0 (nsA, classTypeID A)).
    rewrite HA. fold a. fold c0h. unfold MLIRContext.loadDialect.
    assert (E : isDialectLoading (getDialectNamespace B) c0h = false).
    { unfold isDialectLoading, c0h, c0. simpl. fold nsB.
      rewrite lookup_insert_ne by done. by rewrite HnB. }
    unfold bind. rewrite E. simpl. by rewrite HloadB. }
  set (c3 := afterConstructor nsA dA c2).
  exists dA, dB, c3.
  assert (Hload : forall ns, loadedDialects (dialects c3) !! ns
            = <[nsA := Some dA]> (<[nsB := Some dB]>
                (<[nsB := None]> (<[nsA := None]> (loadedDialects (dialects c))))) !! ns).
  { intros ns. unfold c3, c2, afterConstructor.
    repeat match goal with
           | |- context [match ?x with Some _ => _ | None => _ end] =>
               destruct x; simpl
           end; reflexivity. }
  split.
  { unfold getOrLoadDialectT. fold nsA.
    rewrite (getOrLoadDialect_fresh_run env nsA _ _ c dA c2); [|done|done|done].
    unfold bind. fold c3. by rewrite Hext. }
  unfold getLoadedDialect. rewrite !Hload.
  rewrite lookup_insert_eq, (lookup_insert_ne _ nsA nsB), lookup_insert_eq by done.
  repeat (split; [done|]). simpl. lia.
Qed.

(** Two classes whose constructors load each other. *)
Definition cycleB : DialectClass :=
  {| getDialectNamespace := "b";
     classTypeID := idY;
     constructor := fun _ =>
       MLIRContext.loadDialect (quietEnv false) (plainDialect "a" idX) ;;;
       ret ("b", idY) |}.
Definition cycleA : DialectClass :=
  {| getDialectNamespace := "a";
     classTypeID := idX;
     constructor := fun _ =>
       MLIRContext.loadDialect (quietEnv false) cycleB ;;; ret ("a", idX) |}.

Lemma dependent_dialects_load_witness :
  exists dA dB c',
    getOrLoadDialectT (quietEnv false) cycleA freshContext = Ok (Some dA, c')
    /\ getLoadedDialect "a" c' = Some dA
    /\ getLoadedDialect "b" c' = Some dB.
Proof.
  destruct (dependent_dialects_load (quietEnv false) cycleA cycleB
              (plainDialect "a" idX) freshContext)
    as (dA & dB & c' & H1 & H2 & H3 & _).
  - intros a c0. reflexivity.
  - intros a c0. reflexivity.
  - reflexivity.
  - intros r d c0. reflexivity.
  - right. reflexivity.
  - discriminate.
  - reflexivity.
  - reflexivity.
  - by exists dA, dB, c'.
Defined.

(** ** Registering a pack of extensions *)

Lemma addExtension_run r k e :
  (DialectRegistry.addExtension k e r).1
  = {| DialectRegistry.registry := DialectRegistry.registry r;
       DialectRegistry.extensions :=
         (DialectRegistry.MapVector_try_emplace k e
            (DialectRegistry.extensions r)).1 |}.
Proof.
  unfold DialectRegistry.addExtension.
  by destruct (DialectRegistry.MapVector_try_emplace _ _ _).
Qed.

Lemma addExtensions_keys es r :
  DialectRegistry.registry (RegistryTemplates.addExtensions es r)
  = DialectRegistry.registry r
  /\ (forall k, k ∈ (DialectRegistry.extensions
                       (RegistryTemplates.addExtensions es r)).*1
                <-> k ∈ es.*1 \/ k ∈ (DialectRegistry.extensions r).*1)
  /\ (NoDup (DialectRegistry.extensions r).*1 ->
      NoDup (DialectRegistry.extensions
               (RegistryTemplates.addExtensions es r)).*1).
Proof.
  unfold RegistryTemplates.addExtensions.
  revert r. induction es as [|[k e] es IH]; intros r; simpl.
  - split; [done|]. split; [|done]. intros k. rewrite elem_of_nil. tauto.
  - destruct (IH (DialectRegistry.addExtension k e r).1) as (I1 & I2 & I3).
    rewrite !addExtension_run in *. simpl in *.
    split; [done|]. split.
    + intros k'. rewrite I2, MapVector_try_emplace_keys, elem_of_cons. tauto.
    + intros Hnd. apply I3. by apply try_emplace_NoDup.
Qed.

Lemma addExtensions_present es r :
  (forall k, k ∈ es.*1 -> k ∈ (DialectRegistry.extensions r).*1) ->
  RegistryTemplates.addExtensions es r = r.
Proof.
  unfold RegistryTemplates.addExtensions.
  revert r. induction es as [|[k e] es IH]; intros r Hall; simpl; [done|].
  assert (Hk : DialectRegistry.addExtension k e r = (r, false)).
  { unfold DialectRegistry.addExtension, DialectRegistry.MapVector_try_emplace.
    rewrite (proj2 (MapVector_contains_spec k _)) by (apply Hall; by left).
    by destruct r. }
  rewrite Hk. simpl. apply IH. intros k' Hk'. apply Hall. by right.
Qed.

(** X23.  [addExtensions<E1, E2, ...>()] registers each class of the pack
    that the registry does not hold yet and nothing else: afterwards the
    registry holds exactly the extension IDs it held and those of the pack,
    pairwise distinct if they were, and its dialect entries are as before.
    Registering the same pack again changes nothing. *)
Theorem addExtensions_idempotent :
  forall (ExtensionsT : list (TypeID.t * DialectRegistry.DialectExtensionBase))
         (r : DialectRegistry.t),
    let r1 := RegistryTemplates.addExtensions ExtensionsT r in
    DialectRegistry.registry r1 = DialectRegistry.registry r
    /\ (forall k, k ∈ (DialectRegistry.extensions r1).*1
                  <-> k ∈ ExtensionsT.*1 \/ k ∈ (DialectRegistry.extensions r).*1)
    /\ (NoDup (DialectRegistry.extensions r).*1 ->
        NoDup (DialectRegistry.extensions r1).*1)
    /\ RegistryTemplates.addExtensions ExtensionsT r1 = r1
    /\ (forall e, e ∈ DialectRegistry.extensions r ->
                  e ∈ DialectRegistry.extensions r1).
Proof.
  intros es r r1.
  destruct (addExtensions_keys es r) as (H1 & H2 & H3).
  split; [done|]. split; [done|]. split; [done|]. split.
  - apply addExtensions_present. intros k Hk. apply H2. by left.
  - subst r1. unfold RegistryTemplates.addExtensions. clear H1 H2 H3.
    revert r. induction es as [|[k e0] es IH]; intros r e He; simpl; [done|].
    apply IH. rewrite addExtension_run. simpl.
    unfold DialectRegistry.MapVector_try_emplace.
    destruct (DialectRegistry.MapVector_contains k _); simpl; [done|].
    apply elem_of_app. by left.
Qed.
